(** * static/script.js: the chat front end, embedded and verified

    The script is an event-driven controller: a handful of global variables,
    a few DOM elements, and functions that are run by user events and by the
    settlement of [fetch] promises.  The development follows the file from
    the bottom up: JavaScript strings and the regular-expression replacements
    of [formatMessage]; the values [JSON.parse] can produce; the script's
    state and its functions, written in a small state-and-exception monad;
    the event loop; and finally the properties of the specification.

    What is kept of the page: the children of [#chatMessages], the value
    and the placeholder of [#userInput], whether [#btnSend] is disabled, the
    texts of [#inputHint] and [#langFlag], the class of [#devModal], and the
    number of stars.  The elements the script uses without a guard are taken
    to be there.  The markup of a bubble can give an element of the bubble
    the id of the typing indicator; what the document makes of the markup
    is left to its parser, which the page brings with it.  Scrolling,
    focus, the console and the downloaded file are left out.  The network is the log of the [fetch] calls and the list of the
    awaits not yet settled, which the environment settles in any order. *)

From Stdlib Require Import List NArith Bool String Ascii Arith Lia.
Import ListNotations.

Set Warnings "-register-all".

(* ================================================================== *)
(** * JavaScript strings *)

(** A JavaScript string is a sequence of UTF-16 code units; regular
    expressions without the [u] flag and [trim] work on code units. *)
Definition code_unit := N.
Definition jsstring := list code_unit.

(** An ASCII literal of the source as a JavaScript string. *)
Definition lit (s : string) : jsstring :=
  map N_of_ascii (list_ascii_of_string s).

Definition cu_eqb (a b : code_unit) : bool := N.eqb a b.

Fixpoint str_eqb (a b : jsstring) : bool :=
  match a, b with
  | [], [] => true
  | x :: a', y :: b' => cu_eqb x y && str_eqb a' b'
  | _, _ => false
  end.

(** LineTerminator: LF, CR, LS, PS. *)
Definition is_line_terminator (c : code_unit) : bool :=
  existsb (cu_eqb c) [10; 13; 8232; 8233]%N.

(** WhiteSpace and LineTerminator, the code units [String.prototype.trim]
    strips. *)
Definition is_trimmed_space (c : code_unit) : bool :=
  existsb (cu_eqb c)
    [9; 10; 11; 12; 13; 32; 160; 5760; 8192; 8193; 8194; 8195; 8196; 8197;
     8198; 8199; 8200; 8201; 8202; 8232; 8233; 8239; 8287; 12288; 65279]%N.

Fixpoint trim_start (s : jsstring) : jsstring :=
  match s with
  | c :: s' => if is_trimmed_space c then trim_start s' else s
  | [] => []
  end.

Definition trim (s : jsstring) : jsstring :=
  rev (trim_start (rev (trim_start s))).

(* ================================================================== *)
(** * Regular expressions of the script

    The patterns of [formatMessage] are sequences of three kinds of items:
    one character, a captured lazy star of a character class [(a*?)], and a
    greedy bounded repetition [a{n,}].  [exec] is the backtracking matcher
    anchored at the head of its input; it returns the captures and the
    unconsumed rest of the first successful alternative in priority order. *)
Module Regex.

Inductive atom :=
  | Chr (c : code_unit)      (* a literal character *)
  | AnyChar.                 (* [.]: anything but a line terminator *)

Inductive item :=
  | One (a : atom)
  | LazyGroup (a : atom)
  | AtLeast (n : nat) (a : atom).

Definition regex := list item.

Definition accepts (a : atom) (c : code_unit) : bool :=
  match a with
  | Chr d => cu_eqb c d
  | AnyChar => negb (is_line_terminator c)
  end.

Definition result := option (list jsstring * jsstring).

(** [(a*?)] followed by [k]: the shortest repetition after which [k]
    succeeds. *)
Fixpoint lazy_star (a : atom) (k : jsstring -> result)
    (acc : jsstring) (s : jsstring) : result :=
  match k s with
  | Some (caps, rest) => Some (rev acc :: caps, rest)
  | None =>
      match s with
      | c :: s' => if accepts a c then lazy_star a k (c :: acc) s' else None
      | [] => None
      end
  end.

(** [a{n,}] followed by [k]: the longest repetition, of at least [n], after
    which [k] succeeds; [seen] counts the repetitions consumed so far. *)
Fixpoint at_least (n : nat) (a : atom) (k : jsstring -> result)
    (seen : nat) (s : jsstring) : result :=
  let stop := if n <=? seen then k s else None in
  match s with
  | c :: s' =>
      if accepts a c then
        match at_least n a k (S seen) s' with
        | Some m => Some m
        | None => stop
        end
      else stop
  | [] => stop
  end.

Fixpoint exec (r : regex) (s : jsstring) {struct r} : result :=
  match r with
  | [] => Some ([], s)
  | One a :: r' =>
      match s with
      | c :: s' => if accepts a c then exec r' s' else None
      | [] => None
      end
  | LazyGroup a :: r' => lazy_star a (exec r') [] s
  | AtLeast n a :: r' => at_least n a (exec r') 0 s
  end.

(** Replacement patterns: literal text and [$n]. *)
Inductive piece :=
  | Lit (s : jsstring)
  | Group (n : nat).

Definition expand (tpl : list piece) (caps : list jsstring) : jsstring :=
  flat_map (fun p => match p with
                     | Lit s => s
                     | Group n => nth (pred n) caps []
                     end) tpl.

(** [String.prototype.replace] with a global pattern: scan from the left;
    at a match emit the expansion and go on after the match (a code unit
    further after an empty match); elsewhere copy a code unit.  [skip] is
    the number of code units still covered by the previous match. *)
Fixpoint replace_from (r : regex) (tpl : list piece) (skip : nat)
    (s : jsstring) {struct s} : jsstring :=
  match s with
  | [] =>
      match skip, exec r [] with
      | O, Some (caps, _) => expand tpl caps
      | _, _ => []
      end
  | c :: s' =>
      match skip with
      | S k => replace_from r tpl k s'
      | O =>
          match exec r s with
          | Some (caps, rest) =>
              match List.length s - List.length rest with
              | O => expand tpl caps ++ c :: replace_from r tpl 0 s'
              | S k => expand tpl caps ++ replace_from r tpl k s'
              end
          | None => c :: replace_from r tpl 0 s'
          end
      end
  end.

Definition replace (r : regex) (tpl : list piece) (s : jsstring) : jsstring :=
  replace_from r tpl 0 s.

End Regex.
Import Regex.

(* ================================================================== *)
(** * formatMessage *)

Definition c_amp : code_unit := 38%N.       (* & *)
Definition c_lt : code_unit := 60%N.        (* < *)
Definition c_gt : code_unit := 62%N.        (* > *)
Definition c_star : code_unit := 42%N.      (* * *)
Definition c_underscore : code_unit := 95%N.
Definition c_lbracket : code_unit := 91%N.  (* [ *)
Definition c_rbracket : code_unit := 93%N.  (* ] *)
Definition c_lparen : code_unit := 40%N.    (* ( *)
Definition c_rparen : code_unit := 41%N.    (* ) *)
Definition c_backtick : code_unit := 96%N.
Definition c_dquote : code_unit := 34%N.
Definition c_box : code_unit := 9552%N.     (* U+2550, the box-drawing double line *)

(** /\*\*(.*?)\*\*/g *)
Definition re_bold : regex :=
  [One (Chr c_star); One (Chr c_star); LazyGroup AnyChar;
   One (Chr c_star); One (Chr c_star)].

(** /_(.*?)_/g *)
Definition re_italic : regex :=
  [One (Chr c_underscore); LazyGroup AnyChar; One (Chr c_underscore)].

(** /\[(.*?)\]\((.*?)\)/g *)
Definition re_link : regex :=
  [One (Chr c_lbracket); LazyGroup AnyChar; One (Chr c_rbracket);
   One (Chr c_lparen); LazyGroup AnyChar; One (Chr c_rparen)].

(** /`(.*?)`/g *)
Definition re_code : regex :=
  [One (Chr c_backtick); LazyGroup AnyChar; One (Chr c_backtick)].

(** /U+2550{3,}/g *)
Definition re_separator : regex := [AtLeast 3 (Chr c_box)].

Definition tpl_link : list piece :=
  [Lit (lit "<a href=" ++ [c_dquote]);
   Group 2;
   Lit ([c_dquote] ++ lit " style=" ++ [c_dquote]
        ++ lit "color: var(--accent-gold); text-decoration: underline;"
        ++ [c_dquote] ++ lit ">");
   Group 1;
   Lit (lit "</a>")].

Definition tpl_separator : list piece :=
  [Lit (lit "<span class=" ++ [c_dquote] ++ lit "msg-separator"
        ++ [c_dquote] ++ lit "></span>")].

(** The three escaping replacements at the head of [formatMessage]. *)
Definition escape_html (text : jsstring) : jsstring :=
  replace [One (Chr c_gt)] [Lit (lit "&gt;")]
    (replace [One (Chr c_lt)] [Lit (lit "&lt;")]
       (replace [One (Chr c_amp)] [Lit (lit "&amp;")] text)).

(** The five markup replacements that follow. *)
Definition apply_markup (html : jsstring) : jsstring :=
  let html := replace re_bold
                [Lit (lit "<strong>"); Group 1; Lit (lit "</strong>")] html in
  let html := replace re_italic
                [Lit (lit "<em>"); Group 1; Lit (lit "</em>")] html in
  let html := replace re_link tpl_link html in
  let html := replace re_code
                [Lit (lit "<code>"); Group 1; Lit (lit "</code>")] html in
  replace re_separator tpl_separator html.

Definition formatMessage (text : jsstring) : jsstring :=
  apply_markup (escape_html text).

(* ================================================================== *)
(** * Values

    The values that reach the script's variables: [undefined] and whatever
    [JSON.parse] builds.  A Number is kept by what the script can observe of
    it, whether it is zero and its decimal text.  An object is the list of
    its own properties; the first entry of a name is the property. *)
Inductive jsval :=
  | JUndefined
  | JNull
  | JBool (b : bool)
  | JNum (zero : bool) (text : jsstring)
  | JStr (s : jsstring)
  | JArr (elems : list jsval)
  | JObj (props : list (jsstring * jsval)).

(** ToBoolean. *)
Definition truthy (v : jsval) : bool :=
  match v with
  | JUndefined | JNull => false
  | JBool b => b
  | JNum zero _ => negb zero
  | JStr s => match s with [] => false | _ => true end
  | JArr _ | JObj _ => true
  end.

(** [v === 'literal']. *)
Definition is_string (v : jsval) (s : jsstring) : bool :=
  match v with
  | JStr t => str_eqb t s
  | _ => false
  end.

Fixpoint assoc (key : jsstring) (props : list (jsstring * jsval))
    : option jsval :=
  match props with
  | [] => None
  | (k, v) :: props' => if str_eqb k key then Some v else assoc key props'
  end.

(** [v.name] for the four names the script reads from a response
    ([response], [state], [lang], [hints]), none of which a built-in
    prototype defines: a TypeError ([None]) on [null] and [undefined], the
    own property of an object, [undefined] otherwise. *)
Definition field (v : jsval) (name : jsstring) : option jsval :=
  match v with
  | JUndefined | JNull => None
  | JObj props =>
      match assoc name props with
      | Some x => Some x
      | None => Some JUndefined
      end
  | _ => Some JUndefined
  end.

(** ToString, as a template literal, a property key and [textContent]
    apply it; [None] is a TypeError.  A parsed object converts through
    [Object.prototype.toString] unless an own property shadows it, and no
    parsed value is callable; an array joins its elements. *)
Fixpoint to_string (v : jsval) : option jsstring :=
  match v with
  | JUndefined => Some (lit "undefined")
  | JNull => Some (lit "null")
  | JBool b => Some (if b then lit "true" else lit "false")
  | JNum _ text => Some text
  | JStr s => Some s
  | JArr elems =>
      (fix join (l : list jsval) (first : bool) : option jsstring :=
         match l with
         | [] => Some []
         | x :: l' =>
             let sx := match x with
                       | JUndefined | JNull => Some []
                       | _ => to_string x
                       end in
             match sx, join l' false with
             | Some a, Some b =>
                 Some ((if first then [] else lit ",") ++ a ++ b)
             | _, _ => None
             end
         end) elems true
  | JObj props =>
      match assoc (lit "toString") props with
      | Some _ => None
      | None => Some (lit "[object Object]")
      end
  end.

(** The array index a property key denotes, if any. *)
Fixpoint digits_value (s : jsstring) (acc : N) : option N :=
  match s with
  | [] => Some acc
  | c :: s' =>
      if (N.leb 48%N c && N.leb c 57%N)%bool
      then digits_value s' (10 * acc + (c - 48))%N
      else None
  end.

Definition array_index (key : jsstring) : option N :=
  match key with
  | [] => None
  | [c] => digits_value [c] 0%N
  | c :: _ => if cu_eqb c 48%N then None else digits_value key 0%N
  end.

Fixpoint nth_at (l : list jsval) (i : N) : option jsval :=
  match l with
  | [] => None
  | x :: l' => if N.eqb i 0%N then Some x else nth_at l' (N.pred i)
  end.

Fixpoint nth_unit (s : jsstring) (i : N) : option code_unit :=
  match s with
  | [] => None
  | c :: s' => if N.eqb i 0%N then Some c else nth_unit s' (N.pred i)
  end.

(** The decimal text of a length. *)
Fixpoint digits (d : Decimal.uint) : jsstring :=
  match d with
  | Decimal.Nil => []
  | Decimal.D0 d' => 48%N :: digits d'
  | Decimal.D1 d' => 49%N :: digits d'
  | Decimal.D2 d' => 50%N :: digits d'
  | Decimal.D3 d' => 51%N :: digits d'
  | Decimal.D4 d' => 52%N :: digits d'
  | Decimal.D5 d' => 53%N :: digits d'
  | Decimal.D6 d' => 54%N :: digits d'
  | Decimal.D7 d' => 55%N :: digits d'
  | Decimal.D8 d' => 56%N :: digits d'
  | Decimal.D9 d' => 57%N :: digits d'
  end.

(** The Number that a [length] is. *)
Definition length_value (n : nat) : jsval :=
  JNum (Nat.eqb n 0) (digits (Nat.to_uint n)).

(** The own property [o[key]] of a parsed object or array, and of a string:
    the elements of an array and the code units of a string by their index,
    and the [length] of both. *)
Definition own_member (o : jsval) (key : jsstring) : option jsval :=
  match o with
  | JObj props => assoc key props
  | JArr elems =>
      match array_index key with
      | Some i => nth_at elems i
      | None =>
          if str_eqb key (lit "length")
          then Some (length_value (List.length elems))
          else None
      end
  | JStr s =>
      match array_index key with
      | Some i => option_map (fun c => JStr [c]) (nth_unit s i)
      | None =>
          if str_eqb key (lit "length")
          then Some (length_value (List.length s))
          else None
      end
  | _ => None
  end.

(** The names every object inherits from [Object.prototype]. *)
Definition object_prototype_keys : list jsstring :=
  map lit ["constructor"; "hasOwnProperty"; "isPrototypeOf";
           "propertyIsEnumerable"; "toLocaleString"; "toString"; "valueOf";
           "__proto__"; "__defineGetter__"; "__defineSetter__";
           "__lookupGetter__"; "__lookupSetter__"]%string.

Definition inherited (key : jsstring) : bool :=
  existsb (str_eqb key) object_prototype_keys.

(** The names of [Array.prototype], [String.prototype], [Number.prototype]
    and [Boolean.prototype], as of ECMAScript 2024 with its Annex B, that
    [Object.prototype] does not have already. *)
Definition array_prototype_keys : list jsstring :=
  map lit ["at"; "concat"; "copyWithin"; "entries"; "every"; "fill";
           "filter"; "find"; "findIndex"; "findLast"; "findLastIndex";
           "flat"; "flatMap"; "forEach"; "includes"; "indexOf"; "join";
           "keys"; "lastIndexOf"; "map"; "pop"; "push"; "reduce";
           "reduceRight"; "reverse"; "shift"; "slice"; "some"; "sort";
           "splice"; "toReversed"; "toSorted"; "toSpliced"; "unshift";
           "values"; "with"]%string.

Definition string_prototype_keys : list jsstring :=
  map lit ["at"; "charAt"; "charCodeAt"; "codePointAt"; "concat";
           "endsWith"; "includes"; "indexOf"; "isWellFormed";
           "lastIndexOf"; "localeCompare"; "match"; "matchAll";
           "normalize"; "padEnd"; "padStart"; "repeat"; "replace";
           "replaceAll"; "search"; "slice"; "split"; "startsWith";
           "substring"; "toLocaleLowerCase"; "toLocaleUpperCase";
           "toLowerCase"; "toUpperCase"; "toWellFormed"; "trim"; "trimEnd";
           "trimStart"; "substr"; "anchor"; "big"; "blink"; "bold"; "fixed";
           "fontcolor"; "fontsize"; "italics"; "link"; "small"; "strike";
           "sub"; "sup"; "trimLeft"; "trimRight"]%string.

Definition number_prototype_keys : list jsstring :=
  map lit ["toExponential"; "toFixed"; "toPrecision"]%string.

(** The names a value inherits: those of the prototype of its kind and
    those of [Object.prototype]. *)
Definition prototype_keys (v : jsval) : list jsstring :=
  match v with
  | JUndefined | JNull => []
  | JBool _ | JObj _ => object_prototype_keys
  | JNum _ _ => number_prototype_keys ++ object_prototype_keys
  | JStr _ => string_prototype_keys ++ object_prototype_keys
  | JArr _ => array_prototype_keys ++ object_prototype_keys
  end.

Definition inherited_member (v : jsval) (key : jsstring) : bool :=
  existsb (str_eqb key) (prototype_keys v).

(* ================================================================== *)
(** * The page: script variables, DOM, network *)

(** The two roles [addMessage] is called with, ['bot'] and ['user']. *)
Inductive role := Bot | User.

(** A child of [#chatMessages]: a message (avatar by role, and the bubble
    with the innerHTML it was given), a message out of whose bubble
    [removeTyping] has since taken [removed] elements, or the typing
    indicator. *)
Inductive node :=
  | Message (r : role) (html : jsstring)
  | Stripped (r : role) (html : jsstring) (removed : nat)
  | TypingIndicator.

(** The text of [#inputHint]; [HintOther] is the text the engine makes of
    a built-in member that was found under the name of the state (the
    source text of a built-in function, or the text of a prototype). *)
Inductive hint_text :=
  | HintText (s : jsstring)
  | HintOther.

(** The [let] variables of the script. *)
Record Vars := {
  isProcessing : bool;
  currentState : jsval;
  currentLang : jsval;
  currentHints : jsval
}.

(** The elements the script touches.  [#langFlag] and [#devModal] are
    looked up under a guard and may be missing; they are the elements of the
    page itself, which come before the chat in the document, and the page
    itself has no element with the id of the typing indicator.

    A bubble can hold such an element: [formatMessage] copies a double quote
    of a link address into the tag of the anchor, so the text of a message
    can give the anchor an id.  What the bubbles hold is up to the HTML
    parser of the browser, which the document brings with it:
    [typing_ids html] is the number of elements with the id
    'typingIndicator' in a bubble whose innerHTML was set to [html], counted
    as the calls of [removeTyping] find them, one after the other. *)
Record Dom := {
  chatMessages : list node;
  userInput_value : jsstring;
  userInput_placeholder : jsstring;
  btnSend_disabled : bool;
  inputHint : hint_text;
  langFlag : option jsstring;
  devModal_active : option bool;
  stars : nat;
  typing_ids : jsstring -> nat
}.

Inductive http_method := GET | POST.

(** A [fetch] call; [body] is the object given to [JSON.stringify]. *)
Record request := {
  req_method : http_method;
  req_url : jsstring;
  req_headers : list (jsstring * jsstring);
  req_body : option (list (jsstring * jsval))
}.

(** What an async function does when the promise it awaits settles. *)
Inductive continuation :=
  | KInit                      (* initChat, awaiting fetch and res.json() *)
  | KChat                      (* sendMessage, awaiting fetch and res.json() *)
  | KChatDelay (data : jsval)  (* sendMessage, awaiting the setTimeout *)
  | KSetLang                   (* toggleLanguage *)
  | KReset                     (* the then-chain of resetChat *)
  | KPdf.                      (* downloadPDF *)

(** The requests issued so far, and the awaits not yet settled; a request
    is known by its index in [requests]. *)
Record Net := {
  requests : list request;
  pending : list (nat * continuation)
}.

Record State := {
  vars : Vars;
  dom : Dom;
  net : Net
}.

Definition with_vars (f : Vars -> Vars) (st : State) : State :=
  {| vars := f (vars st); dom := dom st; net := net st |}.
Definition with_dom (f : Dom -> Dom) (st : State) : State :=
  {| vars := vars st; dom := f (dom st); net := net st |}.
Definition with_net (f : Net -> Net) (st : State) : State :=
  {| vars := vars st; dom := dom st; net := f (net st) |}.

Definition set_isProcessing (b : bool) : State -> State :=
  with_vars (fun v => {| isProcessing := b; currentState := currentState v;
                         currentLang := currentLang v;
                         currentHints := currentHints v |}).
Definition set_currentState (x : jsval) : State -> State :=
  with_vars (fun v => {| isProcessing := isProcessing v; currentState := x;
                         currentLang := currentLang v;
                         currentHints := currentHints v |}).
Definition set_currentLang (x : jsval) : State -> State :=
  with_vars (fun v => {| isProcessing := isProcessing v;
                         currentState := currentState v; currentLang := x;
                         currentHints := currentHints v |}).
Definition set_currentHints (x : jsval) : State -> State :=
  with_vars (fun v => {| isProcessing := isProcessing v;
                         currentState := currentState v;
                         currentLang := currentLang v; currentHints := x |}).

Definition set_chatMessages (l : list node) : State -> State :=
  with_dom (fun d => {| chatMessages := l;
                        userInput_value := userInput_value d;
                        userInput_placeholder := userInput_placeholder d;
                        btnSend_disabled := btnSend_disabled d;
                        inputHint := inputHint d; langFlag := langFlag d;
                        devModal_active := devModal_active d;
                        stars := stars d;
                        typing_ids := typing_ids d |}).
Definition set_userInput_value (s : jsstring) : State -> State :=
  with_dom (fun d => {| chatMessages := chatMessages d;
                        userInput_value := s;
                        userInput_placeholder := userInput_placeholder d;
                        btnSend_disabled := btnSend_disabled d;
                        inputHint := inputHint d; langFlag := langFlag d;
                        devModal_active := devModal_active d;
                        stars := stars d;
                        typing_ids := typing_ids d |}).
Definition set_userInput_placeholder (s : jsstring) : State -> State :=
  with_dom (fun d => {| chatMessages := chatMessages d;
                        userInput_value := userInput_value d;
                        userInput_placeholder := s;
                        btnSend_disabled := btnSend_disabled d;
                        inputHint := inputHint d; langFlag := langFlag d;
                        devModal_active := devModal_active d;
                        stars := stars d;
                        typing_ids := typing_ids d |}).
Definition set_btnSend_disabled (b : bool) : State -> State :=
  with_dom (fun d => {| chatMessages := chatMessages d;
                        userInput_value := userInput_value d;
                        userInput_placeholder := userInput_placeholder d;
                        btnSend_disabled := b;
                        inputHint := inputHint d; langFlag := langFlag d;
                        devModal_active := devModal_active d;
                        stars := stars d;
                        typing_ids := typing_ids d |}).
Definition set_inputHint (h : hint_text) : State -> State :=
  with_dom (fun d => {| chatMessages := chatMessages d;
                        userInput_value := userInput_value d;
                        userInput_placeholder := userInput_placeholder d;
                        btnSend_disabled := btnSend_disabled d;
                        inputHint := h; langFlag := langFlag d;
                        devModal_active := devModal_active d;
                        stars := stars d;
                        typing_ids := typing_ids d |}).
Definition set_langFlag (f : option jsstring) : State -> State :=
  with_dom (fun d => {| chatMessages := chatMessages d;
                        userInput_value := userInput_value d;
                        userInput_placeholder := userInput_placeholder d;
                        btnSend_disabled := btnSend_disabled d;
                        inputHint := inputHint d; langFlag := f;
                        devModal_active := devModal_active d;
                        stars := stars d;
                        typing_ids := typing_ids d |}).
Definition set_devModal_active (m : option bool) : State -> State :=
  with_dom (fun d => {| chatMessages := chatMessages d;
                        userInput_value := userInput_value d;
                        userInput_placeholder := userInput_placeholder d;
                        btnSend_disabled := btnSend_disabled d;
                        inputHint := inputHint d; langFlag := langFlag d;
                        devModal_active := m;
                        stars := stars d;
                        typing_ids := typing_ids d |}).
Definition set_stars (n : nat) : State -> State :=
  with_dom (fun d => {| chatMessages := chatMessages d;
                        userInput_value := userInput_value d;
                        userInput_placeholder := userInput_placeholder d;
                        btnSend_disabled := btnSend_disabled d;
                        inputHint := inputHint d; langFlag := langFlag d;
                        devModal_active := devModal_active d;
                        stars := n;
                        typing_ids := typing_ids d |}).

Definition set_requests (l : list request) : State -> State :=
  with_net (fun n => {| requests := l; pending := pending n |}).
Definition set_pending (l : list (nat * continuation)) : State -> State :=
  with_net (fun n => {| requests := requests n; pending := l |}).

(* ================================================================== *)
(** * Running a function: state and exceptions

    A function body is a state transformer that completes normally or by a
    throw; the effects made before a throw stay.  The script never looks at
    the exception it catches, so a throw carries no value. *)
Inductive completion (A : Type) :=
  | Normal (a : A)
  | Throw.
Arguments Normal {A} a.
Arguments Throw {A}.

Definition M (A : Type) : Type := State -> completion A * State.

Definition ret {A} (a : A) : M A := fun st => (Normal a, st).

Definition bind {A B} (m : M A) (f : A -> M B) : M B :=
  fun st =>
    match m st with
    | (Normal a, st') => f a st'
    | (Throw, st') => (Throw, st')
    end.

Definition throw {A} : M A := fun st => (Throw, st).

(** try { body } catch (err) { handler } *)
Definition try_catch {A} (body handler : M A) : M A :=
  fun st =>
    match body st with
    | (Normal a, st') => (Normal a, st')
    | (Throw, st') => handler st'
    end.

Definition gets {A} (f : State -> A) : M A := fun st => (Normal (f st), st).
Definition modify (f : State -> State) : M unit := fun st => (Normal tt, f st).

(** A value that must be there, or a TypeError. *)
Definition or_throw {A} (o : option A) : M A :=
  match o with
  | Some a => ret a
  | None => throw
  end.

Declare Scope js_scope.
Delimit Scope js_scope with js.
Notation "x <- m ;; k" := (bind m (fun x => k))
  (at level 61, m at next level, right associativity) : js_scope.
Notation "m ;; k" := (bind m (fun _ => k))
  (at level 61, right associativity) : js_scope.
Open Scope js_scope.

(** The state a task leaves; an exception that reaches the event loop is
    reported on the console and otherwise dropped. *)
Definition exec_task {A} (m : M A) (st : State) : State := snd (m st).

(* ================================================================== *)
(** * The literals of the script that are not ASCII, as code units

    The flags, the Burmese texts, and the cross and check marks (U+274C,
    U+2705) that open the error and success messages. *)
Definition flag_my : jsstring :=
  [55356; 56818; 55356; 56818]%N.

Definition flag_gb : jsstring :=
  [55356; 56812; 55356; 56807]%N.

Definition placeholder_my : jsstring :=
  [4121; 4096; 4154; 4102; 4145; 4151; 4097; 4155; 4154; 32; 4123; 4141;
   4143; 4096; 4154; 4113; 4106; 4151; 4154; 4117; 4139; 46; 46; 46]%N.

Definition err_connect_en : jsstring :=
  10060%N :: lit " Cannot connect to server. Please try again.".

Definition err_connect_my : jsstring :=
  [10060; 32; 4102; 4140; 4119; 4140; 4116; 4158; 4100; 4151; 4154; 32;
   4097; 4155; 4141; 4112; 4154; 4102; 4096; 4154; 4173; 32; 4121; 4123;
   4117; 4139; 4171; 32; 4113; 4117; 4154; 4121; 4150; 4096; 4156; 4141;
   4143; 4152; 4101; 4140; 4152; 4117; 4139; 4171]%N.

Definition err_chat_en : jsstring :=
  10060%N :: lit " Something went wrong. Please try again.".

Definition err_chat_my : jsstring :=
  [10060; 32; 4112; 4101; 4154; 4101; 4143; 4150; 4112; 4101; 4154; 4097;
   4143; 32; 4121; 4158; 4140; 4152; 4122; 4157; 4100; 4154; 4152; 4116;
   4145; 4117; 4139; 4126; 4106; 4154; 4171; 32; 4113; 4117; 4154; 4121;
   4150; 4096; 4156; 4141; 4143; 4152; 4101; 4140; 4152; 4117; 4139; 4171]%N.

Definition hint_greeting_my : jsstring :=
  [4126; 4100; 4151; 4154; 4123; 4146; 4151; 32; 4129; 4121; 4106; 4154;
   4096; 4141; 4143; 32; 4123; 4141; 4143; 4096; 4154; 4113; 4106; 4151;
   4154; 4117; 4145; 4152; 4117; 4139]%N.

Definition hint_ask_dob_my : jsstring :=
  [4121; 4157; 4145; 4152; 4116; 4145; 4151; 32; 4123; 4096; 4154; 4101;
   4157; 4146; 4096; 4141; 4143; 32; 89; 89; 89; 89; 45; 77; 77; 45; 68;
   68; 32; 4117; 4143; 4150; 4101; 4150; 4118; 4156; 4100; 4151; 4154; 32;
   4123; 4141; 4143; 4096; 4154; 4113; 4106; 4151; 4154; 4117; 4139]%N.

Definition hint_ask_wednesday_my : jsstring :=
  [4116; 4150; 4116; 4096; 4154; 32; 4126; 4141; 4143; 4151; 4121; 4127;
   4143; 4112; 4154; 32; 4106; 4116; 4145; 32; 4127; 4143; 32; 4123; 4141;
   4143; 4096; 4154; 4113; 4106; 4151; 4154; 4117; 4139]%N.

Definition hint_reading_shown_my : jsstring :=
  [4127; 4143; 4112; 4154; 4096; 4146; 4151; 32; 40; 4127; 4145; 4140;
   4101; 4140; 4112; 4121; 4154; 4152; 41; 32; 4127; 4143; 32; 4123; 4141;
   4143; 4096; 4154; 4113; 4106; 4151; 4154; 4117; 4139]%N.

Definition hint_forecast_shown_my : jsstring :=
  [4123; 4096; 4154; 4097; 4155; 4141; 4116; 4154; 4152; 32; 4127; 4143;
   32; 4123; 4141; 4143; 4096; 4154; 4113; 4106; 4151; 4154; 4173; 32;
   4123; 4096; 4154; 4097; 4155; 4141; 4116; 4154; 4152; 32; 4122; 4144;
   4117; 4139]%N.

Definition pdf_done : jsstring :=
  [9989; 32; 80; 68; 70; 32; 4127; 4145; 4140; 4101; 4140; 4112; 4121;
   4154; 4152; 32; 4114; 4145; 4139; 4100; 4154; 4152; 4124; 4143; 4114;
   4154; 32; 4129; 4145; 4140; 4100; 4154; 4121; 4156; 4100; 4154; 4117;
   4139; 4117; 4156; 4142; 33; 32; 55356; 57225]%N.

Definition pdf_failed : jsstring :=
  [10060; 32; 80; 68; 70; 32; 4118; 4116; 4154; 4112; 4142; 4152; 4123;
   4140; 4112; 4157; 4100; 4154; 32; 4129; 4121; 4158; 4140; 4152; 4123;
   4158; 4141; 4117; 4139; 4126; 4106; 4154; 4171; 32; 4113; 4117; 4154;
   4121; 4150; 4096; 4156; 4141; 4143; 4152; 4101; 4140; 4152; 4117; 4139;
   4171]%N.

Definition placeholder_en : jsstring := lit "Type a message...".

(** The fallback table of [updateHint]: state, English text, Burmese text. *)
Definition defaultHints : list (jsstring * (jsstring * jsstring)) :=
  [(lit "greeting", (lit "Type your name", hint_greeting_my));
   (lit "ask_dob",
    (lit "Enter date of birth (YYYY-MM-DD)", hint_ask_dob_my));
   (lit "ask_wednesday",
    (lit "Type morning or afternoon", hint_ask_wednesday_my));
   (lit "reading_shown",
    (lit "Type yes to see the 6-month forecast", hint_reading_shown_my));
   (lit "forecast_shown",
    (lit "Type appointment to book a session", hint_forecast_shown_my))].

(* ================================================================== *)
(** * The functions of the script

    An async function is written as the part that runs when it is called,
    up to its first [await], and the part that runs when the awaited
    promise settles.  [scrollToBottom], [userInput.focus()] and
    [console.error] change nothing that is kept here. *)

(** What comes back for a request: [fetch] rejects, or it resolves to a
    response.  [res_json] is what [res.json()] resolves to, [None] when it
    rejects.  [res_download] says whether the steps of [downloadPDF] after
    the status check go through (the body is read and the file name of the
    Content-Disposition header, if any, decodes). *)
Record response := {
  res_ok : bool;
  res_json : option jsval;
  res_download : bool
}.

Inductive outcome :=
  | NetworkError
  | Response (r : response).

Definition json_headers : list (jsstring * jsstring) :=
  [(lit "Content-Type", lit "application/json")].

(** [fetch]: the request is issued and the caller awaits it. *)
Definition fetch (r : request) (k : continuation) : M unit :=
  modify (fun st =>
    let id := List.length (requests (net st)) in
    set_pending (pending (net st) ++ [(id, k)])
      (set_requests (requests (net st) ++ [r]) st)).

(** const res = await fetch(...); const data = await res.json(); *)
Definition response_data (o : outcome) : M jsval :=
  match o with
  | NetworkError => throw
  | Response r => or_throw (res_json r)
  end.

(** formatMessage(content), where [content] need not be a string:
    [text.replace] is a TypeError on anything else. *)
Definition format_content (content : jsval) : M jsstring :=
  match content with
  | JStr text => ret (formatMessage text)
  | _ => throw
  end.

Definition append_node (n : node) : M unit :=
  modify (fun st => set_chatMessages (chatMessages (dom st) ++ [n]) st).

Definition addMessage (r : role) (content : jsval) : M unit :=
  html <- format_content content ;;
  append_node (Message r html).

Definition showTyping : M unit := append_node TypingIndicator.

(** document.getElementById('typingIndicator') and el.remove(): the first
    element with that id, in the order of the document, is removed.  It is
    the first typing indicator unless a bubble before it holds an element
    with the id, which then goes in its place; [ids] is the parser of the
    document. *)
Fixpoint remove_typing (ids : jsstring -> nat) (l : list node) : list node :=
  match l with
  | [] => []
  | TypingIndicator :: l' => l'
  | Message r html :: l' =>
      if Nat.ltb 0 (ids html) then Stripped r html 1 :: l'
      else Message r html :: remove_typing ids l'
  | Stripped r html k :: l' =>
      if Nat.ltb k (ids html) then Stripped r html (S k) :: l'
      else Stripped r html k :: remove_typing ids l'
  end.

Definition removeTyping : M unit :=
  modify (fun st =>
    set_chatMessages
      (remove_typing (typing_ids (dom st)) (chatMessages (dom st))) st).

(** defaultHints[key] || '' *)
Fixpoint lookup_default (key : jsstring)
    (table : list (jsstring * (jsstring * jsstring)))
    : option (jsstring * jsstring) :=
  match table with
  | [] => None
  | (k, texts) :: table' =>
      if str_eqb k key then Some texts else lookup_default key table'
  end.

Definition default_hint (lang : jsval) (key : jsstring) : hint_text :=
  match lookup_default key defaultHints with
  | Some (en, my) => HintText (if is_string lang (lit "en") then en else my)
  | None => if inherited key then HintOther else HintText []
  end.

Definition updateHint : M unit :=
  hints <- gets (fun st => currentHints (vars st)) ;;
  state <- gets (fun st => currentState (vars st)) ;;
  lang <- gets (fun st => currentLang (vars st)) ;;
  let fallback :=
    key <- or_throw (to_string state) ;;
    modify (set_inputHint (default_hint lang key)) in
  if truthy hints then
    key <- or_throw (to_string state) ;;
    match own_member hints key with
    | Some v =>
        if truthy v then
          text <- or_throw (to_string v) ;;
          modify (set_inputHint (HintText text))
        else fallback
    | None =>
        if inherited_member hints key then modify (set_inputHint HintOther)
        else fallback
    end
  else fallback.

Definition updateLangUI : M unit :=
  lang <- gets (fun st => currentLang (vars st)) ;;
  flag <- gets (fun st => langFlag (dom st)) ;;
  match flag with
  | Some _ =>
      modify (set_langFlag
                (Some (if is_string lang (lit "my") then flag_my else flag_gb)))
  | None => ret tt
  end ;;
  modify (set_userInput_placeholder
            (if is_string lang (lit "en") then placeholder_en
             else placeholder_my)) ;;
  updateHint.

(** `/api/init?lang=${currentLang}` *)
Definition init_url : M jsstring :=
  lang <- gets (fun st => currentLang (vars st)) ;;
  text <- or_throw (to_string lang) ;;
  ret (lit "/api/init?lang=" ++ text).

Definition get_init (k : continuation) : M unit :=
  url <- init_url ;;
  fetch {| req_method := GET; req_url := url;
           req_headers := []; req_body := None |} k.

(** The assignments shared by [initChat] and the callback of [resetChat]. *)
Definition take_state_lang_hints (data : jsval) : M unit :=
  s <- or_throw (field data (lit "state")) ;;
  modify (set_currentState s) ;;
  l <- or_throw (field data (lit "lang")) ;;
  (if truthy l then modify (set_currentLang l) else ret tt) ;;
  h <- or_throw (field data (lit "hints")) ;;
  (if truthy h then modify (set_currentHints h) else ret tt).

(** ** initChat *)
Definition initChat_catch : M unit :=
  removeTyping ;;
  lang <- gets (fun st => currentLang (vars st)) ;;
  addMessage Bot
    (JStr (if is_string lang (lit "en") then err_connect_en
           else err_connect_my)).

Definition initChat : M unit :=
  showTyping ;;
  try_catch (get_init KInit) initChat_catch.

Definition initChat_settled (o : outcome) : M unit :=
  try_catch
    (data <- response_data o ;;
     removeTyping ;;
     r <- or_throw (field data (lit "response")) ;;
     addMessage Bot r ;;
     take_state_lang_hints data ;;
     updateLangUI)
    initChat_catch.

(** ** sendMessage *)
Definition sendMessage_catch : M unit :=
  removeTyping ;;
  lang <- gets (fun st => currentLang (vars st)) ;;
  addMessage Bot
    (JStr (if is_string lang (lit "en") then err_chat_en else err_chat_my)).

(** The statements after the try block. *)
Definition sendMessage_finally : M unit :=
  modify (set_isProcessing false) ;;
  modify (set_btnSend_disabled false).

Definition sendMessage : M unit :=
  value <- gets (fun st => userInput_value (dom st)) ;;
  busy <- gets (fun st => isProcessing (vars st)) ;;
  let msg := trim value in
  if (match msg with [] => true | _ => false end || busy)%bool then ret tt
  else
    modify (set_isProcessing true) ;;
    modify (set_btnSend_disabled true) ;;
    modify (set_userInput_value []) ;;
    addMessage User (JStr msg) ;;
    showTyping ;;
    lang <- gets (fun st => currentLang (vars st)) ;;
    fetch {| req_method := POST; req_url := lit "/api/chat";
             req_headers := json_headers;
             req_body := Some [(lit "message", JStr msg); (lit "lang", lang)] |}
          KChat.

(** After [fetch] and [res.json()]: on a rejection the catch block and the
    end of the function; otherwise the function awaits the timer of 400 to
    1000 ms, keeping [data]. *)
Definition sendMessage_settled (id : nat) (o : outcome) : M unit :=
  try_catch
    (data <- response_data o ;;
     modify (fun st => set_pending (pending (net st) ++ [(id, KChatDelay data)]) st))
    (sendMessage_catch ;; sendMessage_finally).

(** After the timer. *)
Definition sendMessage_delayed (data : jsval) : M unit :=
  try_catch
    (removeTyping ;;
     r <- or_throw (field data (lit "response")) ;;
     addMessage Bot r ;;
     s <- or_throw (field data (lit "state")) ;;
     modify (set_currentState s) ;;
     l <- or_throw (field data (lit "lang")) ;;
     (if truthy l then modify (set_currentLang l) else ret tt) ;;
     updateHint)
    sendMessage_catch ;;
  sendMessage_finally.

(** ** resetChat *)
Definition resetChat : M unit :=
  modify (set_chatMessages []) ;;
  modify (set_currentState (JStr (lit "greeting"))) ;;
  get_init KReset.

(** fetch(...).then(res => res.json()).then(data => { ... }), with no
    rejection handler. *)
Definition resetChat_settled (o : outcome) : M unit :=
  data <- response_data o ;;
  r <- or_throw (field data (lit "response")) ;;
  addMessage Bot r ;;
  take_state_lang_hints data ;;
  updateLangUI.

(** ** toggleLanguage *)
Definition toggleLanguage : M unit :=
  lang <- gets (fun st => currentLang (vars st)) ;;
  let newLang := if is_string lang (lit "my") then lit "en" else lit "my" in
  fetch {| req_method := POST; req_url := lit "/api/set_lang";
           req_headers := json_headers;
           req_body := Some [(lit "lang", JStr newLang)] |}
        KSetLang.

Definition toggleLanguage_settled (o : outcome) : M unit :=
  try_catch
    (data <- response_data o ;;
     l <- or_throw (field data (lit "lang")) ;;
     modify (set_currentLang l) ;;
     h <- or_throw (field data (lit "hints")) ;;
     modify (set_currentHints (if truthy h then h else JObj [])) ;;
     updateLangUI ;;
     resetChat)
    (ret tt).

(** ** downloadPDF *)
Definition downloadPDF : M unit :=
  fetch {| req_method := POST; req_url := lit "/api/generate-pdf";
           req_headers := []; req_body := None |}
        KPdf.

Definition downloadPDF_settled (o : outcome) : M unit :=
  try_catch
    (match o with
     | NetworkError => throw
     | Response r =>
         if (res_ok r && res_download r)%bool
         then addMessage Bot (JStr pdf_done)
         else throw
     end)
    (addMessage Bot (JStr pdf_failed)).

(** ** createStars, toggleDevModal *)

(** Eighty stars at random places; only their number is kept. *)
Definition createStars : M unit :=
  modify (fun st => set_stars (stars (dom st) + 80) st).

Definition toggleDevModal : M unit :=
  modify (fun st =>
    set_devModal_active (option_map negb (devModal_active (dom st))) st).

(* ================================================================== *)
(** * The event loop *)

Inductive event :=
  | Load                              (* DOMContentLoaded *)
  | Edit (text : jsstring)            (* the user edits #userInput *)
  | Send                              (* Enter without Shift, or the send button *)
  | ToggleLanguage
  | DownloadPDF
  | ResetChat
  | ToggleDevModal
  | Settle (id : nat) (o : outcome)   (* request [id] settles *)
  | Timer (id : nat).                 (* the timer of chat turn [id] fires *)

Fixpoint take_pending (id : nat) (l : list (nat * continuation))
    : option (continuation * list (nat * continuation)) :=
  match l with
  | [] => None
  | (i, k) :: l' =>
      if Nat.eqb i id then Some (k, l')
      else match take_pending id l' with
           | Some (k', rest) => Some (k', (i, k) :: rest)
           | None => None
           end
  end.

Definition handle (st : State) (e : event) : State :=
  match e with
  | Load => exec_task (createStars ;; initChat) st
  | Edit text => set_userInput_value text st
  | Send => exec_task sendMessage st
  | ToggleLanguage => exec_task toggleLanguage st
  | DownloadPDF => exec_task downloadPDF st
  | ResetChat => exec_task resetChat st
  | ToggleDevModal => exec_task toggleDevModal st
  | Settle id o =>
      match take_pending id (pending (net st)) with
      | Some (KInit, rest) =>
          exec_task (initChat_settled o) (set_pending rest st)
      | Some (KChat, rest) =>
          exec_task (sendMessage_settled id o) (set_pending rest st)
      | Some (KSetLang, rest) =>
          exec_task (toggleLanguage_settled o) (set_pending rest st)
      | Some (KReset, rest) =>
          exec_task (resetChat_settled o) (set_pending rest st)
      | Some (KPdf, rest) =>
          exec_task (downloadPDF_settled o) (set_pending rest st)
      | Some (KChatDelay _, _) | None => st
      end
  | Timer id =>
      match take_pending id (pending (net st)) with
      | Some (KChatDelay data, rest) =>
          exec_task (sendMessage_delayed data) (set_pending rest st)
      | _ => st
      end
  end.

Definition run (st : State) (trace : list event) : State :=
  fold_left handle trace st.

(** The page when the script has been evaluated: the variables hold their
    initialisers and nothing has been requested; the document is whatever
    the markup made it. *)
Definition initial_vars : Vars :=
  {| isProcessing := false;
     currentState := JStr (lit "greeting");
     currentLang := JStr (lit "my");
     currentHints := JObj [] |}.

Definition initial (d : Dom) : State :=
  {| vars := initial_vars; dom := d;
     net := {| requests := []; pending := [] |} |}.

(* ================================================================== *)
(** * Notions the properties are stated with *)

(** The path of a URL: what precedes the query and the fragment. *)
Fixpoint url_path (url : jsstring) : jsstring :=
  match url with
  | [] => []
  | c :: url' =>
      if (cu_eqb c 63 || cu_eqb c 35)%N%bool then [] else c :: url_path url'
  end.

Definition endpoint_of (r : request) : http_method * jsstring :=
  (req_method r, url_path (req_url r)).

Definition endpoints : list (http_method * jsstring) :=
  [(GET, lit "/api/init"); (POST, lit "/api/chat");
   (POST, lit "/api/set_lang"); (POST, lit "/api/generate-pdf")].

(** The chat turns that have been started and have not finished. *)
Definition is_chat_turn (e : nat * continuation) : bool :=
  match snd e with
  | KChat | KChatDelay _ => true
  | _ => false
  end.

Definition chat_in_flight (st : State) : list (nat * continuation) :=
  filter is_chat_turn (pending (net st)).

(** A request fails: [fetch] rejects, or the body is not JSON. *)
Definition failed (o : outcome) : Prop :=
  match o with
  | NetworkError => True
  | Response r => res_json r = None
  end.

(** [data] is the parsed body of a response delivered in [trace]. *)
Definition received (trace : list event) (data : jsval) : Prop :=
  exists id r, In (Settle id (Response r)) trace /\ res_json r = Some data.

(** [v] is the field [name] of a response delivered in [trace]. *)
Definition from_server (trace : list event) (name : jsstring) (v : jsval)
    : Prop :=
  exists data, received trace data /\ field data name = Some v.

(** The request the call of [sendMessage] issues for [msg]. *)
Definition chat_request (msg : jsstring) (lang : jsval) : request :=
  {| req_method := POST; req_url := lit "/api/chat";
     req_headers := json_headers;
     req_body := Some [(lit "message", JStr msg); (lit "lang", lang)] |}.

(** The members of the JSON text that [JSON.stringify] makes of the body of
    a request: a member whose value is [undefined] is left out. *)
Definition json_members (r : request) : list (jsstring * jsval) :=
  match req_body r with
  | Some props =>
      filter (fun p => match snd p with JUndefined => false | _ => true end)
        props
  | None => []
  end.

(** The bubble of the node holds an element with the id of the typing
    indicator, for [removeTyping] to find. *)
Definition holds_typing_id (ids : jsstring -> nat) (n : node) : bool :=
  match n with
  | Message _ html => Nat.ltb 0 (ids html)
  | Stripped _ html k => Nat.ltb k (ids html)
  | TypingIndicator => false
  end.

(** The chat has no element with the id of the typing indicator: no typing
    indicator, and no bubble that holds such an element. *)
Definition no_typing_id (ids : jsstring -> nat) (l : list node) : bool :=
  forallb (fun n => match n with
                    | TypingIndicator => false
                    | _ => negb (holds_typing_id ids n)
                    end) l.

(** The chat without its first typing indicator. *)
Fixpoint drop_indicator (l : list node) : list node :=
  match l with
  | [] => []
  | TypingIndicator :: l' => l'
  | n :: l' => n :: drop_indicator l'
  end.

(** The text of the error bubbles, by language. *)
Definition connect_error (lang : jsval) : jsstring :=
  if is_string lang (lit "en") then err_connect_en else err_connect_my.

Definition chat_error (lang : jsval) : jsstring :=
  if is_string lang (lit "en") then err_chat_en else err_chat_my.

(** [st'] differs from [st] at most in the placeholder, the flag and the
    hint. *)
Definition same_but_chrome (st st' : State) : Prop :=
  vars st' = vars st /\ net st' = net st
  /\ chatMessages (dom st') = chatMessages (dom st)
  /\ userInput_value (dom st') = userInput_value (dom st)
  /\ btnSend_disabled (dom st') = btnSend_disabled (dom st)
  /\ devModal_active (dom st') = devModal_active (dom st)
  /\ stars (dom st') = stars (dom st)
  /\ typing_ids (dom st') = typing_ids (dom st).

(** A field of a parsed body that is not [null]: [undefined] when the
    body has no such own property. *)
Definition field_or_undefined (data : jsval) (name : jsstring) : jsval :=
  match field data name with
  | Some v => v
  | None => JUndefined
  end.

(** A field is taken when it is truthy, and the variable kept otherwise. *)
Definition if_truthy (new old : jsval) : jsval :=
  if truthy new then new else old.

(** The variables after the assignments of [initChat] and of the callback
    of [resetChat]. *)
Definition vars_after_init (data : jsval) (v : Vars) : Vars :=
  {| isProcessing := isProcessing v;
     currentState := field_or_undefined data (lit "state");
     currentLang :=
       if_truthy (field_or_undefined data (lit "lang")) (currentLang v);
     currentHints :=
       if_truthy (field_or_undefined data (lit "hints")) (currentHints v) |}.

(** The variables after the assignments of [sendMessage], before the
    function resets [isProcessing]. *)
Definition vars_after_chat (data : jsval) (v : Vars) : Vars :=
  {| isProcessing := isProcessing v;
     currentState := field_or_undefined data (lit "state");
     currentLang :=
       if_truthy (field_or_undefined data (lit "lang")) (currentLang v);
     currentHints := currentHints v |}.

(** The variables after the assignments of [toggleLanguage]. *)
Definition vars_after_set_lang (data : jsval) (v : Vars) : Vars :=
  {| isProcessing := isProcessing v;
     currentState := currentState v;
     currentLang := field_or_undefined data (lit "lang");
     currentHints :=
       if_truthy (field_or_undefined data (lit "hints")) (JObj []) |}.

(** The net after one more [fetch]. *)
Definition net_after_fetch (r : request) (k : continuation) (n : Net) : Net :=
  {| requests := requests n ++ [r];
     pending := pending n ++ [(List.length (requests n), k)] |}.

(** The endpoint an await of each kind is on. *)
Definition kind_endpoint (k : continuation) : http_method * jsstring :=
  match k with
  | KInit | KReset => (GET, lit "/api/init")
  | KChat | KChatDelay _ => (POST, lit "/api/chat")
  | KSetLang => (POST, lit "/api/set_lang")
  | KPdf => (POST, lit "/api/generate-pdf")
  end.

(** The request of [initChat] and [resetChat]. *)
Definition init_request (url : jsstring) : request :=
  {| req_method := GET; req_url := url; req_headers := []; req_body := None |}.

(** The net is as it was, or one request for /api/init has been added. *)
Definition init_fetched (k : continuation) (n n' : Net) : Prop :=
  n' = n
  \/ exists url,
       url_path url = lit "/api/init"
       /\ n' = net_after_fetch (init_request url) k n.

(** The variables when a chat turn has finished. *)
Definition turn_finished (v : Vars) : Vars :=
  {| isProcessing := false; currentState := currentState v;
     currentLang := currentLang v; currentHints := currentHints v |}.

(** The state right after a call of [sendMessage] that goes through. *)
Definition after_send (msg : jsstring) (st : State) : State :=
  {| vars := {| isProcessing := true;
                currentState := currentState (vars st);
                currentLang := currentLang (vars st);
                currentHints := currentHints (vars st) |};
     dom := {| chatMessages :=
                 chatMessages (dom st)
                 ++ [Message User (formatMessage msg); TypingIndicator];
               userInput_value := [];
               userInput_placeholder := userInput_placeholder (dom st);
               btnSend_disabled := true;
               inputHint := inputHint (dom st);
               langFlag := langFlag (dom st);
               devModal_active := devModal_active (dom st);
               stars := stars (dom st);
               typing_ids := typing_ids (dom st) |};
     net := net_after_fetch (chat_request msg (currentLang (vars st))) KChat
              (net st) |}.

(** The requests of [toggleLanguage] and [downloadPDF]. *)
Definition set_lang_request (lang : jsval) : request :=
  {| req_method := POST; req_url := lit "/api/set_lang";
     req_headers := json_headers;
     req_body :=
       Some [(lit "lang",
              JStr (if is_string lang (lit "my") then lit "en"
                    else lit "my"))] |}.

Definition pdf_request : request :=
  {| req_method := POST; req_url := lit "/api/generate-pdf";
     req_headers := []; req_body := None |}.

(** Where the value of [currentState] comes from: the literal of the
    script, or the [state] of a response to a request for /api/init or
    /api/chat. *)
Definition state_source (trace : list event) (n : Net) (s : jsval) : Prop :=
  s = JStr (lit "greeting")
  \/ exists id r data req,
       In (Settle id (Response r)) trace /\ res_json r = Some data
       /\ nth_error (requests n) id = Some req
       /\ (endpoint_of req = (GET, lit "/api/init")
           \/ endpoint_of req = (POST, lit "/api/chat"))
       /\ field data (lit "state") = Some s.

Definition lang_source (trace : list event) (l : jsval) : Prop :=
  l = JStr (lit "my") \/ from_server trace (lit "lang") l.

Definition hints_source (trace : list event) (h : jsval) : Prop :=
  h = JObj [] \/ from_server trace (lit "hints") h.

(** What holds of the variables and the network after any trace. *)
Record Inv (trace : list event) (v : Vars) (n : Net) : Prop := {
  inv_requests : Forall (fun r => In (endpoint_of r) endpoints) (requests n);
  inv_pending :
    forall id k, In (id, k) (pending n) ->
      exists req, nth_error (requests n) id = Some req
                  /\ endpoint_of req = kind_endpoint k;
  inv_delays :
    forall id data, In (id, KChatDelay data) (pending n) ->
      exists r, In (Settle id (Response r)) trace /\ res_json r = Some data;
  inv_turn :
    List.length (filter is_chat_turn (pending n))
    = if isProcessing v then 1 else 0;
  inv_state : state_source trace n (currentState v);
  inv_lang : lang_source trace (currentLang v);
  inv_hints : hints_source trace (currentHints v)
}.

(** The states the page can be in. *)
Definition reachable (st : State) : Prop :=
  exists d trace, st = run (initial d) trace.

(** [p] is at the head of [s]; the places of [s] where [p] is. *)
Fixpoint starts_with (p s : jsstring) : bool :=
  match p, s with
  | [], _ => true
  | c :: p', d :: s' => cu_eqb c d && starts_with p' s'
  | _ :: _, [] => false
  end.

Fixpoint occurrences (p s : jsstring) : nat :=
  match s with
  | [] => 0
  | _ :: s' => (if starts_with p s then 1 else 0) + occurrences p s'
  end.

(** The attribute that gives an element the id of the typing indicator,
    written after a space and with double quotes. *)
Definition typing_id_attribute : jsstring :=
  lit " id=" ++ [c_dquote] ++ lit "typingIndicator" ++ [c_dquote].

(** A message whose link address closes the quotes of the href and goes on
    with that attribute. *)
Definition a_link_with_an_id : jsstring :=
  lit "[x](a" ++ [c_dquote] ++ lit " id=" ++ [c_dquote]
  ++ lit "typingIndicator)".

(** A page for the examples: an empty chat, an empty input field, the flag
    and the modal present.  Its parser finds an element with the id of the
    typing indicator for each time the markup of a bubble has the attribute
    written out: this is what a browser finds in the bubbles of the
    examples, where the attribute is nowhere but in the one anchor that
    [formatMessage] makes of [a_link_with_an_id]. *)
Definition example_page : Dom :=
  {| chatMessages := []; userInput_value := []; userInput_placeholder := [];
     btnSend_disabled := false; inputHint := HintText [];
     langFlag := Some []; devModal_active := Some false; stars := 0;
     typing_ids := occurrences typing_id_attribute |}.

(** A response with status 200 and the JSON body [data]. *)
Definition json_response (data : jsval) : outcome :=
  Response {| res_ok := true; res_json := Some data; res_download := false |}.

(** Traces of the examples: the greeting has arrived, with hints or
    without, and the language toggle has been pressed. *)
Definition greeted_with_hints : list event :=
  [Load;
   Settle 0 (json_response
               (JObj [(lit "response", JStr (lit "Hello"));
                      (lit "state", JStr (lit "greeting"));
                      (lit "hints",
                       JObj [(lit "greeting", JStr (lit "Your name"))])]));
   ToggleLanguage].

Definition asked_for_birthday : list event :=
  [Load;
   Settle 0 (json_response
               (JObj [(lit "response", JStr (lit "Hello"));
                      (lit "state", JStr (lit "ask_dob"))]));
   ToggleLanguage;
   Settle 1 (json_response (JObj [(lit "lang", JStr (lit "en"))]))].

(** The event delivers the parsed body [data]. *)
Definition delivers (e : event) (data : jsval) : Prop :=
  exists id r, e = Settle id (Response r) /\ res_json r = Some data.

(** A chat turn of [st] holds the body [data] and awaits its timer. *)
Definition holds_for_timer (st : State) (data : jsval) : Prop :=
  exists id, In (id, KChatDelay data) (pending (net st)).

(** ** The sentences of the specification, as they are worded *)

(** [sendMessage] forwards the trimmed input and shows it. *)
Definition forwards_input (st : State) : Prop :=
  let msg := trim (userInput_value (dom st)) in
  let st' := handle st Send in
  requests (net st')
  = requests (net st) ++ [chat_request msg (currentLang (vars st))]
  /\ chatMessages (dom st')
     = chatMessages (dom st)
       ++ [Message User (formatMessage msg); TypingIndicator].

(** [currentState] is the [state] of some response of the server. *)
Definition mirrors_server (trace : list event) (st : State) : Prop :=
  from_server trace (lit "state") (currentState (vars st)).

(** A field the response does not have leaves its variable as it was. *)
Definition keeps_absent_fields (data : jsval) (st st' : State) : Prop :=
  (field data (lit "lang") = Some JUndefined ->
   currentLang (vars st') = currentLang (vars st))
  /\ (field data (lit "hints") = Some JUndefined ->
      currentHints (vars st') = currentHints (vars st)).

(** No variable but [currentState], [currentLang] and [currentHints] is
    changed by the event. *)
Definition only_three_mutable (st : State) (e : event) : Prop :=
  isProcessing (vars (handle st e)) = isProcessing (vars st).

(** Nothing but the chat has changed between [st] and [st'], on the page
    and in the variables. *)
Definition same_but_chat (st st' : State) : Prop :=
  vars st' = vars st
  /\ userInput_value (dom st') = userInput_value (dom st)
  /\ userInput_placeholder (dom st') = userInput_placeholder (dom st)
  /\ btnSend_disabled (dom st') = btnSend_disabled (dom st)
  /\ inputHint (dom st') = inputHint (dom st)
  /\ langFlag (dom st') = langFlag (dom st)
  /\ devModal_active (dom st') = devModal_active (dom st)
  /\ stars (dom st') = stars (dom st).

(** A body that can be shown: parsed, not [null], with a string for its
    [response]. *)
Definition shows (o : outcome) (data : jsval) (text : jsstring) : Prop :=
  exists r, o = Response r /\ res_json r = Some data
            /\ field data (lit "response") = Some (JStr text).

(** The language of a pattern: what [exec] can consume. *)
Inductive matches : regex -> jsstring -> Prop :=
  | M_end : matches [] []
  | M_one a c r w :
      accepts a c = true -> matches r w -> matches (One a :: r) (c :: w)
  | M_lazy a r t w :
      Forall (fun c => accepts a c = true) t -> matches r w ->
      matches (LazyGroup a :: r) (t ++ w)
  | M_at_least n a r t w :
      n <= List.length t -> Forall (fun c => accepts a c = true) t ->
      matches r w -> matches (AtLeast n a :: r) (t ++ w).

(** [k] consumes a word of [P] whenever it succeeds. *)
Definition sound (P : jsstring -> Prop) (k : jsstring -> result) : Prop :=
  forall s caps rest, k s = Some (caps, rest) -> exists w, s = w ++ rest /\ P w.

(** ** The words of the specification about formatMessage *)

(** The entity-escaped text: every ampersand, less-than and greater-than
    sign replaced by its entity, every other code unit kept. *)
Definition entity_of (c : code_unit) : jsstring :=
  if cu_eqb c c_amp then lit "&amp;"
  else if cu_eqb c c_lt then lit "&lt;"
  else if cu_eqb c c_gt then lit "&gt;"
  else [c].

Definition entity_escaped (text : jsstring) : jsstring :=
  flat_map entity_of text.

(** The code units that no entity holds and that are not escaped. *)
Definition is_plain (c : code_unit) : bool :=
  negb (existsb (cu_eqb c) [38; 60; 62; 97; 109; 112; 59; 108; 116; 103]%N).

(** [p] occurs in [s] as a contiguous run. *)
Definition occurs (p s : jsstring) : Prop :=
  exists a b, s = a ++ p ++ b.

Definition no_line_terminator (t : jsstring) : Prop :=
  Forall (fun c => is_line_terminator c = false) t.

(** [s] holds a link: a bracketed text directly followed by a parenthesised
    one, each on one line. *)
Definition has_link (s : jsstring) : Prop :=
  exists a t u b,
    s = a ++ [c_lbracket] ++ t ++ [c_rbracket; c_lparen] ++ u
          ++ [c_rparen] ++ b
    /\ no_line_terminator t /\ no_line_terminator u.

(** None of the markup delimiters occurs in [s]. *)
Definition no_markup (s : jsstring) : Prop :=
  ~ occurs [c_star; c_star] s
  /\ ~ In c_underscore s
  /\ ~ has_link s
  /\ ~ In c_backtick s
  /\ ~ occurs [c_box; c_box; c_box] s.

(* ================================================================== *)
(** * Notions for the further properties *)

(** No code unit of [s] is one of [cs]. *)
Definition free_of (cs : list code_unit) (s : jsstring) : bool :=
  forallb (fun c => negb (existsb (cu_eqb c) cs)) s.

(** The code units that open a markup pattern. *)
Definition markup_openers : list code_unit :=
  [c_star; c_underscore; c_lbracket; c_backtick; c_box].

Definition line_terminators : list code_unit := [10; 13; 8232; 8233]%N.

(** [m] relates every state to the state it leaves. *)
Definition keeps (R : State -> State -> Prop) {A} (m : M A) : Prop :=
  forall st, R st (snd (m st)).

(** What the functions that handle a response have no business with: the
    flag of the chat turn, the send button, the input field, the modal and
    the stars. *)
Definition steady (st st' : State) : Prop :=
  isProcessing (vars st') = isProcessing (vars st)
  /\ btnSend_disabled (dom st') = btnSend_disabled (dom st)
  /\ userInput_value (dom st') = userInput_value (dom st)
  /\ devModal_active (dom st') = devModal_active (dom st)
  /\ stars (dom st') = stars (dom st).

(** The typing indicators among the children of the chat. *)
Definition is_typing (n : node) : bool :=
  match n with
  | TypingIndicator => true
  | Message _ _ | Stripped _ _ _ => false
  end.

Definition count_typing (l : list node) : nat :=
  List.length (filter is_typing l).

(** The elements that [removeTyping] has taken out of the bubbles of the
    chat. *)
Fixpoint strips (l : list node) : nat :=
  match l with
  | [] => 0
  | Stripped _ _ k :: l' => k + strips l'
  | _ :: l' => strips l'
  end.

(** No typing indicator has been added, and what has been taken out of a
    bubble stays out: the indicators have not become more than they were
    and the elements taken out of bubbles since. *)
Definition no_new_typing (st st' : State) : Prop :=
  count_typing (chatMessages (dom st')) + strips (chatMessages (dom st))
  <= count_typing (chatMessages (dom st)) + strips (chatMessages (dom st')).

(** [removeTyping] has been called since [st], and no typing indicator has
    been added. *)
Definition typing_removed (st st' : State) : Prop :=
  count_typing (chatMessages (dom st')) + strips (chatMessages (dom st))
  <= pred (count_typing (chatMessages (dom st)))
     + strips (chatMessages (dom st')).

(** The awaits whose function has put up a typing indicator. *)
Definition shows_typing (e : nat * continuation) : bool :=
  match snd e with
  | KInit | KChat | KChatDelay _ => true
  | _ => false
  end.

Definition typing_turns (st : State) : nat :=
  List.length (filter shows_typing (pending (net st))).

(** The flag and the placeholder are as they were. *)
Definition same_lang_ui (st st' : State) : Prop :=
  langFlag (dom st') = langFlag (dom st)
  /\ userInput_placeholder (dom st') = userInput_placeholder (dom st).

(** The language [toggleLanguage] asks for. *)
Definition other_lang (lang : jsval) : jsstring :=
  if is_string lang (lit "my") then lit "en" else lit "my".

(** The toggle is pressed and the server answers with the language it was
    asked for. *)
Definition toggle_and_echo (st : State) : State :=
  handle (handle st ToggleLanguage)
    (Settle (List.length (requests (net st)))
       (json_response
          (JObj [(lit "lang", JStr (other_lang (currentLang (vars st))))]))).

(** The net has not changed, or one request has been issued. *)
Definition one_more (n n' : Net) : Prop :=
  n' = n \/ exists r k, n' = net_after_fetch r k n.

(** The stars and the developer modal are as they were. *)
Definition same_decor (st st' : State) : Prop :=
  stars (dom st') = stars (dom st)
  /\ devModal_active (dom st') = devModal_active (dom st).

Definition is_load (e : event) : bool :=
  match e with Load => true | _ => false end.

Definition is_modal_toggle (e : event) : bool :=
  match e with ToggleDevModal => true | _ => false end.

(** [f] applied [n] times. *)
Fixpoint times {A} (n : nat) (f : A -> A) (x : A) : A :=
  match n with
  | O => x
  | S n' => f (times n' f x)
  end.

(** The hint, the flag and the placeholder are as they were. *)
Definition same_labels (st st' : State) : Prop :=
  inputHint (dom st') = inputHint (dom st)
  /\ langFlag (dom st') = langFlag (dom st)
  /\ userInput_placeholder (dom st') = userInput_placeholder (dom st).

(** The events that come from the user or the document, not from the
    network or a timer. *)
Definition is_action (e : event) : bool :=
  match e with
  | Settle _ _ | Timer _ => false
  | _ => true
  end.

(* ================================================================== *)
(** * The file name of the download

    [downloadPDF] names the file after the Content-Disposition header of
    the response:

      let filename = 'mahabote_report.pdf';
      if (disposition) {
        const match = disposition.match(
          /filename\*?=(?:UTF-8'')?["']?([^"';\n]+)/i);
        if (match) filename = decodeURIComponent(match[1]);
      }

    The pattern is a sequence of single characters, optional parts and one
    captured repetition, all greedy; the matcher backtracks as the
    engine does. *)
Module Disposition.

Definition c_equals : code_unit := 61%N.     (* = *)
Definition c_squote : code_unit := 39%N.     (* ' *)
Definition c_semicolon : code_unit := 59%N.  (* ; *)
Definition c_newline : code_unit := 10%N.    (* \n *)

(** Canonicalize, of the flag [i] without [u], as far as a comparison with
    an ASCII character goes: a lower-case ASCII letter becomes its capital,
    and no code unit from 128 on becomes an ASCII one. *)
Definition canonical (c : code_unit) : code_unit :=
  if (N.leb 97 c && N.leb c 122)%bool then (c - 32)%N else c.

Inductive atom :=
  | Ch (c : code_unit)             (* an ASCII character of the pattern *)
  | OneOf (cs : list code_unit)    (* [...] of ASCII characters *)
  | NoneOf (cs : list code_unit).  (* [^...] of ASCII characters *)

Definition accepts (a : atom) (c : code_unit) : bool :=
  match a with
  | Ch p => cu_eqb (canonical p) (canonical c)
  | OneOf cs => existsb (fun p => cu_eqb (canonical p) (canonical c)) cs
  | NoneOf cs =>
      negb (existsb (fun p => cu_eqb (canonical p) (canonical c)) cs)
  end.

Inductive item :=
  | One (a : atom)               (* x *)
  | Opt (l : list atom)          (* x? and (?:xyz)?, greedy *)
  | CapturePlus (a : atom).      (* (x+), greedy *)

Definition regex := list item.

(** The rest of [s] after the atoms [l], one code unit for each. *)
Fixpoint atoms_prefix (l : list atom) (s : jsstring) : option jsstring :=
  match l, s with
  | [], _ => Some s
  | a :: l', c :: s' => if accepts a c then atoms_prefix l' s' else None
  | _ :: _, [] => None
  end.

(** [x+] from [s] on, [acc] being what the repetition holds so far: as many
    code units as can be, then one fewer for as long as the rest of the
    pattern, [k], does not match. *)
Fixpoint greedy_plus {R} (a : atom) (k : jsstring -> jsstring -> option R)
    (s acc : jsstring) : option R :=
  match s with
  | c :: s' =>
      if accepts a c then
        match greedy_plus a k s' (acc ++ [c]) with
        | Some m => Some m
        | None => k s' (acc ++ [c])
        end
      else None
  | [] => None
  end.

(** A match of [r] at the head of [s]: the capture of group 1, [None]
    while the group has not taken part. *)
Fixpoint exec (r : regex) (s : jsstring) (cap : option jsstring) {struct r}
    : option (option jsstring) :=
  match r with
  | [] => Some cap
  | One a :: r' =>
      match s with
      | c :: s' => if accepts a c then exec r' s' cap else None
      | [] => None
      end
  | Opt l :: r' =>
      match atoms_prefix l s with
      | Some s' =>
          match exec r' s' cap with
          | Some m => Some m
          | None => exec r' s cap
          end
      | None => exec r' s cap
      end
  | CapturePlus a :: r' =>
      greedy_plus a (fun s' text => exec r' s' (Some text)) s []
  end.

(** [String.prototype.match] with a pattern that is not global: the match
    that starts first. *)
Fixpoint search (r : regex) (s : jsstring) : option (option jsstring) :=
  match exec r s None with
  | Some m => Some m
  | None =>
      match s with
      | [] => None
      | _ :: s' => search r s'
      end
  end.

Definition quotes : list code_unit := [c_dquote; c_squote].

Definition name_stoppers : list code_unit :=
  [c_dquote; c_squote; c_semicolon; c_newline].

(** /filename\*?=(?:UTF-8'')?["']?([^"';\n]+)/i *)
Definition re_filename : regex :=
  map (fun c => One (Ch c)) (lit "filename")
  ++ [Opt [Ch c_star]; One (Ch c_equals);
      Opt (map Ch (lit "UTF-8" ++ [c_squote; c_squote]));
      Opt [OneOf quotes];
      CapturePlus (NoneOf name_stoppers)].

(** The parts of the pattern before the equals sign and before the
    capture. *)
Definition re_filename_keyword : regex :=
  map (fun c => One (Ch c)) (lit "filename") ++ [Opt [Ch c_star]].

Definition re_filename_prefixes : regex :=
  [Opt (map Ch (lit "UTF-8" ++ [c_squote; c_squote])); Opt [OneOf quotes]].

Definition default_filename : jsstring := lit "mahabote_report.pdf".

Section Filename.

(** The built-in [decodeURIComponent]; [None] is its URIError. *)
Variable decodeURIComponent : jsstring -> option jsstring.

(** The name given to the download; [disposition] is what
    [res.headers.get] returns, [None] for [null].  The result is [None]
    when [decodeURIComponent] throws, and the catch block of [downloadPDF]
    runs. *)
Definition filename (disposition : option jsstring) : option jsstring :=
  match disposition with
  | None | Some [] => Some default_filename
  | Some d =>
      match search re_filename d with
      | Some (Some name) => decodeURIComponent name
      | Some None => decodeURIComponent (lit "undefined")
      | None => Some default_filename
      end
  end.

End Filename.

End Disposition.

(* ================================================================== *)
(** * Facts about the embedding *)

(** ** formatMessage *)
Section FormatMessageFacts.

(** The two repetitions consume a run of accepted code units and then what
    their continuation consumes. *)
Section Repetitions.

Variable a : atom.
Variable k : jsstring -> result.
Variable P : jsstring -> Prop.
Hypothesis k_sound : sound P k.

Lemma lazy_star_sound s :
  forall acc caps rest,
    lazy_star a k acc s = Some (caps, rest) ->
    exists t w, s = t ++ w ++ rest
                /\ Forall (fun c => accepts a c = true) t /\ P w.
Proof.
  induction s as [|c s IH]; intros acc caps rest; simpl.
  - destruct (k []) as [[cs r0]|] eqn:E; [|discriminate].
    intros H; inversion H; subst.
    destruct (k_sound _ _ _ E) as (w & Hw & HP).
    exists [], w; auto.
  - destruct (k (c :: s)) as [[cs r0]|] eqn:E.
    + intros H; inversion H; subst.
      destruct (k_sound _ _ _ E) as (w & Hw & HP).
      exists [], w; auto.
    + destruct (accepts a c) eqn:Ha; [|discriminate].
      intros H. destruct (IH _ _ _ H) as (t & w & Hs & Ht & HP).
      exists (c :: t), w; simpl; rewrite Hs; auto.
Qed.

Lemma at_least_stop n s seen caps rest :
  (if n <=? seen then k s else None) = Some (caps, rest) ->
  exists t w, s = t ++ w ++ rest
              /\ n <= seen + List.length t
              /\ Forall (fun c => accepts a c = true) t /\ P w.
Proof.
  intros H. destruct (n <=? seen) eqn:L; [|discriminate].
  apply Nat.leb_le in L.
  destruct (k_sound _ _ _ H) as (w & Hw & HP).
  exists [], w; simpl; repeat split; auto; lia.
Qed.

Lemma at_least_sound n s :
  forall seen caps rest,
    at_least n a k seen s = Some (caps, rest) ->
    exists t w, s = t ++ w ++ rest
                /\ n <= seen + List.length t
                /\ Forall (fun c => accepts a c = true) t /\ P w.
Proof.
  induction s as [|c s IH]; intros seen caps rest; simpl.
  - apply at_least_stop.
  - destruct (accepts a c) eqn:Ha; [|apply at_least_stop].
    destruct (at_least n a k (S seen) s) as [m|] eqn:E;
      [|apply at_least_stop].
    intros H; inversion H; subst.
    destruct (IH _ _ _ E) as (t & w & Hs & Hn & Ht & HP).
    exists (c :: t), w; simpl; rewrite Hs; repeat split; auto; lia.
Qed.

End Repetitions.

Lemma exec_sound r : sound (matches r) (exec r).
Proof.
  induction r as [|i r IH]; intros s caps rest; simpl.
  - intros H; inversion H; subst. exists []; split; [reflexivity|constructor].
  - destruct i as [a|a|n a].
    + destruct s as [|c s]; [discriminate|].
      destruct (accepts a c) eqn:Ha; [|discriminate].
      intros H. destruct (IH _ _ _ H) as (w & Hw & Hm).
      exists (c :: w); split; [simpl; congruence|constructor; auto].
    + intros H.
      destruct (lazy_star_sound a _ _ IH _ _ _ _ H) as (t & w & Hs & Ht & Hm).
      exists (t ++ w); split; [rewrite <- app_assoc; auto|constructor; auto].
    + intros H.
      destruct (at_least_sound a _ _ IH n _ _ _ _ H) as (t & w & Hs & Hn & Ht & Hm).
      exists (t ++ w); split; [rewrite <- app_assoc; auto|constructor; auto].
Qed.

(** Where the pattern matches at no position, [replace] changes nothing. *)
Lemma replace_from_no_match r tpl s :
  (forall a b, s = a ++ b -> exec r b = None) ->
  replace_from r tpl 0 s = s.
Proof.
  induction s as [|c s IH]; intros H; simpl.
  - rewrite (H [] [] eq_refl). reflexivity.
  - rewrite (H [] (c :: s) eq_refl). f_equal.
    apply IH. intros a b E. apply (H (c :: a) b). simpl; congruence.
Qed.

(** A one-character pattern with a literal replacement maps each code unit
    on its own. *)
Lemma replace_one_char c t s :
  replace [One (Chr c)] [Lit t] s
  = flat_map (fun d => if cu_eqb d c then t else [d]) s.
Proof.
  unfold replace. induction s as [|d s IH]; [reflexivity|].
  cbn [replace_from exec accepts flat_map].
  destruct (cu_eqb d c).
  - replace (List.length (d :: s) - List.length s) with 1 by (cbn [List.length]; lia).
    cbn [expand flat_map]. rewrite app_nil_r, IH. reflexivity.
  - rewrite IH. reflexivity.
Qed.

(** The three escaping replacements, run one after the other, are the
    entity escaping of the text. *)
Lemma flat_map_compose {A B C} (f : A -> list B) (g : B -> list C) l :
  flat_map g (flat_map f l) = flat_map (fun x => flat_map g (f x)) l.
Proof.
  induction l as [|x l IH]; simpl; [reflexivity|].
  rewrite flat_map_app, IH. reflexivity.
Qed.

Lemma escape_html_spec text : escape_html text = entity_escaped text.
Proof.
  unfold escape_html, entity_escaped.
  rewrite !replace_one_char, !flat_map_compose.
  apply flat_map_ext. intros c. unfold entity_of.
  destruct (cu_eqb c c_amp) eqn:E1; [reflexivity|]. simpl.
  destruct (cu_eqb c c_lt) eqn:E2; [reflexivity|]. simpl.
  destruct (cu_eqb c c_gt) eqn:E3; reflexivity.
Qed.

Lemma entity_escaped_app a b :
  entity_escaped (a ++ b) = entity_escaped a ++ entity_escaped b.
Proof. apply flat_map_app. Qed.

Lemma entity_of_not_nil d : entity_of d <> [].
Proof.
  unfold entity_of.
  destruct (cu_eqb d c_amp); [discriminate|].
  destruct (cu_eqb d c_lt); [discriminate|].
  destruct (cu_eqb d c_gt); discriminate.
Qed.

Lemma entity_escaped_nil s : entity_escaped s = [] -> s = [].
Proof.
  destruct s as [|d s]; [reflexivity|]. simpl. intros H.
  apply app_eq_nil in H. destruct H as [H _].
  now apply entity_of_not_nil in H.
Qed.

(** No less-than sign is left in an escaped text. *)
Lemma entity_escaped_no_lt text : ~ In c_lt (entity_escaped text).
Proof.
  unfold entity_escaped. rewrite in_flat_map. intros (d & _ & H).
  unfold entity_of in H.
  destruct (cu_eqb d c_amp) eqn:E1;
    [simpl in H; intuition discriminate|].
  destruct (cu_eqb d c_lt) eqn:E2;
    [simpl in H; intuition discriminate|].
  destruct (cu_eqb d c_gt) eqn:E3;
    [simpl in H; intuition discriminate|].
  simpl in H. destruct H as [H|[]]. subst d.
  unfold cu_eqb in E2. rewrite N.eqb_refl in E2. discriminate.
Qed.

Lemma entity_of_plain c d :
  is_plain c = true -> In c (entity_of d) -> d = c /\ entity_of d = [c].
Proof.
  unfold is_plain, entity_of. intros Hp H.
  apply negb_true_iff in Hp.
  assert (Hn : forall x, In x [38; 60; 62; 97; 109; 112; 59; 108; 116; 103]%N
                         -> c <> x).
  { intros x Hx E. subst x.
    assert (Hex : existsb (cu_eqb c)
                    [38; 60; 62; 97; 109; 112; 59; 108; 116; 103]%N = true).
    { apply existsb_exists. exists c. split; [assumption|apply N.eqb_refl]. }
    congruence. }
  destruct (cu_eqb d c_amp);
    [exfalso; simpl in H;
     repeat (destruct H as [H|H];
             [symmetry in H; revert H; apply Hn; simpl; tauto|]);
     destruct H|].
  destruct (cu_eqb d c_lt);
    [exfalso; simpl in H;
     repeat (destruct H as [H|H];
             [symmetry in H; revert H; apply Hn; simpl; tauto|]);
     destruct H|].
  destruct (cu_eqb d c_gt);
    [exfalso; simpl in H;
     repeat (destruct H as [H|H];
             [symmetry in H; revert H; apply Hn; simpl; tauto|]);
     destruct H|].
  simpl in H. destruct H as [H|[]]. subst; auto.
Qed.

(** A plain code unit of the escaped text comes from the same code unit of
    the text, and splits the text as it splits the escaped text. *)
Lemma entity_escaped_split c :
  is_plain c = true ->
  forall s a b,
    entity_escaped s = a ++ c :: b ->
    exists a0 b0, s = a0 ++ c :: b0
                  /\ a = entity_escaped a0 /\ b = entity_escaped b0.
Proof.
  intros Hp s; induction s as [|d s IH]; intros a b H.
  - destruct a; discriminate.
  - simpl in H. apply app_eq_app in H. destruct H as (l & [[H1 H2]|[H1 H2]]).
    + destruct l as [|x l].
      * simpl in H2. rewrite app_nil_r in H1.
        destruct (IH [] b (eq_sym H2)) as (a0 & b0 & Hs & Ha & Hb).
        symmetry in Ha. apply entity_escaped_nil in Ha. subst a0.
        exists [d], b0. simpl in *. rewrite app_nil_r. subst; auto.
      * simpl in H2. inversion H2; subst x.
        assert (Hin : In c (entity_of d)).
        { rewrite H1. apply in_or_app. right. left. reflexivity. }
        destruct (entity_of_plain c d Hp Hin) as [-> E].
        rewrite E in H1.
        destruct a as [|y a].
        -- simpl in H1. inversion H1; subst l.
           exists [], s. simpl in *. auto.
        -- inversion H1. destruct a; discriminate.
    + destruct (IH l b H2) as (a0 & b0 & Hs & Ha & Hb).
      exists (d :: a0), b0. simpl. subst. auto.
Qed.

Lemma entity_escaped_head c s b :
  is_plain c = true ->
  entity_escaped s = c :: b ->
  exists b0, s = c :: b0 /\ b = entity_escaped b0.
Proof.
  intros Hp H.
  destruct (entity_escaped_split c Hp s [] b H) as (a0 & b0 & Hs & Ha & Hb).
  symmetry in Ha. apply entity_escaped_nil in Ha. subst a0.
  exists b0; auto.
Qed.

Lemma entity_escaped_in c s :
  is_plain c = true -> In c (entity_escaped s) -> In c s.
Proof.
  intros Hp H. apply in_split in H. destruct H as (a & b & H).
  destruct (entity_escaped_split c Hp s a b H) as (a0 & b0 & -> & _).
  apply in_or_app. right. left. reflexivity.
Qed.

Lemma no_line_terminator_escaped t :
  no_line_terminator (entity_escaped t) -> no_line_terminator t.
Proof.
  unfold no_line_terminator.
  induction t as [|d t IH]; intros H; [constructor|].
  simpl in H. apply Forall_app in H. destruct H as [H1 H2].
  constructor; [|auto].
  unfold entity_of in H1.
  destruct (cu_eqb d c_amp) eqn:E1;
    [apply N.eqb_eq in E1; subst; reflexivity|].
  destruct (cu_eqb d c_lt) eqn:E2;
    [apply N.eqb_eq in E2; subst; reflexivity|].
  destruct (cu_eqb d c_gt) eqn:E3;
    [apply N.eqb_eq in E3; subst; reflexivity|].
  now inversion H1.
Qed.

Lemma exec_one_head a r s caps rest :
  exec (One a :: r) s = Some (caps, rest) ->
  exists c s', s = c :: s' /\ accepts a c = true
               /\ exec r s' = Some (caps, rest).
Proof.
  simpl. destruct s as [|c s']; [discriminate|].
  destruct (accepts a c) eqn:Ha; [|discriminate].
  intros H. exists c, s'. auto.
Qed.

Lemma accepts_chr c d : accepts (Chr d) c = true -> c = d.
Proof. simpl. apply N.eqb_eq. Qed.

Lemma accepts_any_forall t :
  Forall (fun c => accepts AnyChar c = true) t -> no_line_terminator t.
Proof.
  apply Forall_impl. intros c. simpl. apply negb_true_iff.
Qed.

(** Each markup replacement leaves an escaped text alone when the text
    holds none of its delimiters. *)
Ltac no_match_at a b E X :=
  apply replace_from_no_match; intros a b E;
  match goal with
  | |- exec ?r b = None =>
      destruct (exec r b) as [[? ?]|] eqn:X; [exfalso|reflexivity]
  end.

Lemma bold_untouched tpl s :
  ~ occurs [c_star; c_star] s ->
  replace re_bold tpl (entity_escaped s) = entity_escaped s.
Proof.
  intros Hno. no_match_at a b E X. apply Hno.
  apply exec_one_head in X. destruct X as (c & s1 & -> & Hc & X).
  apply exec_one_head in X. destruct X as (d & s2 & -> & Hd & X).
  apply accepts_chr in Hc, Hd. subst c d.
  destruct (entity_escaped_split c_star eq_refl _ _ _ E)
    as (a0 & b0 & -> & _ & Hb).
  destruct (entity_escaped_head c_star b0 _ eq_refl (eq_sym Hb))
    as (b1 & -> & _).
  exists a0, b1. reflexivity.
Qed.

Lemma italic_untouched tpl s :
  ~ In c_underscore s ->
  replace re_italic tpl (entity_escaped s) = entity_escaped s.
Proof.
  intros Hno. no_match_at a b E X. apply Hno.
  apply exec_one_head in X. destruct X as (c & s1 & -> & Hc & X).
  apply accepts_chr in Hc. subst c.
  apply (entity_escaped_in c_underscore); [reflexivity|].
  rewrite E. apply in_or_app. right. left. reflexivity.
Qed.

Lemma code_untouched tpl s :
  ~ In c_backtick s ->
  replace re_code tpl (entity_escaped s) = entity_escaped s.
Proof.
  intros Hno. no_match_at a b E X. apply Hno.
  apply exec_one_head in X. destruct X as (c & s1 & -> & Hc & X).
  apply accepts_chr in Hc. subst c.
  apply (entity_escaped_in c_backtick); [reflexivity|].
  rewrite E. apply in_or_app. right. left. reflexivity.
Qed.

Lemma separator_untouched tpl s :
  ~ occurs [c_box; c_box; c_box] s ->
  replace re_separator tpl (entity_escaped s) = entity_escaped s.
Proof.
  intros Hno. no_match_at a b E X. apply Hno.
  apply exec_sound in X. destruct X as (w & -> & Hm).
  inversion Hm as [| | |n a' r' t w' Hn Ht Hw]; subst.
  inversion Hw; subst.
  destruct t as [|x [|y [|z t]]]; simpl in Hn; try lia.
  inversion Ht as [|? ? Hx Ht1]; subst.
  inversion Ht1 as [|? ? Hy Ht2]; subst.
  inversion Ht2 as [|? ? Hz _]; subst.
  apply accepts_chr in Hx, Hy, Hz. subst x y z.
  simpl in E.
  destruct (entity_escaped_split c_box eq_refl _ _ _ E)
    as (a0 & b0 & -> & _ & Hb).
  destruct (entity_escaped_head c_box b0 _ eq_refl (eq_sym Hb))
    as (b1 & -> & Hb1).
  destruct (entity_escaped_head c_box b1 _ eq_refl (eq_sym Hb1))
    as (b2 & -> & _).
  exists a0, b2. reflexivity.
Qed.

Lemma link_untouched tpl s :
  ~ has_link s ->
  replace re_link tpl (entity_escaped s) = entity_escaped s.
Proof.
  intros Hno. no_match_at a b E X. apply Hno.
  apply exec_sound in X. destruct X as (w & -> & Hm).
  inversion Hm as [|a1 c1 r1 w1 Hc1 Hm1| |]; subst.
  inversion Hm1 as [| |a2 r2 t w2 Ht Hm2|]; subst.
  inversion Hm2 as [|a3 c3 r3 w3 Hc3 Hm3| |]; subst.
  inversion Hm3 as [|a4 c4 r4 w4 Hc4 Hm4| |]; subst.
  inversion Hm4 as [| |a5 r5 u w5 Hu Hm5|]; subst.
  inversion Hm5 as [|a6 c6 r6 w6 Hc6 Hm6| |]; subst.
  inversion Hm6; subst.
  apply accepts_chr in Hc1, Hc3, Hc4, Hc6. subst c1 c3 c4 c6.
  apply accepts_any_forall in Ht, Hu.
  simpl in E. rewrite <- !app_assoc in E. simpl in E.
  destruct (entity_escaped_split c_lbracket eq_refl _ _ _ E)
    as (a0 & s1 & -> & _ & E1).
  symmetry in E1.
  destruct (entity_escaped_split c_rbracket eq_refl _ _ _ E1)
    as (t0 & s2 & -> & -> & E2).
  destruct (entity_escaped_head c_lparen s2 _ eq_refl (eq_sym E2))
    as (s3 & -> & E3).
  symmetry in E3. rewrite <- app_assoc in E3. simpl in E3.
  destruct (entity_escaped_split c_rparen eq_refl _ _ _ E3)
    as (u0 & s4 & -> & -> & _).
  exists a0, t0, u0, s4. simpl.
  repeat split; auto using no_line_terminator_escaped.
Qed.

Lemma apply_markup_untouched s :
  no_markup s -> apply_markup (entity_escaped s) = entity_escaped s.
Proof.
  intros (Hb & Hi & Hl & Hc & Hs). unfold apply_markup.
  rewrite bold_untouched, italic_untouched, link_untouched, code_untouched,
    separator_untouched; auto.
Qed.

End FormatMessageFacts.

(** ** Running the functions *)

Arguments formatMessage : simpl never.
Arguments trim : simpl never.
Arguments to_string : simpl never.
Arguments lit : simpl never.
Arguments own_member : simpl never.
Arguments default_hint : simpl never.
Arguments inherited : simpl never.
Arguments inherited_member : simpl never.

Ltac unfold_monad :=
  unfold exec_task, or_throw, bind, ret, throw, try_catch, gets, modify in *.

(** Case analysis on an innermost scrutinee of the goal. *)
Ltac break_match :=
  match goal with
  | |- context [match ?x with _ => _ end] =>
      lazymatch x with
      | context [match _ with _ => _ end] => fail
      | _ => destruct x eqn:?
      end
  end.

Ltac run_cases := repeat (cbn; try break_match).

Lemma same_but_chrome_refl st : same_but_chrome st st.
Proof. repeat split. Qed.

Lemma same_but_chrome_trans a b c :
  same_but_chrome a b -> same_but_chrome b c -> same_but_chrome a c.
Proof.
  unfold same_but_chrome. intuition congruence.
Qed.

Lemma updateHint_chrome st :
  same_but_chrome st (snd (updateHint st)).
Proof.
  unfold updateHint. unfold_monad.
  run_cases; repeat split.
Qed.

Arguments updateHint : simpl never.

Lemma updateLangUI_chrome st :
  same_but_chrome st (snd (updateLangUI st)).
Proof.
  unfold updateLangUI. unfold_monad.
  destruct (langFlag (dom st)); cbn;
    match goal with
    | |- same_but_chrome _ (snd (updateHint ?s)) =>
        apply same_but_chrome_trans with (b := s);
        [repeat split|apply updateHint_chrome]
    end.
Qed.

Arguments updateLangUI : simpl never.

Ltac chrome_step :=
  match goal with
  | |- context [updateLangUI ?s] =>
      let H := fresh "Hui" in
      pose proof (updateLangUI_chrome s) as H;
      destruct (updateLangUI s) as [[[]|] ?];
      unfold same_but_chrome in H; cbn in H
  | |- context [updateHint ?s] =>
      let H := fresh "Hui" in
      pose proof (updateHint_chrome s) as H;
      destruct (updateHint s) as [[[]|] ?];
      unfold same_but_chrome in H; cbn in H
  end.

(** The error texts hold no markup: the bubble shows them as they are. *)
Lemma format_connect_error lang :
  formatMessage (connect_error lang) = connect_error lang.
Proof. unfold connect_error. destruct (is_string lang _); reflexivity. Qed.

Lemma format_chat_error lang :
  formatMessage (chat_error lang) = chat_error lang.
Proof. unfold chat_error. destruct (is_string lang _); reflexivity. Qed.

Lemma initChat_catch_effect st :
  initChat_catch st
  = (Normal tt,
     set_chatMessages
       (remove_typing (typing_ids (dom st)) (chatMessages (dom st))
        ++ [Message Bot (connect_error (currentLang (vars st)))]) st).
Proof.
  unfold initChat_catch, removeTyping, addMessage, append_node,
    format_content.
  unfold_monad. cbn. fold (connect_error (currentLang (vars st))).
  rewrite format_connect_error. reflexivity.
Qed.

Lemma sendMessage_catch_effect st :
  sendMessage_catch st
  = (Normal tt,
     set_chatMessages
       (remove_typing (typing_ids (dom st)) (chatMessages (dom st))
        ++ [Message Bot (chat_error (currentLang (vars st)))]) st).
Proof.
  unfold sendMessage_catch, removeTyping, addMessage, append_node,
    format_content.
  unfold_monad. cbn. fold (chat_error (currentLang (vars st))).
  rewrite format_chat_error. reflexivity.
Qed.

Lemma response_data_failed o st :
  failed o -> response_data o st = (Throw, st).
Proof.
  destruct o as [|r]; cbn; [reflexivity|].
  intros ->. reflexivity.
Qed.

Lemma response_data_json r data st :
  res_json r = Some data -> response_data (Response r) st = (Normal data, st).
Proof. cbn. intros ->. reflexivity. Qed.

Lemma field_some data name v :
  field data name = Some v -> field_or_undefined data name = v.
Proof. unfold field_or_undefined. intros ->. reflexivity. Qed.

Lemma field_total data name name' v :
  field data name = Some v -> exists v', field data name' = Some v'.
Proof.
  destruct data; cbn; try discriminate; eauto.
  destruct (assoc name' props); eauto.
Qed.

(** ** What each function does to the variables and to the network *)

Lemma take_state_lang_hints_effect data st r :
  field data (lit "response") = Some r ->
  take_state_lang_hints data st
  = (Normal tt, with_vars (vars_after_init data) st).
Proof.
  intros Hr.
  destruct (field_total data _ (lit "state") _ Hr) as (s & Hs).
  destruct (field_total data _ (lit "lang") _ Hr) as (l & Hl).
  destruct (field_total data _ (lit "hints") _ Hr) as (h & Hh).
  unfold take_state_lang_hints, vars_after_init, if_truthy.
  rewrite (field_some _ _ _ Hs), (field_some _ _ _ Hl), (field_some _ _ _ Hh).
  unfold_monad. rewrite Hs. cbn. rewrite Hl. cbn.
  destruct (truthy l); cbn; rewrite Hh; cbn;
    destruct (truthy h); reflexivity.
Qed.

Arguments take_state_lang_hints : simpl never.
Arguments initChat_catch : simpl never.
Arguments sendMessage_catch : simpl never.

(** [updateHint] reads the variables and nothing else, and it writes the
    hint or throws before it has written. *)
Lemma updateHint_cases st :
  (exists h, updateHint st = (Normal tt, set_inputHint h st))
  \/ updateHint st = (Throw, st).
Proof.
  unfold updateHint. unfold_monad.
  run_cases; first [right; reflexivity|left; eexists; reflexivity].
Qed.

Lemma updateHint_by_vars a b :
  vars a = vars b -> fst (updateHint a) = fst (updateHint b).
Proof.
  intros H. unfold updateHint. unfold_monad. cbn. rewrite H.
  run_cases; reflexivity.
Qed.

Ltac not_shown :=
  split; [reflexivity|]; left; split; [reflexivity|];
  intros ? ? (? & H & H' & H''); inversion H; subst; congruence.

Lemma initChat_settled_effect o st :
  let st' := snd (initChat_settled o st) in
  let chat := chatMessages (dom st) in
  let ids := typing_ids (dom st) in
  net st' = net st
  /\ ((vars st' = vars st /\ forall data text, ~ shows o data text)
      \/ exists data text,
           shows o data text
           /\ vars st' = vars_after_init data (vars st)
           /\ (chatMessages (dom st')
               = remove_typing ids chat ++ [Message Bot (formatMessage text)]
               \/ chatMessages (dom st')
                  = remove_typing ids
                      (remove_typing ids chat
                       ++ [Message Bot (formatMessage text)])
                    ++ [Message Bot
                          (connect_error (currentLang (vars st')))])).
Proof.
  unfold initChat_settled, removeTyping, addMessage, append_node,
    format_content.
  unfold_monad.
  destruct o as [|r]; cbn.
  { rewrite initChat_catch_effect. cbn. not_shown. }
  destruct (res_json r) as [data|] eqn:Hj; cbn.
  2:{ rewrite initChat_catch_effect. cbn. not_shown. }
  destruct (field data (lit "response")) as [r0|] eqn:Hr; cbn.
  2:{ rewrite initChat_catch_effect. cbn. not_shown. }
  destruct r0; cbn;
    try (rewrite initChat_catch_effect; cbn; not_shown).
  rewrite (take_state_lang_hints_effect _ _ _ Hr). cbn.
  chrome_step; destruct Hui as (Hv & Hn & Hc & _ & _ & _ & _ & Hids).
  - cbn. split; [assumption|]. right. exists data, s.
    split; [exists r; auto|]. split; [assumption|].
    left. assumption.
  - rewrite initChat_catch_effect. cbn. split; [assumption|]. right.
    exists data, s. split; [exists r; auto|]. split; [assumption|].
    right. rewrite Hc, Hids. reflexivity.
Qed.

Lemma get_init_effect k st :
  (get_init k st = (Throw, st)
   /\ to_string (currentLang (vars st)) = None)
  \/ exists text,
       to_string (currentLang (vars st)) = Some text
       /\ get_init k st
          = (Normal tt,
             with_net (net_after_fetch
                         (init_request (lit "/api/init?lang=" ++ text)) k) st).
Proof.
  unfold get_init, init_url, fetch. unfold_monad. cbn.
  destruct (to_string (currentLang (vars st))) as [text|]; cbn.
  - right. exists text. split; reflexivity.
  - left. split; reflexivity.
Qed.

Lemma init_url_path text :
  url_path (lit "/api/init?lang=" ++ text) = lit "/api/init".
Proof. reflexivity. Qed.

Arguments get_init : simpl never.

Lemma initChat_effect st :
  let st' := snd (initChat st) in
  vars st' = vars st /\ init_fetched KInit (net st) (net st').
Proof.
  unfold initChat, showTyping, append_node. unfold_monad. cbn.
  match goal with |- context [get_init KInit ?s] =>
    destruct (get_init_effect KInit s) as [[E _]|(text & _ & E)]; rewrite E
  end.
  - rewrite initChat_catch_effect. cbn. split; [reflexivity|]. left.
    reflexivity.
  - cbn. split; [reflexivity|]. right. eexists.
    split; [apply init_url_path|reflexivity].
Qed.

Lemma resetChat_effect st :
  let st' := snd (resetChat st) in
  isProcessing (vars st') = isProcessing (vars st)
  /\ currentState (vars st') = JStr (lit "greeting")
  /\ currentLang (vars st') = currentLang (vars st)
  /\ currentHints (vars st') = currentHints (vars st)
  /\ chatMessages (dom st') = []
  /\ init_fetched KReset (net st) (net st').
Proof.
  unfold resetChat. unfold_monad. cbn.
  match goal with |- context [get_init KReset ?s] =>
    destruct (get_init_effect KReset s) as [[E _]|(text & _ & E)]; rewrite E
  end; cbn; repeat split.
  - left. reflexivity.
  - right. eexists. split; [apply init_url_path|reflexivity].
Qed.

Arguments resetChat : simpl never.

Lemma resetChat_settled_effect o st :
  let st' := snd (resetChat_settled o st) in
  net st' = net st
  /\ ((st' = st /\ forall data text, ~ shows o data text)
      \/ exists data text,
           shows o data text
           /\ vars st' = vars_after_init data (vars st)
           /\ chatMessages (dom st')
              = chatMessages (dom st) ++ [Message Bot (formatMessage text)]).
Proof.
  unfold resetChat_settled, addMessage, append_node, format_content.
  unfold_monad.
  destruct o as [|r]; cbn; [not_shown|].
  destruct (res_json r) as [data|] eqn:Hj; cbn; [|not_shown].
  destruct (field data (lit "response")) as [r0|] eqn:Hr; cbn; [|not_shown].
  destruct r0; cbn; try not_shown.
  rewrite (take_state_lang_hints_effect _ _ _ Hr). cbn.
  chrome_step; destruct Hui as (Hv & Hn & Hc & _);
    (split; [assumption|]; right; exists data, s;
     split; [exists r; auto|]; split; assumption).
Qed.

Lemma sendMessage_finally_effect st :
  sendMessage_finally st
  = (Normal tt, set_btnSend_disabled false (set_isProcessing false st)).
Proof. reflexivity. Qed.

Arguments sendMessage_finally : simpl never.

Lemma sendMessage_settled_effect id o st :
  let st' := snd (sendMessage_settled id o st) in
  match o with
  | Response {| res_json := Some data |} =>
      st' = set_pending (pending (net st) ++ [(id, KChatDelay data)]) st
  | _ =>
      st' = set_btnSend_disabled false
              (set_isProcessing false
                 (set_chatMessages
                    (remove_typing (typing_ids (dom st))
                       (chatMessages (dom st))
                     ++ [Message Bot (chat_error (currentLang (vars st)))])
                    st))
  end.
Proof.
  unfold sendMessage_settled. unfold_monad.
  destruct o as [|[ok [data|] dl]]; cbn;
    try rewrite sendMessage_catch_effect; reflexivity.
Qed.

Lemma sendMessage_delayed_effect data st :
  let st' := snd (sendMessage_delayed data st) in
  let chat := chatMessages (dom st) in
  let ids := typing_ids (dom st) in
  net st' = net st
  /\ btnSend_disabled (dom st') = false
  /\ userInput_value (dom st') = userInput_value (dom st)
  /\ ((vars st' = turn_finished (vars st)
       /\ (forall text, field data (lit "response") <> Some (JStr text))
       /\ chatMessages (dom st')
          = remove_typing ids (remove_typing ids chat)
            ++ [Message Bot (chat_error (currentLang (vars st)))])
      \/ exists text,
           field data (lit "response") = Some (JStr text)
           /\ vars st' = turn_finished (vars_after_chat data (vars st))
           /\ chatMessages (dom st')
              = let shown :=
                  remove_typing ids chat
                  ++ [Message Bot (formatMessage text)] in
                match
                  fst (updateHint
                         (with_vars (vars_after_chat data) st))
                with
                | Normal _ => shown
                | Throw =>
                    remove_typing ids shown
                    ++ [Message Bot (chat_error (currentLang (vars st')))]
                end).
Proof.
  unfold sendMessage_delayed, removeTyping, addMessage, append_node,
    format_content.
  unfold_monad. cbn.
  destruct (field data (lit "response")) as [r0|] eqn:Hr; cbn.
  2:{ rewrite sendMessage_catch_effect, sendMessage_finally_effect. cbn.
      repeat split. left. repeat split. discriminate. }
  destruct r0; cbn;
    try (rewrite sendMessage_catch_effect, sendMessage_finally_effect; cbn;
         repeat split; left; repeat split; discriminate).
  destruct (field_total data _ (lit "state") _ Hr) as (x & Hs).
  destruct (field_total data _ (lit "lang") _ Hr) as (l & Hl).
  rewrite Hs. cbn. rewrite Hl. cbn.
  assert (Hvars : forall b,
            {| isProcessing := b; currentState := x;
               currentLang := if truthy l then l else currentLang (vars st);
               currentHints := currentHints (vars st) |}
            = {| isProcessing := b;
                 currentState := field_or_undefined data (lit "state");
                 currentLang :=
                   if_truthy (field_or_undefined data (lit "lang"))
                     (currentLang (vars st));
                 currentHints := currentHints (vars st) |}).
  { intros b. unfold if_truthy.
    rewrite (field_some _ _ _ Hs), (field_some _ _ _ Hl). reflexivity. }
  destruct (truthy l) eqn:Ht; cbn;
    match goal with |- context [updateHint ?s0] =>
      rewrite (updateHint_by_vars (with_vars (vars_after_chat data) st) s0)
        by (unfold vars_after_chat; cbn; rewrite <- Hvars, ?Ht; reflexivity)
    end;
    chrome_step;
    destruct Hui as (Hv & Hn & Hc & Hi & _ & _ & _ & Hids);
    try rewrite sendMessage_catch_effect;
    rewrite sendMessage_finally_effect; cbn;
    (split; [assumption|]); (split; [reflexivity|]); (split; [assumption|]);
    right; exists s; (split; [reflexivity|]);
    unfold turn_finished, vars_after_chat; cbn; rewrite Hv; cbn;
    rewrite <- (Hvars false), ?Ht;
    (split; [reflexivity|]);
    rewrite ?Hc, ?Hids; reflexivity.
Qed.

Lemma sendMessage_effect st :
  let msg := trim (userInput_value (dom st)) in
  sendMessage st
  = (Normal tt,
     if (match msg with [] => true | _ => false end
         || isProcessing (vars st))%bool
     then st else after_send msg st).
Proof.
  unfold sendMessage, showTyping, addMessage, append_node, format_content,
    fetch.
  unfold_monad. cbn.
  destruct (trim (userInput_value (dom st))) as [|c msg]; cbn;
    [reflexivity|].
  destruct (isProcessing (vars st)); cbn; [reflexivity|].
  unfold after_send. cbn. rewrite <- app_assoc. reflexivity.
Qed.

Lemma toggleLanguage_effect st :
  toggleLanguage st
  = (Normal tt,
     with_net (net_after_fetch (set_lang_request (currentLang (vars st)))
                 KSetLang) st).
Proof. reflexivity. Qed.

Lemma downloadPDF_effect st :
  downloadPDF st
  = (Normal tt, with_net (net_after_fetch pdf_request KPdf) st).
Proof. reflexivity. Qed.

Lemma downloadPDF_settled_effect o st :
  let st' := snd (downloadPDF_settled o st) in
  vars st' = vars st /\ net st' = net st
  /\ exists text, chatMessages (dom st')
                  = chatMessages (dom st) ++ [Message Bot text].
Proof.
  unfold downloadPDF_settled, addMessage, append_node, format_content.
  unfold_monad.
  destruct o as [|r]; cbn; [|destruct (res_ok r && res_download r)%bool; cbn];
    repeat split; eexists; reflexivity.
Qed.

Lemma toggleLanguage_settled_effect o st :
  let st' := snd (toggleLanguage_settled o st) in
  (st' = st
   /\ forall r data, o = Response r -> res_json r = Some data ->
                     field data (lit "lang") = None)
  \/ exists r data,
       o = Response r /\ res_json r = Some data
       /\ field data (lit "lang") <> None
       /\ isProcessing (vars st') = isProcessing (vars st)
       /\ currentLang (vars st') = field_or_undefined data (lit "lang")
       /\ currentHints (vars st')
          = if_truthy (field_or_undefined data (lit "hints")) (JObj [])
       /\ ((currentState (vars st') = currentState (vars st)
            /\ net st' = net st)
           \/ (currentState (vars st') = JStr (lit "greeting")
               /\ init_fetched KReset (net st) (net st'))).
Proof.
  unfold toggleLanguage_settled. unfold_monad.
  destruct o as [|r]; cbn.
  { left. split; [reflexivity|]. discriminate. }
  destruct (res_json r) as [data|] eqn:Hj; cbn.
  2:{ left. split; [reflexivity|]. intros r' data' H. inversion H; subst.
      congruence. }
  destruct (field data (lit "lang")) as [l|] eqn:Hl; cbn.
  2:{ left. split; [reflexivity|]. intros r' data' H H'.
      inversion H; subst. congruence. }
  destruct (field_total data _ (lit "hints") _ Hl) as (h & Hh).
  rewrite Hh. cbn.
  right. exists r, data. split; [reflexivity|]. split; [assumption|].
  split; [rewrite Hl; discriminate|].
  rewrite (field_some _ _ _ Hl), (field_some _ _ _ Hh).
  chrome_step; destruct Hui as (Hv & Hn & _).
  - match goal with |- context [resetChat ?s] =>
      pose proof (resetChat_effect s) as Hr;
      destruct (resetChat s) as [c st']
    end.
    cbn in Hr. destruct Hr as (Hp & Hs & Hl' & Hh' & _ & Hf).
    destruct c; cbn; rewrite Hp, Hl', Hh', Hv; cbn;
      (repeat split; try reflexivity); right;
      (split; [assumption|]); rewrite <- Hn; assumption.
  - cbn. rewrite Hv. cbn. repeat split; try reflexivity.
    left. split; [reflexivity|]. assumption.
Qed.

(** ** The invariant of the event loop *)

Lemma take_pending_split id l k rest :
  take_pending id l = Some (k, rest) ->
  exists l1 l2, l = l1 ++ (id, k) :: l2 /\ rest = l1 ++ l2.
Proof.
  revert rest. induction l as [|[i k0] l IH]; intros rest; cbn;
    [discriminate|].
  destruct (Nat.eqb i id) eqn:E.
  - apply Nat.eqb_eq in E. subst i. intros H. inversion H; subst.
    exists [], rest. auto.
  - destruct (take_pending id l) as [[k' r']|]; [|discriminate].
    intros H. inversion H; subst.
    destruct (IH r' eq_refl) as (l1 & l2 & -> & ->).
    exists ((i, k0) :: l1), l2. auto.
Qed.

Lemma kind_endpoint_known k : In (kind_endpoint k) endpoints.
Proof. destruct k; cbn; tauto. Qed.

Lemma state_source_mono tr e n n' s :
  (forall id req, nth_error (requests n) id = Some req ->
                  nth_error (requests n') id = Some req) ->
  state_source tr n s -> state_source (tr ++ e) n' s.
Proof.
  intros Hn [H|(id & r & data & req & H1 & H2 & H3 & H4 & H5)];
    [left; assumption|].
  right. exists id, r, data, req.
  repeat split; auto. apply in_or_app. auto.
Qed.

Lemma from_server_mono tr e name v :
  from_server tr name v -> from_server (tr ++ e) name v.
Proof.
  intros (data & (id & r & H1 & H2) & H3).
  exists data. split; [|assumption]. exists id, r.
  split; [apply in_or_app; auto|assumption].
Qed.

Lemma inv_initial d : Inv [] (vars (initial d)) (net (initial d)).
Proof.
  constructor; cbn; try (left; reflexivity); try constructor; try tauto.
Qed.

Lemma inv_trace tr e v n : Inv tr v n -> Inv (tr ++ [e]) v n.
Proof.
  intros [H1 H2 H3 H4 H5 H6 H7]. constructor; auto.
  - intros id data H. destruct (H3 id data H) as (r & Hr & Hj).
    exists r. split; [apply in_or_app; auto|assumption].
  - eapply state_source_mono; eauto.
  - destruct H6; [left; auto|right; apply from_server_mono; auto].
  - destruct H7; [left; auto|right; apply from_server_mono; auto].
Qed.

Lemma filter_chat_remove l1 l2 e :
  List.length (filter is_chat_turn (l1 ++ l2))
  = List.length (filter is_chat_turn (l1 ++ e :: l2))
    - (if is_chat_turn e then 1 else 0).
Proof.
  rewrite !filter_app, !length_app. cbn.
  destruct (is_chat_turn e); cbn; lia.
Qed.

(** An await is settled: its entry leaves the pending list. *)
Lemma inv_remove tr v n id k rest :
  Inv tr v n ->
  take_pending id (pending n) = Some (k, rest) ->
  is_chat_turn (id, k) = false ->
  Inv tr v {| requests := requests n; pending := rest |}.
Proof.
  intros [H1 H2 H3 H4 H5 H6 H7] Ht Hk.
  destruct (take_pending_split _ _ _ _ Ht) as (l1 & l2 & Hl & ->).
  assert (Hin : forall e, In e (l1 ++ l2) -> In e (pending n)).
  { intros e He. rewrite Hl. apply in_app_or in He.
    apply in_or_app. cbn. tauto. }
  constructor; cbn; auto.
  rewrite (filter_chat_remove l1 l2 (id, k)), Hk, <- Hl, H4. lia.
Qed.

(** One more request, awaited by a function other than [sendMessage]. *)
Lemma inv_fetch tr v n req k :
  Inv tr v n ->
  endpoint_of req = kind_endpoint k ->
  is_chat_turn (0, k) = false ->
  Inv tr v (net_after_fetch req k n).
Proof.
  intros [H1 H2 H3 H4 H5 H6 H7] He Hk.
  assert (Hnth : forall id r, nth_error (requests n) id = Some r ->
                   nth_error (requests n ++ [req]) id = Some r).
  { intros id r H. rewrite nth_error_app1; [assumption|].
    apply nth_error_Some. congruence. }
  constructor; cbn.
  - apply Forall_app. split; [assumption|]. constructor; [|constructor].
    rewrite He. apply kind_endpoint_known.
  - intros id k' H. apply in_app_or in H. destruct H as [H|[H|[]]].
    + destruct (H2 id k' H) as (r & Hr & Hr'). exists r. auto.
    + inversion H; subst. exists req. split; [|assumption].
      rewrite nth_error_app2, Nat.sub_diag; [reflexivity|lia].
  - intros id data H. apply in_app_or in H. destruct H as [H|[H|[]]].
    + auto.
    + inversion H; subst. discriminate.
  - rewrite filter_app, length_app. cbn in *.
    unfold is_chat_turn in *. cbn in *. rewrite Hk. cbn. lia.
  - destruct H5 as [H5|(id & r & data & rq & A & B & C & D & E)];
      [left; assumption|].
    right. exists id, r, data, rq. auto 10.
  - assumption.
  - assumption.
Qed.

Lemma inv_init_fetched tr v n n' k :
  Inv tr v n -> init_fetched k n n' -> k = KInit \/ k = KReset ->
  Inv tr v n'.
Proof.
  intros H [->|(url & Hu & ->)] Hk; [assumption|].
  apply inv_fetch; [assumption| |destruct Hk; subst; reflexivity].
  unfold endpoint_of. cbn. rewrite Hu. destruct Hk; subst; reflexivity.
Qed.

(** New values for the variables, with the flag left alone. *)
Lemma inv_vars tr v v' n :
  Inv tr v n ->
  isProcessing v' = isProcessing v ->
  state_source tr n (currentState v') ->
  lang_source tr (currentLang v') ->
  hints_source tr (currentHints v') ->
  Inv tr v' n.
Proof.
  intros [H1 H2 H3 H4 H5 H6 H7] Hp Hs Hl Hh.
  constructor; auto. rewrite Hp. assumption.
Qed.

(** A chat turn starts. *)
Lemma inv_send tr v n msg :
  Inv tr v n ->
  isProcessing v = false ->
  Inv tr {| isProcessing := true; currentState := currentState v;
            currentLang := currentLang v; currentHints := currentHints v |}
    (net_after_fetch (chat_request msg (currentLang v)) KChat n).
Proof.
  intros [H1 H2 H3 H4 H5 H6 H7] Hp.
  assert (Hnth : forall id r, nth_error (requests n) id = Some r ->
                   nth_error (requests n ++ [chat_request msg (currentLang v)])
                     id = Some r).
  { intros id r H. rewrite nth_error_app1; [assumption|].
    apply nth_error_Some. congruence. }
  constructor; cbn.
  - apply Forall_app. split; [assumption|]. constructor; [|constructor].
    cbn. tauto.
  - intros id k' H. apply in_app_or in H. destruct H as [H|[H|[]]].
    + destruct (H2 id k' H) as (r & Hr & Hr'). exists r. auto.
    + inversion H; subst. exists (chat_request msg (currentLang v)).
      split; [|reflexivity].
      rewrite nth_error_app2, Nat.sub_diag; [reflexivity|lia].
  - intros id data H. apply in_app_or in H. destruct H as [H|[H|[]]].
    + auto.
    + inversion H.
  - rewrite filter_app, length_app, H4, Hp. reflexivity.
  - destruct H5 as [H5|(id & r & data & rq & A & B & C & D & E)];
      [left; assumption|].
    right. exists id, r, data, rq. auto 10.
  - assumption.
  - assumption.
Qed.

(** A chat turn ends. *)
Lemma inv_turn_done tr v n id k rest :
  Inv tr v n ->
  take_pending id (pending n) = Some (k, rest) ->
  is_chat_turn (id, k) = true ->
  Inv tr (turn_finished v) {| requests := requests n; pending := rest |}.
Proof.
  intros [H1 H2 H3 H4 H5 H6 H7] Ht Hk.
  destruct (take_pending_split _ _ _ _ Ht) as (l1 & l2 & Hl & ->).
  assert (Hin : forall e, In e (l1 ++ l2) -> In e (pending n)).
  { intros e He. rewrite Hl. apply in_app_or in He.
    apply in_or_app. cbn. tauto. }
  constructor; cbn; auto.
  rewrite (filter_chat_remove l1 l2 (id, k)), Hk, <- Hl, H4.
  destruct (isProcessing v); reflexivity.
Qed.

(** The body of a chat response has arrived; the turn awaits its timer. *)
Lemma inv_delay tr v n id rest r data :
  Inv tr v n ->
  take_pending id (pending n) = Some (KChat, rest) ->
  res_json r = Some data ->
  Inv (tr ++ [Settle id (Response r)]) v
    {| requests := requests n; pending := rest ++ [(id, KChatDelay data)] |}.
Proof.
  intros H Ht Hj. apply inv_trace with (e := Settle id (Response r)) in H.
  destruct H as [H1 H2 H3 H4 H5 H6 H7].
  destruct (take_pending_split _ _ _ _ Ht) as (l1 & l2 & Hl & ->).
  assert (Hin : forall e, In e (l1 ++ l2) -> In e (pending n)).
  { intros e He. rewrite Hl. apply in_app_or in He.
    apply in_or_app. cbn. tauto. }
  constructor; cbn; auto.
  - intros i k H. apply in_app_or in H. destruct H as [H|[H|[]]]; [auto|].
    inversion H; subst. apply (H2 _ KChat). rewrite Hl.
    apply in_or_app. cbn. tauto.
  - intros i d H. apply in_app_or in H. destruct H as [H|[H|[]]]; [auto|].
    inversion H; subst. exists r. split; [|assumption].
    apply in_or_app. cbn. tauto.
  - rewrite <- H4, Hl, !filter_app, !length_app. cbn. lia.
Qed.

Arguments initChat : simpl never.
Arguments initChat_settled : simpl never.
Arguments sendMessage : simpl never.
Arguments sendMessage_settled : simpl never.
Arguments sendMessage_delayed : simpl never.
Arguments resetChat_settled : simpl never.
Arguments toggleLanguage_settled : simpl never.
Arguments downloadPDF_settled : simpl never.
Arguments net_after_fetch : simpl never.

Lemma shows_state_source tr n id o data text req :
  shows o data text ->
  nth_error (requests n) id = Some req ->
  endpoint_of req = (GET, lit "/api/init") ->
  state_source (tr ++ [Settle id o]) n
    (field_or_undefined data (lit "state")).
Proof.
  intros (r & -> & Hj & Hr) Hn He. right. exists id, r, data, req.
  split; [apply in_or_app; cbn; tauto|]. repeat split; auto.
  destruct (field_total data _ (lit "state") _ Hr) as (x & Hx).
  rewrite (field_some _ _ _ Hx). assumption.
Qed.

Lemma delivered_from_server tr id r data name :
  res_json r = Some data ->
  (exists x, field data name = Some x) ->
  from_server (tr ++ [Settle id (Response r)]) name
    (field_or_undefined data name).
Proof.
  intros Hj (x & Hx). exists data. split.
  - exists id, r. split; [apply in_or_app; cbn; tauto|assumption].
  - rewrite (field_some _ _ _ Hx). assumption.
Qed.

Lemma if_truthy_lang_source tr id r data l :
  res_json r = Some data ->
  (exists x, field data (lit "lang") = Some x) ->
  lang_source tr l ->
  lang_source (tr ++ [Settle id (Response r)])
    (if_truthy (field_or_undefined data (lit "lang")) l).
Proof.
  intros Hj Hx Hl. unfold if_truthy.
  destruct (truthy _).
  - right. apply delivered_from_server; assumption.
  - destruct Hl; [left; assumption|right; apply from_server_mono; auto].
Qed.

Lemma if_truthy_hints_source tr id r data h :
  res_json r = Some data ->
  (exists x, field data (lit "hints") = Some x) ->
  hints_source tr h ->
  hints_source (tr ++ [Settle id (Response r)])
    (if_truthy (field_or_undefined data (lit "hints")) h).
Proof.
  intros Hj Hx Hh. unfold if_truthy.
  destruct (truthy _).
  - right. apply delivered_from_server; assumption.
  - destruct Hh; [left; assumption|right; apply from_server_mono; auto].
Qed.

(** The variables after the assignments of [initChat] and [resetChat]. *)
Lemma inv_after_init tr v n id o data text req :
  Inv tr v n ->
  shows o data text ->
  nth_error (requests n) id = Some req ->
  endpoint_of req = (GET, lit "/api/init") ->
  Inv (tr ++ [Settle id o]) (vars_after_init data v) n.
Proof.
  intros H Hs Hn He.
  apply inv_vars with (v := v); [apply inv_trace; assumption|reflexivity|..].
  - eapply shows_state_source; eauto.
  - destruct Hs as (r & -> & Hj & Hr).
    apply if_truthy_lang_source; [assumption| |apply (inv_lang _ _ _ H)].
    eapply field_total; eauto.
  - destruct Hs as (r & -> & Hj & Hr).
    apply if_truthy_hints_source; [assumption| |apply (inv_hints _ _ _ H)].
    eapply field_total; eauto.
Qed.

Lemma take_pending_in id l k rest :
  take_pending id l = Some (k, rest) -> In (id, k) l.
Proof.
  intros H. destruct (take_pending_split _ _ _ _ H) as (l1 & l2 & -> & _).
  apply in_or_app. cbn. tauto.
Qed.

Lemma inv_step tr st e :
  Inv tr (vars st) (net st) ->
  Inv (tr ++ [e]) (vars (handle st e)) (net (handle st e)).
Proof.
  intros H. destruct e as [|text| | | | | |id o|id]; cbn.
  - (* Load *)
    unfold exec_task, bind, createStars, modify. cbn.
    match goal with |- context [initChat ?s] =>
      destruct (initChat_effect s) as (Hv & Hf) end.
    rewrite Hv. cbn. apply inv_trace.
    eapply inv_init_fetched; eauto.
  - (* Edit *)
    apply inv_trace. assumption.
  - (* Send *)
    unfold exec_task. rewrite sendMessage_effect. cbn.
    apply inv_trace.
    destruct (trim (userInput_value (dom st))) as [|c msg]; cbn;
      [assumption|].
    destruct (isProcessing (vars st)) eqn:Hp; cbn; [assumption|].
    apply inv_send; assumption.
  - (* ToggleLanguage *)
    apply inv_trace. apply inv_fetch; [assumption|reflexivity|reflexivity].
  - (* DownloadPDF *)
    apply inv_trace. apply inv_fetch; [assumption|reflexivity|reflexivity].
  - (* ResetChat *)
    unfold exec_task.
    destruct (resetChat_effect st) as (Hp & Hs & Hl & Hh & _ & Hf).
    apply inv_trace. eapply inv_init_fetched; [|exact Hf|tauto].
    apply inv_vars with (v := vars st); auto.
    + rewrite Hs. left. reflexivity.
    + rewrite Hl. apply (inv_lang _ _ _ H).
    + rewrite Hh. apply (inv_hints _ _ _ H).
  - (* ToggleDevModal *)
    apply inv_trace. assumption.
  - (* Settle *)
    destruct (take_pending id (pending (net st))) as [[k rest]|] eqn:Ht;
      [|apply inv_trace; assumption].
    pose proof (take_pending_in _ _ _ _ Ht) as Hin.
    destruct (inv_pending _ _ _ H _ _ Hin) as (req & Hreq & Hep).
    destruct k; cbn in Hep; unfold exec_task.
    + (* initChat *)
      pose proof (inv_remove _ _ _ _ _ _ H Ht eq_refl) as H'.
      destruct (initChat_settled_effect o (set_pending rest st))
        as (Hn & [[Hv _]|(data & text & Hs & Hv & _)]);
        rewrite Hn, Hv; cbn.
      * apply inv_trace. assumption.
      * eapply inv_after_init; eauto.
    + (* sendMessage, the response *)
      pose proof (sendMessage_settled_effect id o (set_pending rest st)) as E.
      cbn in E.
      destruct o as [|[ok [data|] dl]]; rewrite E; cbn.
      * apply inv_trace. eapply inv_turn_done; eauto.
      * apply (inv_delay _ _ _ _ _
                 {| res_ok := ok; res_json := Some data; res_download := dl |}
                 data H Ht eq_refl).
      * apply inv_trace. eapply inv_turn_done; eauto.
    + (* a timer is not settled by the network *)
      apply inv_trace. assumption.
    + (* toggleLanguage *)
      pose proof (inv_remove _ _ _ _ _ _ H Ht eq_refl) as H'.
      destruct (toggleLanguage_settled_effect o (set_pending rest st))
        as [[-> _]|(r & data & -> & Hj & Hl & Hp & Hlang & Hhints & Hcase)];
        [apply inv_trace; assumption|].
      cbn in Hp, Hcase.
      assert (Hx : forall name, exists x, field data name = Some x).
      { intros name. destruct (field data (lit "lang")) as [l|] eqn:El;
          [|congruence]. eapply field_total; eauto. }
      assert (Hbase : forall s,
                state_source (tr ++ [Settle id (Response r)])
                  {| requests := requests (net st); pending := rest |} s ->
                currentState
                  (vars (snd (toggleLanguage_settled (Response r)
                                (set_pending rest st)))) = s ->
                Inv (tr ++ [Settle id (Response r)])
                  (vars (snd (toggleLanguage_settled (Response r)
                                (set_pending rest st))))
                  {| requests := requests (net st); pending := rest |}).
      { intros s Hs Hcur. apply inv_vars with (v := vars st);
          [apply inv_trace; assumption|assumption|..].
        - rewrite Hcur. assumption.
        - rewrite Hlang. right. apply delivered_from_server; auto.
        - rewrite Hhints.
          apply if_truthy_hints_source; auto. left. reflexivity. }
      destruct Hcase as [[Hs Hn]|[Hs Hf]].
      * rewrite Hn. cbn. apply (Hbase _ (inv_state _ _ _ (inv_trace _ _ _ _ H')) Hs).
      * eapply inv_init_fetched; [|exact Hf|tauto].
        apply (Hbase (JStr (lit "greeting"))); [left; reflexivity|exact Hs].
    + (* resetChat *)
      pose proof (inv_remove _ _ _ _ _ _ H Ht eq_refl) as H'.
      destruct (resetChat_settled_effect o (set_pending rest st))
        as (Hn & [[-> _]|(data & text & Hs & Hv & _)]).
      * apply inv_trace. assumption.
      * rewrite Hn, Hv. cbn. eapply inv_after_init; eauto.
    + (* downloadPDF *)
      pose proof (inv_remove _ _ _ _ _ _ H Ht eq_refl) as H'.
      destruct (downloadPDF_settled_effect o (set_pending rest st))
        as (Hv & Hn & _).
      rewrite Hv, Hn. apply inv_trace. assumption.
  - (* Timer *)
    destruct (take_pending id (pending (net st))) as [[k rest]|] eqn:Ht;
      [|apply inv_trace; assumption].
    destruct k; try (apply inv_trace; assumption).
    pose proof (take_pending_in _ _ _ _ Ht) as Hin.
    destruct (inv_pending _ _ _ H _ _ Hin) as (req & Hreq & Hep).
    destruct (inv_delays _ _ _ H _ _ Hin) as (r & Hr & Hj).
    pose proof (inv_turn_done _ _ _ _ _ _ H Ht eq_refl) as H'.
    apply inv_trace with (e := Timer id) in H'.
    unfold exec_task.
    destruct (sendMessage_delayed_effect data (set_pending rest st))
      as (Hn & _ & _ & [(Hv & _)|(text & Hf & Hv & _)]);
      rewrite Hn, Hv; cbn; [assumption|].
    apply inv_vars with (v := turn_finished (vars st));
      [assumption|reflexivity|..]; cbn.
    + right. exists id, r, data, req.
      split; [apply in_or_app; tauto|]. repeat split; auto.
      destruct (field_total data _ (lit "state") _ Hf) as (x & Hx).
      rewrite (field_some _ _ _ Hx). assumption.
    + unfold if_truthy. destruct (truthy _).
      * right. apply from_server_mono. exists data. split;
          [exists id, r; auto|].
        destruct (field_total data _ (lit "lang") _ Hf) as (x & Hx).
        rewrite (field_some _ _ _ Hx). assumption.
      * apply (inv_lang _ _ _ H').
    + apply (inv_hints _ _ _ H').
Qed.

Lemma inv_run d tr :
  Inv tr (vars (run (initial d) tr)) (net (run (initial d) tr)).
Proof.
  induction tr as [|e tr IH] using rev_ind.
  - apply inv_initial.
  - unfold run in *. rewrite fold_left_app. cbn. apply inv_step. assumption.
Qed.

(** ** The model at work *)

(** A greeting, an answer and the reply to it. *)
Example a_conversation :
  let st :=
    run (initial example_page)
      [Load;
       Settle 0 (json_response
                   (JObj [(lit "response", JStr (lit "Hello **friend**"));
                          (lit "state", JStr (lit "ask_dob"));
                          (lit "lang", JStr (lit "en"))]));
       Edit (lit " 1990-01-01 ");
       Send;
       Settle 1 (json_response
                   (JObj [(lit "response", JStr (lit "<ok>"));
                          (lit "state", JStr (lit "reading_shown"))]));
       Timer 1] in
  chatMessages (dom st)
  = [Message Bot (lit "Hello <strong>friend</strong>");
     Message User (lit "1990-01-01");
     Message Bot (lit "&lt;ok&gt;")]
  /\ vars st = {| isProcessing := false;
                  currentState := JStr (lit "reading_shown");
                  currentLang := JStr (lit "en");
                  currentHints := JObj [] |}
  /\ inputHint (dom st) = HintText (lit "Type yes to see the 6-month forecast")
  /\ map endpoint_of (requests (net st))
     = [(GET, lit "/api/init"); (POST, lit "/api/chat")]
  /\ pending (net st) = [].
Proof. vm_compute. repeat split. Qed.

(** The server is down when the page loads. *)
Example a_failed_greeting :
  let st := run (initial example_page) [Load; Settle 0 NetworkError] in
  chatMessages (dom st) = [Message Bot err_connect_my]
  /\ vars st = initial_vars.
Proof. vm_compute. repeat split. Qed.

(** A message that gives its anchor the id of the typing indicator: when
    the request fails, [removeTyping] takes the anchor out of the bubble of
    the user and the typing indicator stays. *)
Example an_id_in_a_bubble :
  let st :=
    run (initial example_page)
      [Load;
       Settle 0 (json_response
                   (JObj [(lit "response", JStr (lit "Hello"));
                          (lit "state", JStr (lit "greeting"))]));
       Edit a_link_with_an_id;
       Send;
       Settle 1 NetworkError] in
  formatMessage a_link_with_an_id
  = lit "<a href=" ++ [c_dquote] ++ lit "a" ++ [c_dquote] ++ lit " id="
    ++ [c_dquote] ++ lit "typingIndicator" ++ [c_dquote] ++ lit " style="
    ++ [c_dquote]
    ++ lit "color: var(--accent-gold); text-decoration: underline;"
    ++ [c_dquote] ++ lit ">x</a>"
  /\ chatMessages (dom st)
     = [Message Bot (lit "Hello");
        Stripped User (formatMessage a_link_with_an_id) 1;
        TypingIndicator;
        Message Bot err_chat_my]
  /\ pending (net st) = [].
Proof. vm_compute. repeat split. Qed.

(** A table of hints that is a string: the state is no member of it, and
    the hint is the one of the fallback table. *)
Example a_string_for_hints :
  let st :=
    run (initial example_page)
      [Load;
       Settle 0 (json_response
                   (JObj [(lit "response", JStr (lit "Hello"));
                          (lit "state", JStr (lit "greeting"));
                          (lit "hints", JStr (lit "abc"))]))] in
  currentHints (vars st) = JStr (lit "abc")
  /\ inputHint (dom st) = HintText hint_greeting_my.
Proof. vm_compute. repeat split. Qed.

(** Lazy groups and the greedy separator. *)
Example formatMessage_markup :
  formatMessage
    (lit "**a** _b_ [c](d) `e` " ++ [c_box; c_box; c_box; c_box])
  = lit "<strong>a</strong> <em>b</em> <a href=" ++ [c_dquote] ++ lit "d"
    ++ [c_dquote] ++ lit " style=" ++ [c_dquote]
    ++ lit "color: var(--accent-gold); text-decoration: underline;"
    ++ [c_dquote] ++ lit ">c</a> <code>e</code> <span class="
    ++ [c_dquote] ++ lit "msg-separator" ++ [c_dquote] ++ lit "></span>".
Proof. vm_compute. reflexivity. Qed.

(* ================================================================== *)
(** * Lemmas for the properties *)

Lemma occurs_in p s c : occurs p s -> In c p -> In c s.
Proof.
  intros (a & b & ->) H. apply in_or_app. right. apply in_or_app. auto.
Qed.

Lemma has_link_bracket s : has_link s -> In c_rbracket s.
Proof.
  intros (a & t & u & b & -> & _).
  rewrite !in_app_iff. cbn. tauto.
Qed.

Lemma in_existsb c (s : jsstring) : In c s -> existsb (cu_eqb c) s = true.
Proof.
  intros H. apply existsb_exists. exists c. split; [assumption|].
  apply N.eqb_refl.
Qed.

Lemma reachable_inv st :
  reachable st -> exists tr, Inv tr (vars st) (net st).
Proof. intros (d & tr & ->). exists tr. apply inv_run. Qed.

Lemma take_pending_incl id l k rest :
  take_pending id l = Some (k, rest) -> forall e, In e rest -> In e l.
Proof.
  intros H e He.
  destruct (take_pending_split _ _ _ _ H) as (l1 & l2 & -> & ->).
  apply in_app_or in He. apply in_or_app. cbn. tauto.
Qed.

Lemma initChat_settled_failed o st :
  failed o -> initChat_settled o st = initChat_catch st.
Proof.
  intros H. unfold initChat_settled, try_catch, bind.
  rewrite (response_data_failed o st H). reflexivity.
Qed.

Lemma sendMessage_settled_failed id o st :
  failed o ->
  snd (sendMessage_settled id o st)
  = set_btnSend_disabled false
      (set_isProcessing false
         (set_chatMessages
            (remove_typing (typing_ids (dom st)) (chatMessages (dom st))
             ++ [Message Bot (chat_error (currentLang (vars st)))]) st)).
Proof.
  intros H. pose proof (sendMessage_settled_effect id o st) as E.
  destruct o as [|[ok [data|] dl]]; cbn in *; [assumption|discriminate|assumption].
Qed.

Lemma toggleLanguage_settled_failed o st :
  failed o -> toggleLanguage_settled o st = (Normal tt, st).
Proof.
  intros H. unfold toggleLanguage_settled, try_catch, bind.
  rewrite (response_data_failed o st H). reflexivity.
Qed.

Lemma resetChat_settled_failed o st :
  failed o -> resetChat_settled o st = (Throw, st).
Proof.
  intros H. unfold resetChat_settled, bind.
  rewrite (response_data_failed o st H). reflexivity.
Qed.

(** Handling a settled request issues a request in one case only, the
    restart of the chat after a language switch that went through; the
    timer of a chat turn issues none. *)
Lemma settling_issues_no_request st id o :
  (requests (net (handle st (Settle id o))) = requests (net st)
   \/ exists rest,
        take_pending id (pending (net st)) = Some (KSetLang, rest)
        /\ ~ failed o)
  /\ requests (net (handle st (Timer id))) = requests (net st).
Proof.
  split; cbn;
    (destruct (take_pending id (pending (net st))) as [[k rest]|] eqn:Ht;
     [|auto]); destruct k; unfold exec_task; auto.
  - destruct (initChat_settled_effect o (set_pending rest st)) as (Hn & _).
    rewrite Hn. auto.
  - pose proof (sendMessage_settled_effect id o (set_pending rest st)) as E.
    cbn in E. destruct o as [|[ok [data|] dl]]; rewrite E; auto.
  - destruct (toggleLanguage_settled_effect o (set_pending rest st))
      as [[-> _]|(r & data & -> & Hj & _)]; [auto|].
    right. exists rest. split; [reflexivity|]. cbn. congruence.
  - destruct (resetChat_settled_effect o (set_pending rest st)) as (Hn & _).
    rewrite Hn. auto.
  - destruct (downloadPDF_settled_effect o (set_pending rest st))
      as (_ & Hn & _).
    rewrite Hn. auto.
  - destruct (sendMessage_delayed_effect data (set_pending rest st))
      as (Hn & _).
    rewrite Hn. reflexivity.
Qed.

Lemma take_pending_fresh l id k :
  (forall i k', In (i, k') l -> i < id) ->
  take_pending id (l ++ [(id, k)]) = Some (k, l).
Proof.
  induction l as [|[i k0] l IH]; intros H; cbn.
  - rewrite Nat.eqb_refl. reflexivity.
  - assert (Hi : i < id) by (apply (H i k0); left; reflexivity).
    apply Nat.lt_neq in Hi. apply Nat.eqb_neq in Hi. rewrite Hi.
    rewrite IH; [reflexivity|].
    intros j k' Hj. apply (H j k'). right. assumption.
Qed.

Lemma reachable_pending_fresh st k :
  reachable st ->
  take_pending (List.length (requests (net st)))
    (pending (net st) ++ [(List.length (requests (net st)), k)])
  = Some (k, pending (net st)).
Proof.
  intros H. destruct (reachable_inv st H) as (tr & I).
  apply take_pending_fresh. intros i k' Hin.
  destruct (inv_pending _ _ _ I _ _ Hin) as (req & Hreq & _).
  apply nth_error_Some. congruence.
Qed.

(** The state after a call of [sendMessage] that goes through. *)
Lemma handle_send_idle st c msg :
  trim (userInput_value (dom st)) = c :: msg ->
  isProcessing (vars st) = false ->
  handle st Send = after_send (c :: msg) st.
Proof.
  intros Hm Hp. cbn. unfold exec_task.
  rewrite sendMessage_effect, Hm, Hp. reflexivity.
Qed.

(** Neither step of a failing chat turn touches the three variables,
    whatever happens between the two. *)
Lemma send_step_keeps_variables st :
  let st' := handle st Send in
  currentState (vars st') = currentState (vars st)
  /\ currentLang (vars st') = currentLang (vars st)
  /\ currentHints (vars st') = currentHints (vars st).
Proof.
  cbn. unfold exec_task. rewrite sendMessage_effect. cbn.
  destruct (_ || _)%bool; repeat split.
Qed.

Lemma chat_failure_step_keeps_variables st id rest o :
  take_pending id (pending (net st)) = Some (KChat, rest) ->
  failed o ->
  vars (handle st (Settle id o)) = turn_finished (vars st).
Proof.
  intros Hp Hf. cbn. rewrite Hp. unfold exec_task.
  rewrite (sendMessage_settled_failed _ _ _ Hf). reflexivity.
Qed.

(** The language and the hints once a response of [toggleLanguage] has been
    handled, whether or not what follows the assignments throws. *)
Lemma toggleLanguage_settled_vars r data l h st :
  res_json r = Some data ->
  field data (lit "lang") = Some l ->
  field data (lit "hints") = Some h ->
  let st' := snd (toggleLanguage_settled (Response r) st) in
  currentLang (vars st') = l
  /\ currentHints (vars st') = (if truthy h then h else JObj []).
Proof.
  intros Hj Hl Hh.
  destruct (toggleLanguage_settled_effect (Response r) st)
    as [[_ Hno]|(r' & data' & E & Hj' & _ & _ & Hlang & Hhints & _)].
  - specialize (Hno r data eq_refl Hj). congruence.
  - inversion E; subst r'. assert (data' = data) by congruence. subst data'.
    cbn. rewrite Hlang, Hhints, (field_some _ _ _ Hl), (field_some _ _ _ Hh).
    split; reflexivity.
Qed.

(** What one event does to [currentState]: it keeps it, assigns the
    literal, or assigns the [state] of the body the event delivers or of
    the body a chat turn was holding. *)
Lemma currentState_step st e :
  let st' := handle st e in
  currentState (vars st') = currentState (vars st)
  \/ currentState (vars st') = JStr (lit "greeting")
  \/ exists data,
       (delivers e data \/ holds_for_timer st data)
       /\ field data (lit "state") = Some (currentState (vars st')).
Proof.
  assert (Hfield : forall data text,
            field data (lit "response") = Some (JStr text) ->
            field data (lit "state")
            = Some (field_or_undefined data (lit "state"))).
  { intros data text Hr.
    destruct (field_total data _ (lit "state") _ Hr) as (x & Hx).
    rewrite (field_some _ _ _ Hx). assumption. }
  destruct e as [|text| | | | | |id o|id]; cbn.
  - unfold exec_task, bind, createStars, modify. cbn.
    match goal with |- context [initChat ?s] =>
      destruct (initChat_effect s) as (Hv & _) end.
    rewrite Hv. left. reflexivity.
  - left. reflexivity.
  - unfold exec_task. rewrite sendMessage_effect. cbn.
    destruct (_ || _)%bool; left; reflexivity.
  - left. reflexivity.
  - left. reflexivity.
  - unfold exec_task.
    destruct (resetChat_effect st) as (_ & Hs & _). right. left. exact Hs.
  - left. reflexivity.
  - destruct (take_pending id (pending (net st))) as [[k rest]|] eqn:Ht;
      [|left; reflexivity].
    destruct k; unfold exec_task.
    + destruct (initChat_settled_effect o (set_pending rest st))
        as (_ & [[Hv _]|(data & text & (r & -> & Hj & Hr) & Hv & _)]);
        rewrite Hv; [left; reflexivity|].
      right. right. exists data. split; [left; exists id, r; auto|].
      apply (Hfield data text Hr).
    + pose proof (sendMessage_settled_effect id o (set_pending rest st)) as E.
      cbn in E.
      destruct o as [|[ok [data|] dl]]; rewrite E; left; reflexivity.
    + left. reflexivity.
    + destruct (toggleLanguage_settled_effect o (set_pending rest st))
        as [[-> _]|(r & data & _ & _ & _ & _ & _ & _ & Hcase)];
        [left; reflexivity|].
      destruct Hcase as [[Hs _]|[Hs _]]; [left|right; left]; exact Hs.
    + destruct (resetChat_settled_effect o (set_pending rest st))
        as (_ & [[-> _]|(data & text & (r & -> & Hj & Hr) & Hv & _)]);
        [left; reflexivity|].
      rewrite Hv. right. right. exists data.
      split; [left; exists id, r; auto|]. apply (Hfield data text Hr).
    + destruct (downloadPDF_settled_effect o (set_pending rest st))
        as (Hv & _).
      rewrite Hv. left. reflexivity.
  - destruct (take_pending id (pending (net st))) as [[k rest]|] eqn:Ht;
      [|left; reflexivity].
    destruct k; try (left; reflexivity).
    unfold exec_task.
    destruct (sendMessage_delayed_effect data (set_pending rest st))
      as (_ & _ & _ & [(Hv & _)|(text & Hr & Hv & _)]);
      rewrite Hv; [left; reflexivity|].
    right. right. exists data.
    split; [right; exists id; eapply take_pending_in; eauto|].
    apply (Hfield data text Hr).
Qed.

(** [removeTyping] passes over a chat that has no element with the id. *)
Lemma remove_typing_past ids l l' :
  no_typing_id ids l = true ->
  remove_typing ids (l ++ l') = l ++ remove_typing ids l'.
Proof.
  induction l as [|n l IH]; [reflexivity|].
  unfold no_typing_id. cbn [forallb]. intros H.
  apply andb_true_iff in H. destruct H as (Hn & Hl).
  destruct n as [r html|r html k|];
    cbn [app remove_typing holds_typing_id] in *;
    [destruct (Nat.ltb 0 (ids html))|destruct (Nat.ltb k (ids html))|];
    try discriminate; rewrite (IH Hl); reflexivity.
Qed.

(** When no bubble holds an element with the id of the typing indicator,
    [removeTyping] removes the first typing indicator. *)
Lemma remove_typing_clean ids l :
  forallb (fun n => negb (holds_typing_id ids n)) l = true ->
  remove_typing ids l = drop_indicator l.
Proof.
  induction l as [|n l IH]; [reflexivity|].
  cbn [forallb]. intros H. apply andb_true_iff in H. destruct H as (Hn & Hl).
  destruct n as [r html|r html k|];
    cbn [remove_typing drop_indicator holds_typing_id] in *;
    [destruct (Nat.ltb 0 (ids html))|destruct (Nat.ltb k (ids html))|];
    try discriminate; try rewrite (IH Hl); reflexivity.
Qed.

(* ================================================================== *)
(** * The properties of the specification *)

(** C1, as the code has it.  When no chat turn is under way and the trimmed
    input is not empty, [sendMessage] issues one request, a POST to
    /api/chat whose body is made of exactly the trimmed text as [message]
    and of [currentLang] as [lang] (a member that is in the JSON text
    unless [currentLang] is [undefined]), and appends the text, formatted,
    as a user bubble (then the typing indicator).  When the body of the
    response is JSON with a string for its [response], the arrival changes
    nothing in the chat, and once the timer has fired the turn has called
    [removeTyping] and appended that text, formatted, as a bot bubble; an
    error bubble follows it, after a second call of [removeTyping], exactly
    when [updateHint] throws on the variables as the response has set
    them. *)
Theorem sendMessage_forwards_when_idle (st : State) (msg : jsstring)
    (Hr : reachable st)
    (Hm : trim (userInput_value (dom st)) = msg)
    (Hne : msg <> [])
    (Hidle : isProcessing (vars st) = false) :
  let id := List.length (requests (net st)) in
  let lang := currentLang (vars st) in
  let ids := typing_ids (dom st) in
  let st1 := handle st Send in
  requests (net st1) = requests (net st) ++ [chat_request msg lang]
  /\ endpoint_of (chat_request msg lang) = (POST, lit "/api/chat")
  /\ json_members (chat_request msg lang)
     = (lit "message", JStr msg)
       :: match lang with
          | JUndefined => []
          | _ => [(lit "lang", lang)]
          end
  /\ chatMessages (dom st1)
     = chatMessages (dom st)
       ++ [Message User (formatMessage msg); TypingIndicator]
  /\ forall r data text,
       res_json r = Some data ->
       field data (lit "response") = Some (JStr text) ->
       let st2 := handle st1 (Settle id (Response r)) in
       let st3 := handle st2 (Timer id) in
       let shown :=
         remove_typing ids (chatMessages (dom st1))
         ++ [Message Bot (formatMessage text)] in
       chatMessages (dom st2) = chatMessages (dom st1)
       /\ chatMessages (dom st3)
          = match fst (updateHint (with_vars (vars_after_chat data) st1)) with
            | Normal _ => shown
            | Throw =>
                remove_typing ids shown
                ++ [Message Bot (chat_error (currentLang (vars st3)))]
            end.
Proof.
  destruct msg as [|c msg]; [contradiction|].
  rewrite (handle_send_idle st c msg Hm Hidle).
  split; [reflexivity|]. split; [reflexivity|].
  split; [cbn; destruct (currentLang (vars st)); reflexivity|].
  split; [reflexivity|].
  intros r data text Hj Hf.
  unfold after_send at 1 3, net_after_fetch.
  cbn [handle net pending requests].
  rewrite (reachable_pending_fresh st KChat Hr).
  unfold exec_task.
  match goal with |- context [sendMessage_settled ?i ?o ?s] =>
    pose proof (sendMessage_settled_effect i o s) as E
  end.
  destruct r as [ok j dl]. cbn in Hj. subst j. cbn in E. rewrite E.
  split; [reflexivity|].
  cbn [set_pending with_net net pending requests].
  rewrite (reachable_pending_fresh st (KChatDelay data) Hr).
  match goal with |- context [sendMessage_delayed ?d ?s] =>
    destruct (sendMessage_delayed_effect d s)
      as (_ & _ & _ & [(_ & Hno & _)|(text' & Hf' & _ & Hc)])
  end.
  - exfalso. apply (Hno text). assumption.
  - assert (text' = text) by congruence. subst text'.
    match type of Hc with context [updateHint ?a] =>
      rewrite (updateHint_by_vars a
                 (with_vars (vars_after_chat data)
                    (after_send (c :: msg) st)) eq_refl) in Hc
    end.
    exact Hc.
Qed.

Lemma sendMessage_forwards_when_idle_witness :
  let st := run (initial example_page) [Load; Edit (lit " hi ")] in
  reachable st
  /\ trim (userInput_value (dom st)) = lit "hi"
  /\ lit "hi" <> []
  /\ isProcessing (vars st) = false
  /\ requests (net (handle st Send))
     = requests (net st) ++ [chat_request (lit "hi") (JStr (lit "my"))].
Proof.
  intros st.
  assert (R : reachable st).
  { exists example_page, [Load; Edit (lit " hi ")]. reflexivity. }
  assert (N : lit "hi" <> []) by discriminate.
  destruct (sendMessage_forwards_when_idle st (lit "hi") R eq_refl N eq_refl)
    as (Hq & _).
  repeat split; try assumption; try reflexivity.
Defined.

(** C1, as it is worded, fails: while a chat turn is under way a non-empty
    input is not forwarded. *)
Lemma busy_input_is_not_forwarded :
  let st := run (initial example_page)
              [Load; Edit (lit "one"); Send; Edit (lit "two")] in
  trim (userInput_value (dom st)) = lit "two"
  /\ lit "two" <> []
  /\ ~ forwards_input st.
Proof.
  split; [reflexivity|]. split; [discriminate|].
  intros (H & _). vm_compute in H. discriminate.
Qed.

(** C2, as the code has it.  After any trace, [currentState] is the literal
    'greeting' of the script (its initial value, which [resetChat] assigns
    again) or the [state] of the body of a response to a request for
    /api/init or /api/chat; and no event computes a state from the previous
    one: it keeps [currentState], assigns the literal, or assigns the
    [state] of a body the server sent. *)
Theorem currentState_is_greeting_or_server_state (d : Dom)
    (trace : list event) :
  let st := run (initial d) trace in
  (currentState (vars st) = JStr (lit "greeting")
   \/ exists id r data req,
        In (Settle id (Response r)) trace /\ res_json r = Some data
        /\ nth_error (requests (net st)) id = Some req
        /\ (endpoint_of req = (GET, lit "/api/init")
            \/ endpoint_of req = (POST, lit "/api/chat"))
        /\ field data (lit "state") = Some (currentState (vars st)))
  /\ forall e,
       let st' := handle st e in
       currentState (vars st') = currentState (vars st)
       \/ currentState (vars st') = JStr (lit "greeting")
       \/ exists data,
            (delivers e data \/ holds_for_timer st data)
            /\ field data (lit "state") = Some (currentState (vars st')).
Proof.
  split.
  - apply (inv_state _ _ _ (inv_run d trace)).
  - intros e. apply currentState_step.
Qed.

(** C2, as it is worded, fails: after a language switch [resetChat] has
    assigned 'greeting', which no response has supplied. *)
Lemma greeting_is_not_from_server :
  ~ mirrors_server asked_for_birthday
      (run (initial example_page) asked_for_birthday).
Proof.
  intros (data & (id & r & Hin & Hj) & Hf).
  cbn in Hin. unfold json_response in Hin.
  destruct Hin as [H|[H|[H|[H|[]]]]]; try discriminate;
    inversion H; subst; cbn in Hj; inversion Hj; subst;
    vm_compute in Hf; discriminate.
Qed.

(** C3, as the code has it.  For a parsed body with [lang] and [hints]
    read as [l] and [h] ([undefined] when the body has no such field):
    [initChat] and the callback of [resetChat], once the [response] has
    been shown, take [l] and [h] when they are truthy and keep the
    variables otherwise; [sendMessage] does so for [l] and never assigns
    [currentHints]; [toggleLanguage] assigns [l] to [currentLang] whatever
    it is, and to [currentHints] either [h], when truthy, or an empty
    table. *)
Theorem optional_fields_by_operation (st : State) (id : nat)
    (rest : list (nat * continuation)) (data l h : jsval)
    (Hl : field data (lit "lang") = Some l)
    (Hh : field data (lit "hints") = Some h) :
  (forall k r text,
     take_pending id (pending (net st)) = Some (k, rest) ->
     k = KInit \/ k = KReset ->
     res_json r = Some data ->
     field data (lit "response") = Some (JStr text) ->
     let st' := handle st (Settle id (Response r)) in
     currentLang (vars st') = (if truthy l then l else currentLang (vars st))
     /\ currentHints (vars st')
        = (if truthy h then h else currentHints (vars st)))
  /\ (forall text,
        take_pending id (pending (net st)) = Some (KChatDelay data, rest) ->
        field data (lit "response") = Some (JStr text) ->
        let st' := handle st (Timer id) in
        currentLang (vars st')
        = (if truthy l then l else currentLang (vars st))
        /\ currentHints (vars st') = currentHints (vars st))
  /\ (forall r,
        take_pending id (pending (net st)) = Some (KSetLang, rest) ->
        res_json r = Some data ->
        let st' := handle st (Settle id (Response r)) in
        currentLang (vars st') = l
        /\ currentHints (vars st') = (if truthy h then h else JObj [])).
Proof.
  split; [|split].
  - (* initChat, resetChat *)
    intros k r text Hp Hk Hj Hr. cbn. rewrite Hp. unfold exec_task.
    assert (Hs : shows (Response r) data text) by (exists r; auto).
    destruct Hk; subst k.
    + destruct (initChat_settled_effect (Response r) (set_pending rest st))
        as (_ & [[_ Hno]|(data' & text' & (r' & E & Hj' & _) & Hv & _)]).
      * exfalso. apply (Hno data text Hs).
      * inversion E; subst r'.
        assert (data' = data) by congruence. subst data'.
        rewrite Hv. cbn. unfold if_truthy.
        rewrite (field_some _ _ _ Hl), (field_some _ _ _ Hh).
        split; reflexivity.
    + destruct (resetChat_settled_effect (Response r) (set_pending rest st))
        as (_ & [[_ Hno]|(data' & text' & (r' & E & Hj' & _) & Hv & _)]).
      * exfalso. apply (Hno data text Hs).
      * inversion E; subst r'.
        assert (data' = data) by congruence. subst data'.
        rewrite Hv. cbn. unfold if_truthy.
        rewrite (field_some _ _ _ Hl), (field_some _ _ _ Hh).
        split; reflexivity.
  - (* sendMessage *)
    intros text Hp Hr. cbn. rewrite Hp. unfold exec_task.
    destruct (sendMessage_delayed_effect data (set_pending rest st))
      as (_ & _ & _ & [(_ & Hno & _)|(text' & _ & Hv & _)]).
    + exfalso. apply (Hno text). assumption.
    + rewrite Hv. cbn. unfold if_truthy.
      rewrite (field_some _ _ _ Hl). split; reflexivity.
  - (* toggleLanguage *)
    intros r Hp Hj. cbn. rewrite Hp. unfold exec_task.
    apply (toggleLanguage_settled_vars r data l h _ Hj Hl Hh).
Qed.

Lemma optional_fields_by_operation_witness :
  let st := run (initial example_page) greeted_with_hints in
  let data := JObj [(lit "lang", JStr (lit "en"))] in
  let st' := handle st (Settle 1 (json_response data)) in
  field data (lit "lang") = Some (JStr (lit "en"))
  /\ field data (lit "hints") = Some JUndefined
  /\ take_pending 1 (pending (net st)) = Some (KSetLang, [])
  /\ currentLang (vars st') = JStr (lit "en")
  /\ currentHints (vars st') = JObj [].
Proof.
  intros st data st'.
  destruct (optional_fields_by_operation st 1 [] data
              (JStr (lit "en")) JUndefined eq_refl eq_refl)
    as (_ & _ & H).
  split; [reflexivity|]. split; [reflexivity|]. split; [reflexivity|].
  apply (H {| res_ok := true; res_json := Some data;
              res_download := false |} eq_refl eq_refl).
Defined.

(** C3, as it is worded, fails: a response of [toggleLanguage] without
    [hints] does not leave [currentHints] as it was. *)
Lemma toggleLanguage_drops_hints :
  let st := run (initial example_page) greeted_with_hints in
  let data := JObj [(lit "lang", JStr (lit "en"))] in
  let st' := handle st (Settle 1 (json_response data)) in
  ~ keeps_absent_fields data st st'.
Proof.
  intros st data st' (_ & H). specialize (H eq_refl).
  vm_compute in H. discriminate.
Qed.

(** C4. Every request the page ever issues goes to one of four endpoints,
    GET /api/init, POST /api/chat, POST /api/set_lang and
    POST /api/generate-pdf; and each of the four is used. *)
Theorem requests_go_to_four_endpoints (d : Dom) (trace : list event) :
  Forall (fun r =>
            In (endpoint_of r)
              [(GET, lit "/api/init"); (POST, lit "/api/chat");
               (POST, lit "/api/set_lang"); (POST, lit "/api/generate-pdf")])
    (requests (net (run (initial d) trace)))
  /\ Forall (fun e =>
               In e (map endpoint_of
                       (requests
                          (net (run (initial d)
                                  [Load; Edit (lit "hi"); Send;
                                   ToggleLanguage; DownloadPDF])))))
       endpoints.
Proof.
  split.
  - apply (inv_requests _ _ _ (inv_run d trace)).
  - vm_compute. repeat constructor; tauto.
Qed.

(** C5. Chat turns are sequential: in every state the page can reach at
    most one chat turn is under way, one is under way exactly when
    [isProcessing] is true, and then a further call of [sendMessage]
    returns at once, with no request issued and no state changed. *)
Theorem chat_turns_sequential (st : State) (H : reachable st) :
  List.length (chat_in_flight st) <= 1
  /\ (isProcessing (vars st) = true <-> chat_in_flight st <> [])
  /\ (isProcessing (vars st) = true ->
      sendMessage st = (Normal tt, st) /\ handle st Send = st).
Proof.
  destruct (reachable_inv st H) as (tr & HI).
  pose proof (inv_turn _ _ _ HI) as Ht. fold (chat_in_flight st) in Ht.
  split; [|split; [split|]].
  - rewrite Ht. destruct (isProcessing (vars st)); lia.
  - intros Hp E. rewrite Hp, E in Ht. discriminate.
  - intros Hne. destruct (isProcessing (vars st)); [reflexivity|].
    destruct (chat_in_flight st); [contradiction|discriminate].
  - intros Hp. cbn. unfold exec_task.
    rewrite sendMessage_effect, Hp, orb_true_r. split; reflexivity.
Qed.

Lemma chat_turns_sequential_witness :
  let st := run (initial example_page)
              [Load; Edit (lit "hello"); Send; Edit (lit "again")] in
  reachable st
  /\ isProcessing (vars st) = true
  /\ List.length (chat_in_flight st) <= 1
  /\ handle st Send = st.
Proof.
  intros st.
  assert (R : reachable st).
  { exists example_page,
      [Load; Edit (lit "hello"); Send; Edit (lit "again")]. reflexivity. }
  split; [exact R|]. split; [reflexivity|].
  destruct (chat_turns_sequential st R) as (Hlen & _ & Hsend).
  split; [exact Hlen|]. apply Hsend. reflexivity.
Defined.

(** C6. There is no retry: when a pending request fails (the fetch rejects
    or the body is not JSON), handling the failure issues no request and
    starts no new await, whatever function was waiting; for [initChat] and
    [sendMessage] it calls [removeTyping] once and appends exactly one
    error bubble, in English when [currentLang] is 'en' and in Burmese
    otherwise.  The call of [removeTyping] takes the first typing indicator
    off the chat when no bubble holds an element with its id. *)
Theorem no_retry_after_failure (st : State) (id : nat) (k : continuation)
    (rest : list (nat * continuation)) (o : outcome)
    (Hp : take_pending id (pending (net st)) = Some (k, rest))
    (Hf : failed o) :
  let st' := handle st (Settle id o) in
  let ids := typing_ids (dom st) in
  requests (net st') = requests (net st)
  /\ (forall e, In e (pending (net st')) -> In e (pending (net st)))
  /\ (k = KInit ->
      chatMessages (dom st')
      = remove_typing ids (chatMessages (dom st))
        ++ [Message Bot (connect_error (currentLang (vars st)))])
  /\ (k = KChat ->
      chatMessages (dom st')
      = remove_typing ids (chatMessages (dom st))
        ++ [Message Bot (chat_error (currentLang (vars st)))])
  /\ (forallb (fun n => negb (holds_typing_id ids n)) (chatMessages (dom st))
      = true ->
      remove_typing ids (chatMessages (dom st))
      = drop_indicator (chatMessages (dom st))).
Proof.
  pose proof (take_pending_incl _ _ _ _ Hp) as Hin.
  cbn zeta. split; [|split; [|split; [|split]]];
    [| | | |apply remove_typing_clean];
    cbn [handle]; rewrite Hp; destruct k; unfold exec_task;
    rewrite ?(initChat_settled_failed _ _ Hf), ?initChat_catch_effect,
      ?(sendMessage_settled_failed _ _ _ Hf),
      ?(toggleLanguage_settled_failed _ _ Hf),
      ?(resetChat_settled_failed _ _ Hf);
    try (destruct (downloadPDF_settled_effect o (set_pending rest st))
           as (_ & Hn & _); rewrite Hn);
    cbn; auto; discriminate.
Qed.

Lemma no_retry_after_failure_witness :
  let st := run (initial example_page) [Load] in
  take_pending 0 (pending (net st)) = Some (KInit, [])
  /\ failed NetworkError
  /\ requests (net (handle st (Settle 0 NetworkError))) = requests (net st)
  /\ chatMessages (dom (handle st (Settle 0 NetworkError)))
     = [Message Bot err_connect_my].
Proof.
  intros st.
  destruct (no_retry_after_failure st 0 KInit [] NetworkError eq_refl I)
    as (Hr & _ & Hc & _).
  split; [reflexivity|]. split; [exact I|]. split; [exact Hr|].
  rewrite (Hc eq_refl). reflexivity.
Defined.

(** C7, as the code has it.  The script has four variables, and after any
    trace: [isProcessing] is true exactly while a chat turn is under way;
    [currentState] is 'greeting' or the [state] of a response;
    [currentLang] is the initial 'my' or the [lang] of a response;
    [currentHints] is an empty table or the [hints] of a response. *)
Theorem script_variables_sources (d : Dom) (trace : list event) :
  let st := run (initial d) trace in
  (isProcessing (vars st) = true <-> chat_in_flight st <> [])
  /\ state_source trace (net st) (currentState (vars st))
  /\ (currentLang (vars st) = JStr (lit "my")
      \/ from_server trace (lit "lang") (currentLang (vars st)))
  /\ (currentHints (vars st) = JObj []
      \/ from_server trace (lit "hints") (currentHints (vars st))).
Proof.
  pose proof (inv_run d trace) as I. cbn.
  split; [|split; [apply (inv_state _ _ _ I)
                  |split; [apply (inv_lang _ _ _ I)
                          |apply (inv_hints _ _ _ I)]]].
  pose proof (inv_turn _ _ _ I) as Ht.
  fold (chat_in_flight (run (initial d) trace)) in Ht.
  split.
  - intros Hp E. rewrite Hp, E in Ht. discriminate.
  - intros Hne. destruct (isProcessing _); [reflexivity|].
    destruct (chat_in_flight _); [contradiction|discriminate].
Qed.

(** C7, as it is worded, fails: [isProcessing] is a variable of the script
    too, and a call of [sendMessage] changes it. *)
Lemma sendMessage_changes_isProcessing :
  ~ only_three_mutable
      (run (initial example_page) [Load; Edit (lit "hi")]) Send.
Proof.
  unfold only_three_mutable. vm_compute. discriminate.
Qed.






(** C10. When the trimmed input is the empty string, [sendMessage] does
    nothing: the state after the call, with its variables, its input field,
    its chat and its requests, is the state before it. *)
Theorem sendMessage_blank_input_is_noop (st : State)
    (H : trim (userInput_value (dom st)) = []) :
  sendMessage st = (Normal tt, st) /\ handle st Send = st.
Proof.
  cbn. unfold exec_task. rewrite sendMessage_effect, H. cbn. auto.
Qed.

Lemma sendMessage_blank_input_is_noop_witness :
  let st := run (initial example_page) [Load; Edit (lit "   ")] in
  trim (userInput_value (dom st)) = []
  /\ sendMessage st = (Normal tt, st) /\ handle st Send = st.
Proof.
  split; [reflexivity|].
  apply (sendMessage_blank_input_is_noop
           (run (initial example_page) [Load; Edit (lit "   ")])).
  reflexivity.
Defined.

(* ================================================================== *)
(** * Further properties of the script *)

(** ** formatMessage: what the markup patterns do *)

Lemma free_of_app cs a b :
  free_of cs (a ++ b) = (free_of cs a && free_of cs b)%bool.
Proof. apply forallb_app. Qed.

Lemma free_of_not_in cs s c :
  free_of cs s = true -> In c cs -> ~ In c s.
Proof.
  unfold free_of. intros H Hc Hs.
  rewrite forallb_forall in H. specialize (H c Hs).
  apply negb_true_iff in H.
  assert (E : existsb (cu_eqb c) cs = true).
  { apply existsb_exists. exists c. split; [assumption|apply N.eqb_refl]. }
  congruence.
Qed.

Lemma free_of_entity cs d :
  forallb is_plain cs = true ->
  negb (existsb (cu_eqb d) cs) = true ->
  free_of cs (entity_of d) = true.
Proof.
  intros Hp Hd. unfold free_of. apply forallb_forall. intros c Hc.
  apply negb_true_iff. destruct (existsb (cu_eqb c) cs) eqn:E; [|reflexivity].
  apply existsb_exists in E. destruct E as (x & Hx & Hcx).
  apply N.eqb_eq in Hcx. subst x.
  rewrite forallb_forall in Hp. specialize (Hp c Hx).
  destruct (entity_of_plain c d Hp Hc) as [-> _].
  apply negb_true_iff in Hd.
  assert (E : existsb (cu_eqb c) cs = true).
  { apply existsb_exists. exists c. split; [assumption|apply N.eqb_refl]. }
  congruence.
Qed.

(** Escaping brings in none of a set of plain code units. *)
Lemma free_of_escaped cs s :
  forallb is_plain cs = true ->
  free_of cs s = true -> free_of cs (entity_escaped s) = true.
Proof.
  intros Hp. induction s as [|d s IH]; [reflexivity|].
  cbn [free_of forallb]. intros H. apply andb_true_iff in H.
  destruct H as [Hd Hs].
  change (entity_escaped (d :: s)) with (entity_of d ++ entity_escaped s).
  rewrite free_of_app, (free_of_entity cs d Hp Hd). cbn. apply IH. exact Hs.
Qed.

Lemma escaped_no_line_terminator s :
  free_of line_terminators s = true ->
  Forall (fun c => accepts AnyChar c = true) (entity_escaped s).
Proof.
  intros H. apply (free_of_escaped line_terminators s eq_refl) in H.
  apply Forall_forall. intros c Hc. cbn.
  unfold free_of in H. rewrite forallb_forall in H. apply (H c Hc).
Qed.

(** A pattern that opens with a code unit the text does not hold matches
    nowhere in it. *)
Lemma replace_keeps_prefix d r tpl p s :
  ~ In d p ->
  replace_from (One (Chr d) :: r) tpl 0 (p ++ s)
  = p ++ replace_from (One (Chr d) :: r) tpl 0 s.
Proof.
  induction p as [|c p IH]; intros H; [reflexivity|].
  cbn [app replace_from exec accepts].
  destruct (cu_eqb c d) eqn:E.
  - apply N.eqb_eq in E. subst c. exfalso. apply H. left. reflexivity.
  - rewrite IH; [reflexivity|]. intros Hin. apply H. right. assumption.
Qed.

Lemma replace_opener_absent d r tpl s :
  ~ In d s -> replace (One (Chr d) :: r) tpl s = s.
Proof.
  intros H. unfold replace.
  rewrite <- (app_nil_r s) at 1. rewrite (replace_keeps_prefix d r tpl s [] H).
  cbn. apply app_nil_r.
Qed.

Lemma separator_absent tpl s :
  ~ In c_box s -> replace re_separator tpl s = s.
Proof.
  intros H. apply replace_from_no_match. intros a b E.
  destruct b as [|c b]; [reflexivity|]. cbn.
  destruct (cu_eqb c c_box) eqn:Ec; [|reflexivity].
  apply N.eqb_eq in Ec. subst c. exfalso. apply H. rewrite E.
  apply in_or_app. right. left. reflexivity.
Qed.

(** After a match the scan goes on behind it. *)
Lemma replace_skips a r tpl s :
  replace_from r tpl (List.length a) (a ++ s) = replace_from r tpl 0 s.
Proof.
  induction a as [|c a IH]; [reflexivity|].
  destruct s as [|x s]; cbn [app List.length replace_from]; apply IH.
Qed.

Lemma replace_at_match r tpl c m rest caps :
  exec r (c :: m ++ rest) = Some (caps, rest) ->
  replace_from r tpl 0 (c :: m ++ rest)
  = expand tpl caps ++ replace_from r tpl 0 rest.
Proof.
  intros H. cbn [replace_from]. rewrite H.
  replace (List.length (c :: m ++ rest) - List.length rest)
    with (S (List.length m))
    by (cbn [List.length]; rewrite length_app; lia).
  rewrite replace_skips. reflexivity.
Qed.

(** The lazy star stops at the first place where what follows succeeds. *)
Lemma lazy_star_shortest a k t rest caps r :
  Forall (fun c => accepts a c = true) t ->
  (forall t1 c t2, t = t1 ++ c :: t2 -> k (c :: t2 ++ rest) = None) ->
  k rest = Some (caps, r) ->
  forall acc,
    lazy_star a k acc (t ++ rest) = Some ((rev acc ++ t) :: caps, r).
Proof.
  intros Ht Hk Hrest. induction t as [|c t IH]; intros acc.
  - cbn. destruct rest as [|x rest]; cbn; rewrite Hrest, app_nil_r;
      reflexivity.
  - cbn [app lazy_star].
    rewrite (Hk [] c t eq_refl).
    inversion Ht as [|? ? Hc Ht']; subst. rewrite Hc.
    rewrite IH; [|assumption|].
    + cbn. rewrite <- app_assoc. reflexivity.
    + intros t1 x t2 E. apply (Hk (c :: t1) x t2). cbn. congruence.
Qed.

Lemma free_of_subset big small s :
  forallb (fun c => existsb (cu_eqb c) big) small = true ->
  free_of big s = true -> free_of small s = true.
Proof.
  unfold free_of. rewrite !forallb_forall. intros Hsub H c Hc.
  specialize (H c Hc). apply negb_true_iff in H. apply negb_true_iff.
  destruct (existsb (cu_eqb c) small) eqn:E; [|reflexivity].
  apply existsb_exists in E. destruct E as (x & Hx & Hcx).
  specialize (Hsub x Hx). apply existsb_exists in Hsub.
  destruct Hsub as (y & Hy & Hxy).
  apply N.eqb_eq in Hcx, Hxy. subst.
  assert (E : existsb (cu_eqb y) big = true).
  { apply existsb_exists. exists y. split; [assumption|apply N.eqb_refl]. }
  congruence.
Qed.

(** An escaped text holds none of the openers its text does not hold. *)
Lemma escaped_free small x :
  forallb is_plain small = true ->
  forallb (fun c => existsb (cu_eqb c) markup_openers) small = true ->
  free_of markup_openers x = true ->
  free_of small (entity_escaped x) = true.
Proof.
  intros Hp Hsub H. apply free_of_escaped; [assumption|].
  apply (free_of_subset markup_openers); assumption.
Qed.

(** [d] is in none of the pieces of the goal's text. *)
Ltac opener_absent :=
  match goal with
  | |- ~ In ?d _ =>
      apply (free_of_not_in [d]); [|left; reflexivity];
      rewrite ?free_of_app;
      repeat (rewrite escaped_free by (reflexivity || assumption));
      reflexivity
  end.

Lemma free_of_middle d s t1 c t2 :
  free_of [d] s = true -> s = t1 ++ c :: t2 -> cu_eqb c d = false.
Proof.
  intros H ->. rewrite free_of_app in H. apply andb_true_iff in H.
  destruct H as [_ H]. cbn in H. apply andb_true_iff in H.
  destruct H as [H _]. destruct (cu_eqb c d); [discriminate|reflexivity].
Qed.

(** X1. A bold run: in a text whose only markup is one run between double
    asterisks, on one line, the run is wrapped in a strong element and the
    text around it and in it is entity-escaped. *)
Theorem formatMessage_bold (p t q : jsstring)
    (Hp : free_of markup_openers p = true)
    (Ht : free_of markup_openers t = true)
    (Hq : free_of markup_openers q = true)
    (Hline : free_of line_terminators t = true) :
  formatMessage (p ++ [c_star; c_star] ++ t ++ [c_star; c_star] ++ q)
  = entity_escaped p ++ lit "<strong>" ++ entity_escaped t
    ++ lit "</strong>" ++ entity_escaped q.
Proof.
  unfold formatMessage. rewrite escape_html_spec, !entity_escaped_app.
  change (entity_escaped [c_star; c_star]) with [c_star; c_star].
  unfold apply_markup.
  assert (Hexec :
    exec re_bold
      (c_star :: (c_star :: entity_escaped t ++ [c_star; c_star])
                 ++ entity_escaped q)
    = Some ([entity_escaped t], entity_escaped q)).
  { unfold re_bold. cbn [app exec accepts].
    change (cu_eqb c_star c_star) with true. cbn iota.
    rewrite <- app_assoc.
    rewrite (lazy_star_shortest AnyChar _ (entity_escaped t)
               ([c_star; c_star] ++ entity_escaped q) [] (entity_escaped q)).
    - reflexivity.
    - apply escaped_no_line_terminator. assumption.
    - intros t1 c t2 E. cbn [exec accepts].
      rewrite (free_of_middle c_star (entity_escaped t) t1 c t2);
        [reflexivity| |assumption].
      apply escaped_free; [reflexivity|reflexivity|assumption].
    - reflexivity. }
  assert (Hbold :
    replace re_bold
      [Lit (lit "<strong>"); Group 1; Lit (lit "</strong>")]
      (entity_escaped p ++ [c_star; c_star] ++ entity_escaped t
       ++ [c_star; c_star] ++ entity_escaped q)
    = entity_escaped p ++ lit "<strong>" ++ entity_escaped t
      ++ lit "</strong>" ++ entity_escaped q).
  { unfold replace, re_bold. rewrite replace_keeps_prefix by opener_absent.
    f_equal.
    replace ([c_star; c_star] ++ entity_escaped t ++ [c_star; c_star]
             ++ entity_escaped q)
      with (c_star :: (c_star :: entity_escaped t ++ [c_star; c_star])
                      ++ entity_escaped q)
      by (cbn; rewrite <- app_assoc; reflexivity).
    rewrite (replace_at_match _ _ _ _ _ _ Hexec).
    fold re_bold.
    change (replace_from re_bold ?tpl 0 ?s) with (replace re_bold tpl s).
    unfold re_bold. rewrite replace_opener_absent by opener_absent.
    cbn [expand flat_map nth pred]. rewrite <- !app_assoc. reflexivity. }
  rewrite Hbold.
  unfold re_italic, re_link, re_code.
  rewrite (replace_opener_absent c_underscore) by opener_absent.
  rewrite (replace_opener_absent c_lbracket) by opener_absent.
  rewrite (replace_opener_absent c_backtick) by opener_absent.
  rewrite separator_absent by opener_absent.
  reflexivity.
Qed.

Lemma formatMessage_bold_witness :
  free_of markup_openers (lit "so ") = true
  /\ free_of markup_openers (lit "1 < 2") = true
  /\ free_of markup_openers (lit " it is") = true
  /\ free_of line_terminators (lit "1 < 2") = true
  /\ formatMessage
       (lit "so " ++ [c_star; c_star] ++ lit "1 < 2" ++ [c_star; c_star]
          ++ lit " it is")
     = lit "so <strong>1 &lt; 2</strong> it is".
Proof.
  do 4 (split; [reflexivity|]).
  exact (formatMessage_bold (lit "so ") (lit "1 < 2") (lit " it is")
           eq_refl eq_refl eq_refl eq_refl).
Defined.

(** A pattern made of an opener, a lazy group on one line and the same
    code unit as closer, on a text with one such run. *)
Lemma fence_replace d a b P T Q :
  ~ In d P -> free_of [d] T = true -> ~ In d Q ->
  Forall (fun c => accepts AnyChar c = true) T ->
  replace [One (Chr d); LazyGroup AnyChar; One (Chr d)]
    [Lit a; Group 1; Lit b] (P ++ [d] ++ T ++ [d] ++ Q)
  = P ++ a ++ T ++ b ++ Q.
Proof.
  intros HP HT HQ Hline.
  assert (Hexec :
    exec [One (Chr d); LazyGroup AnyChar; One (Chr d)]
      (d :: (T ++ [d]) ++ Q) = Some ([T], Q)).
  { cbn [exec accepts]. unfold cu_eqb at 1. rewrite N.eqb_refl.
    rewrite <- app_assoc.
    rewrite (lazy_star_shortest AnyChar _ T ([d] ++ Q) [] Q).
    - reflexivity.
    - assumption.
    - intros t1 c t2 E. cbn [exec accepts].
      rewrite (free_of_middle d T t1 c t2 HT E). reflexivity.
    - cbn. unfold cu_eqb. rewrite N.eqb_refl. reflexivity. }
  unfold replace. rewrite replace_keeps_prefix by assumption. f_equal.
  replace ([d] ++ T ++ [d] ++ Q) with (d :: (T ++ [d]) ++ Q)
    by (cbn; rewrite <- app_assoc; reflexivity).
  rewrite (replace_at_match _ _ _ _ _ _ Hexec).
  change (replace_from ?r ?tpl 0 Q) with (replace r tpl Q).
  rewrite replace_opener_absent by assumption.
  cbn [expand flat_map nth pred]. rewrite <- !app_assoc. reflexivity.
Qed.

(** X2. Emphasis and inline code: in a text whose only markup is one run
    between underscores, or between backticks, on one line, the run is
    wrapped in an em, or a code, element and the rest is entity-escaped; so
    an identifier written with underscores is shown partly in italics. *)
Theorem formatMessage_italic_and_code (p t q : jsstring)
    (Hp : free_of markup_openers p = true)
    (Ht : free_of markup_openers t = true)
    (Hq : free_of markup_openers q = true)
    (Hline : free_of line_terminators t = true) :
  formatMessage (p ++ [c_underscore] ++ t ++ [c_underscore] ++ q)
  = entity_escaped p ++ lit "<em>" ++ entity_escaped t
    ++ lit "</em>" ++ entity_escaped q
  /\ formatMessage (p ++ [c_backtick] ++ t ++ [c_backtick] ++ q)
     = entity_escaped p ++ lit "<code>" ++ entity_escaped t
       ++ lit "</code>" ++ entity_escaped q.
Proof.
  pose proof (escaped_no_line_terminator t Hline) as Hany.
  split; unfold formatMessage; rewrite escape_html_spec, !entity_escaped_app.
  - change (entity_escaped [c_underscore]) with [c_underscore].
    unfold apply_markup, re_bold, re_italic, re_link, re_code.
    rewrite (replace_opener_absent c_star) by opener_absent.
    rewrite fence_replace;
      [|opener_absent
       |apply escaped_free; [reflexivity|reflexivity|assumption]
       |opener_absent|assumption].
    rewrite (replace_opener_absent c_lbracket) by opener_absent.
    rewrite (replace_opener_absent c_backtick) by opener_absent.
    rewrite separator_absent by opener_absent.
    reflexivity.
  - change (entity_escaped [c_backtick]) with [c_backtick].
    unfold apply_markup, re_bold, re_italic, re_link, re_code.
    rewrite (replace_opener_absent c_star) by opener_absent.
    rewrite (replace_opener_absent c_underscore) by opener_absent.
    rewrite (replace_opener_absent c_lbracket) by opener_absent.
    rewrite fence_replace;
      [|opener_absent
       |apply escaped_free; [reflexivity|reflexivity|assumption]
       |opener_absent|assumption].
    rewrite separator_absent by opener_absent.
    reflexivity.
Qed.

Lemma formatMessage_italic_and_code_witness :
  free_of markup_openers (lit "see ") = true
  /\ free_of markup_openers (lit "a & b") = true
  /\ free_of markup_openers (lit ".") = true
  /\ free_of line_terminators (lit "a & b") = true
  /\ formatMessage
       (lit "see " ++ [c_underscore] ++ lit "a & b" ++ [c_underscore]
          ++ lit ".")
     = lit "see <em>a &amp; b</em>."
  /\ formatMessage
       (lit "see " ++ [c_backtick] ++ lit "a & b" ++ [c_backtick]
          ++ lit ".")
     = lit "see <code>a &amp; b</code>.".
Proof.
  do 4 (split; [reflexivity|]).
  exact (formatMessage_italic_and_code (lit "see ") (lit "a & b") (lit ".")
           eq_refl eq_refl eq_refl eq_refl).
Defined.

(** X3. A link: in a text whose only markup is one bracketed text followed
    by a parenthesised address, each on one line, the text becomes the
    content of an anchor and the address its href; the address is
    entity-escaped and otherwise copied as it is, a double quote included,
    which ends the attribute. *)
Theorem formatMessage_link (p t u q : jsstring)
    (Hp : free_of markup_openers p = true)
    (Ht : free_of markup_openers t = true)
    (Hu : free_of markup_openers u = true)
    (Hq : free_of markup_openers q = true)
    (Ht_line : free_of line_terminators t = true)
    (Hu_line : free_of line_terminators u = true)
    (Ht_close : free_of [c_rbracket] t = true)
    (Hu_close : free_of [c_rparen] u = true) :
  formatMessage
    (p ++ [c_lbracket] ++ t ++ [c_rbracket; c_lparen] ++ u
       ++ [c_rparen] ++ q)
  = entity_escaped p
    ++ (lit "<a href=" ++ [c_dquote]) ++ entity_escaped u
    ++ ([c_dquote] ++ lit " style=" ++ [c_dquote]
        ++ lit "color: var(--accent-gold); text-decoration: underline;"
        ++ [c_dquote] ++ lit ">")
    ++ entity_escaped t ++ lit "</a>" ++ entity_escaped q.
Proof.
  pose proof (escaped_no_line_terminator t Ht_line) as Hany_t.
  pose proof (escaped_no_line_terminator u Hu_line) as Hany_u.
  pose proof (free_of_escaped [c_rbracket] t eq_refl Ht_close) as Ht'.
  pose proof (free_of_escaped [c_rparen] u eq_refl Hu_close) as Hu'.
  unfold formatMessage. rewrite escape_html_spec, !entity_escaped_app.
  change (entity_escaped [c_lbracket]) with [c_lbracket].
  change (entity_escaped [c_rbracket; c_lparen])
    with [c_rbracket; c_lparen].
  change (entity_escaped [c_rparen]) with [c_rparen].
  set (T := entity_escaped t) in *. set (U := entity_escaped u) in *.
  set (P := entity_escaped p). set (Q := entity_escaped q).
  assert (Hinner :
    lazy_star AnyChar (exec [One (Chr c_rparen)]) [] (U ++ [c_rparen] ++ Q)
    = Some ([U], Q)).
  { rewrite (lazy_star_shortest AnyChar _ U ([c_rparen] ++ Q) [] Q).
    - reflexivity.
    - assumption.
    - intros t1 c t2 E. cbn [exec accepts].
      rewrite (free_of_middle c_rparen U t1 c t2 Hu' E). reflexivity.
    - reflexivity. }
  assert (Hexec :
    exec re_link
      (c_lbracket :: (T ++ [c_rbracket; c_lparen] ++ U ++ [c_rparen]) ++ Q)
    = Some ([T; U], Q)).
  { unfold re_link. cbn [exec accepts].
    change (cu_eqb c_lbracket c_lbracket) with true. cbn iota.
    rewrite <- !app_assoc.
    rewrite (lazy_star_shortest AnyChar _ T
               ([c_rbracket; c_lparen] ++ U ++ [c_rparen] ++ Q) [U] Q).
    - reflexivity.
    - assumption.
    - intros t1 c t2 E. cbn [exec accepts].
      rewrite (free_of_middle c_rbracket T t1 c t2 Ht' E). reflexivity.
    - exact Hinner. }
  unfold apply_markup, re_bold, re_italic, re_code.
  subst T U P Q.
  rewrite (replace_opener_absent c_star) by opener_absent.
  rewrite (replace_opener_absent c_underscore) by opener_absent.
  assert (Hlink :
    replace re_link tpl_link
      (entity_escaped p ++ [c_lbracket] ++ entity_escaped t
       ++ [c_rbracket; c_lparen] ++ entity_escaped u ++ [c_rparen]
       ++ entity_escaped q)
    = entity_escaped p
      ++ (lit "<a href=" ++ [c_dquote]) ++ entity_escaped u
      ++ ([c_dquote] ++ lit " style=" ++ [c_dquote]
          ++ lit "color: var(--accent-gold); text-decoration: underline;"
          ++ [c_dquote] ++ lit ">")
      ++ entity_escaped t ++ lit "</a>" ++ entity_escaped q).
  { unfold replace, re_link.
    rewrite replace_keeps_prefix by opener_absent. f_equal.
    replace ([c_lbracket] ++ entity_escaped t ++ [c_rbracket; c_lparen]
             ++ entity_escaped u ++ [c_rparen] ++ entity_escaped q)
      with (c_lbracket
            :: (entity_escaped t ++ [c_rbracket; c_lparen]
                ++ entity_escaped u ++ [c_rparen]) ++ entity_escaped q)
      by (repeat (cbn [app] || rewrite <- app_assoc); reflexivity).
    rewrite (replace_at_match _ _ _ _ _ _ Hexec).
    pose proof (replace_opener_absent c_lbracket
                  [LazyGroup AnyChar; One (Chr c_rbracket);
                   One (Chr c_lparen); LazyGroup AnyChar;
                   One (Chr c_rparen)]
                  tpl_link (entity_escaped q) ltac:(opener_absent)) as Hrest.
    unfold replace in Hrest. unfold re_link. rewrite Hrest.
    unfold tpl_link. cbn [expand flat_map nth pred].
    rewrite <- !app_assoc. reflexivity. }
  rewrite Hlink.
  rewrite (replace_opener_absent c_backtick) by opener_absent.
  rewrite separator_absent by opener_absent.
  reflexivity.
Qed.

Lemma formatMessage_link_witness :
  free_of markup_openers (lit "go to ") = true
  /\ free_of markup_openers (lit "the page") = true
  /\ free_of markup_openers (lit "/a?b=1&c=2") = true
  /\ free_of markup_openers (lit " now") = true
  /\ free_of line_terminators (lit "the page") = true
  /\ free_of line_terminators (lit "/a?b=1&c=2") = true
  /\ free_of [c_rbracket] (lit "the page") = true
  /\ free_of [c_rparen] (lit "/a?b=1&c=2") = true
  /\ formatMessage
       (lit "go to " ++ [c_lbracket] ++ lit "the page"
          ++ [c_rbracket; c_lparen] ++ lit "/a?b=1&c=2" ++ [c_rparen]
          ++ lit " now")
     = lit "go to <a href=" ++ [c_dquote] ++ lit "/a?b=1&amp;c=2"
       ++ [c_dquote] ++ lit " style=" ++ [c_dquote]
       ++ lit "color: var(--accent-gold); text-decoration: underline;"
       ++ [c_dquote] ++ lit ">the page</a> now".
Proof.
  do 8 (split; [reflexivity|]).
  exact (formatMessage_link (lit "go to ") (lit "the page")
           (lit "/a?b=1&c=2") (lit " now")
           eq_refl eq_refl eq_refl eq_refl eq_refl eq_refl eq_refl eq_refl).
Defined.

Lemma free_of_repeat cs c n :
  negb (existsb (cu_eqb c) cs) = true -> free_of cs (repeat c n) = true.
Proof.
  intros H. induction n as [|n IH]; [reflexivity|].
  cbn [repeat free_of forallb]. rewrite H. exact IH.
Qed.

(** The greedy repetition on a run of [m] lines that nothing extends. *)
Lemma separator_run m Q :
  ~ In c_box Q ->
  forall seen,
    at_least 3 (Chr c_box) (exec []) seen (repeat c_box m ++ Q)
    = if 3 <=? seen + m then Some ([], Q) else None.
Proof.
  intros HQ. induction m as [|m IH]; intros seen.
  - rewrite Nat.add_0_r. destruct Q as [|c Q]; [reflexivity|].
    cbn [repeat app at_least accepts].
    destruct (cu_eqb c c_box) eqn:E; [|reflexivity].
    apply N.eqb_eq in E. subst c. exfalso. apply HQ. left. reflexivity.
  - cbn [repeat app at_least accepts].
    change (cu_eqb c_box c_box) with true. cbn iota.
    rewrite IH. replace (S seen + m) with (seen + S m) by lia.
    destruct (3 <=? seen + S m) eqn:L; [reflexivity|].
    apply Nat.leb_gt in L.
    destruct (3 <=? seen) eqn:L'; [|reflexivity].
    apply Nat.leb_le in L'. lia.
Qed.

Lemma separator_keeps_prefix tpl P s :
  ~ In c_box P ->
  replace_from re_separator tpl 0 (P ++ s)
  = P ++ replace_from re_separator tpl 0 s.
Proof.
  induction P as [|c P IH]; intros H; [reflexivity|].
  cbn [app replace_from re_separator exec at_least accepts].
  destruct (cu_eqb c c_box) eqn:E.
  - apply N.eqb_eq in E. subst c. exfalso. apply H. left. reflexivity.
  - cbn. f_equal. apply IH. intros Hin. apply H. right. assumption.
Qed.

Lemma separator_short_run tpl n Q :
  ~ In c_box Q -> n < 3 ->
  replace_from re_separator tpl 0 (repeat c_box n ++ Q)
  = repeat c_box n ++ Q.
Proof.
  intros HQ. induction n as [|n IH]; intros Hn.
  - cbn [repeat app]. apply (separator_absent tpl Q HQ).
  - pose proof (separator_run (S n) Q HQ 0) as E.
    cbn [repeat app] in *. cbn [replace_from].
    change (exec re_separator (c_box :: repeat c_box n ++ Q))
      with (at_least 3 (Chr c_box) (exec []) 0
              (c_box :: repeat c_box n ++ Q)).
    rewrite E. replace (3 <=? 0 + S n) with false
      by (symmetry; apply Nat.leb_gt; lia).
    f_equal. apply IH. lia.
Qed.

(** X4. The separator: in a text with no other markup, a run of three or
    more box-drawing double lines becomes one separator element, whatever
    its length; a run of one or two is left as it is. *)
Theorem formatMessage_separator (p q : jsstring) (n : nat)
    (Hp : free_of markup_openers p = true)
    (Hq : free_of markup_openers q = true) :
  formatMessage (p ++ repeat c_box n ++ q)
  = entity_escaped p
    ++ (if 3 <=? n
        then lit "<span class=" ++ [c_dquote] ++ lit "msg-separator"
             ++ [c_dquote] ++ lit "></span>"
        else repeat c_box n)
    ++ entity_escaped q.
Proof.
  assert (Hboxes : entity_escaped (repeat c_box n) = repeat c_box n).
  { induction n as [|n IH]; [reflexivity|].
    cbn [repeat]. change (entity_escaped (c_box :: repeat c_box n))
      with (entity_of c_box ++ entity_escaped (repeat c_box n)).
    rewrite IH. reflexivity. }
  assert (Habsent : forall d,
            In d [c_star; c_underscore; c_lbracket; c_backtick] ->
            ~ In d (entity_escaped p ++ repeat c_box n ++ entity_escaped q)).
  { intros d Hd. apply (free_of_not_in [d]); [|left; reflexivity].
    cbn in Hd.
    destruct Hd as [<-|[<-|[<-|[<-|[]]]]];
      rewrite !free_of_app, free_of_repeat by reflexivity;
      repeat (rewrite escaped_free by (reflexivity || assumption));
      reflexivity. }
  assert (HQ : ~ In c_box (entity_escaped q)) by opener_absent.
  assert (HP : ~ In c_box (entity_escaped p)) by opener_absent.
  unfold formatMessage. rewrite escape_html_spec, !entity_escaped_app, Hboxes.
  unfold apply_markup, re_bold, re_italic, re_link, re_code.
  rewrite (replace_opener_absent c_star) by (apply Habsent; cbn; tauto).
  rewrite (replace_opener_absent c_underscore)
    by (apply Habsent; cbn; tauto).
  rewrite (replace_opener_absent c_lbracket) by (apply Habsent; cbn; tauto).
  rewrite (replace_opener_absent c_backtick) by (apply Habsent; cbn; tauto).
  unfold replace. rewrite separator_keeps_prefix by assumption. f_equal.
  destruct (3 <=? n) eqn:L.
  - apply Nat.leb_le in L. destruct n as [|n]; [lia|].
    pose proof (separator_run (S n) (entity_escaped q) HQ 0) as E.
    replace (3 <=? 0 + S n) with true in E
      by (symmetry; apply Nat.leb_le; lia).
    cbn [repeat app] in *.
    rewrite (replace_at_match re_separator tpl_separator c_box
               (repeat c_box n) (entity_escaped q) [] E).
    pose proof (separator_absent tpl_separator (entity_escaped q) HQ) as Hr.
    unfold replace in Hr. rewrite Hr.
    unfold tpl_separator. cbn [expand flat_map]. rewrite app_nil_r.
    reflexivity.
  - apply Nat.leb_gt in L.
    apply separator_short_run; assumption.
Qed.

Lemma formatMessage_separator_witness :
  free_of markup_openers (lit "above") = true
  /\ free_of markup_openers (lit "below") = true
  /\ formatMessage (lit "above" ++ repeat c_box 4 ++ lit "below")
     = lit "above<span class=" ++ [c_dquote] ++ lit "msg-separator"
       ++ [c_dquote] ++ lit "></span>below"
  /\ formatMessage (lit "above" ++ repeat c_box 2 ++ lit "below")
     = lit "above" ++ [c_box; c_box] ++ lit "below".
Proof.
  do 2 (split; [reflexivity|]).
  split.
  - exact (formatMessage_separator (lit "above") (lit "below") 4
             eq_refl eq_refl).
  - exact (formatMessage_separator (lit "above") (lit "below") 2
             eq_refl eq_refl).
Defined.

(** ** formatMessage: escaping loses nothing *)

Lemma entity_of_cases d :
  (d = c_amp /\ entity_of d = lit "&amp;")
  \/ (d = c_lt /\ entity_of d = lit "&lt;")
  \/ (d = c_gt /\ entity_of d = lit "&gt;")
  \/ (d <> c_amp /\ entity_of d = [d]).
Proof.
  unfold entity_of.
  destruct (cu_eqb d c_amp) eqn:E1;
    [apply N.eqb_eq in E1; subst; left; split; reflexivity|].
  destruct (cu_eqb d c_lt) eqn:E2;
    [apply N.eqb_eq in E2; subst; right; left; split; reflexivity|].
  destruct (cu_eqb d c_gt) eqn:E3;
    [apply N.eqb_eq in E3; subst; right; right; left; split; reflexivity|].
  right. right. right. split; [|reflexivity].
  apply N.eqb_neq. exact E1.
Qed.

Lemma entity_of_prefix_free c d x y :
  entity_of c ++ x = entity_of d ++ y -> c = d /\ x = y.
Proof.
  destruct (entity_of_cases c) as [[-> ->]|[[-> ->]|[[-> ->]|[Hc ->]]]];
    destruct (entity_of_cases d) as [[-> ->]|[[-> ->]|[[-> ->]|[Hd ->]]]];
    cbn; intros H; inversion H; subst; try (split; reflexivity);
    try discriminate; try (exfalso; apply Hd; reflexivity);
    try (exfalso; apply Hc; reflexivity).
Qed.

(** X5. Escaping is one-to-one: two texts with the same escaped form are
    the same text, so the escaped form of a bubble determines what was
    sent. *)
Theorem escape_html_injective (s1 s2 : jsstring)
    (H : escape_html s1 = escape_html s2) :
  s1 = s2.
Proof.
  rewrite !escape_html_spec in H. revert s2 H.
  induction s1 as [|c s1 IH]; intros [|d s2] H.
  - reflexivity.
  - exfalso. cbn in H. symmetry in H. apply app_eq_nil in H.
    destruct H as [H _]. exact (entity_of_not_nil d H).
  - exfalso. cbn in H. apply app_eq_nil in H.
    destruct H as [H _]. exact (entity_of_not_nil c H).
  - change (entity_of c ++ entity_escaped s1
            = entity_of d ++ entity_escaped s2) in H.
    apply entity_of_prefix_free in H. destruct H as [-> H].
    f_equal. apply IH. exact H.
Qed.

Lemma escape_html_injective_witness :
  escape_html (lit "a<b") = escape_html [97; 60; 98]%N
  /\ lit "a<b" = [97; 60; 98]%N.
Proof.
  split; [reflexivity|].
  exact (escape_html_injective (lit "a<b") [97; 60; 98]%N eq_refl).
Defined.

(** ** Reasoning on a function body by its parts *)
Section Keeps.

Variable R : State -> State -> Prop.
Hypothesis R_refl : forall st, R st st.
Hypothesis R_trans : forall a b c, R a b -> R b c -> R a c.

Lemma keeps_ret {A} (a : A) : keeps R (ret a).
Proof. intros st. apply R_refl. Qed.

Lemma keeps_throw {A} : keeps R (@throw A).
Proof. intros st. apply R_refl. Qed.

Lemma keeps_gets {A} (f : State -> A) : keeps R (gets f).
Proof. intros st. apply R_refl. Qed.

Lemma keeps_or_throw {A} (o : option A) : keeps R (or_throw o).
Proof. destruct o; [apply keeps_ret|apply keeps_throw]. Qed.

Lemma keeps_modify f : (forall st, R st (f st)) -> keeps R (modify f).
Proof. intros H st. apply H. Qed.

Lemma keeps_bind {A B} (m : M A) (f : A -> M B) :
  keeps R m -> (forall a, keeps R (f a)) -> keeps R (bind m f).
Proof.
  intros Hm Hf st. unfold bind. specialize (Hm st).
  destruct (m st) as [[a|] st1]; cbn in *; [|assumption].
  apply R_trans with (b := st1); [assumption|apply Hf].
Qed.

Lemma keeps_try_catch {A} (body handler : M A) :
  keeps R body -> keeps R handler -> keeps R (try_catch body handler).
Proof.
  intros Hb Hh st. unfold try_catch. specialize (Hb st).
  destruct (body st) as [[a|] st1]; cbn in *; [assumption|].
  apply R_trans with (b := st1); [assumption|apply Hh].
Qed.

End Keeps.

Lemma response_data_keeps R o :
  (forall st, R st st) -> keeps R (response_data o).
Proof.
  intros Hr. destruct o; [apply keeps_throw|apply keeps_or_throw];
    assumption.
Qed.

Lemma format_content_keeps R content :
  (forall st, R st st) -> keeps R (format_content content).
Proof.
  intros Hr. destruct content; first [apply keeps_ret|apply keeps_throw];
    assumption.
Qed.

(** The body of the goal is taken apart: a part that is known is settled by
    [known], the others by the lemmas above. *)
Ltac keeps_parts known refl trans :=
  repeat first
    [ known
    | apply (keeps_ret _ refl)
    | apply (keeps_throw _ refl)
    | apply (keeps_gets _ refl)
    | apply (keeps_or_throw _ refl)
    | apply (response_data_keeps _ _ refl)
    | apply (format_content_keeps _ _ refl)
    | apply (keeps_bind _ trans); [|intros ?]
    | apply (keeps_try_catch _ trans)
    | match goal with
      | |- keeps _ (if ?b then _ else _) => destruct b
      | |- keeps _ (match ?x with _ => _ end) => destruct x
      end ].

(** ** What the handling of a response leaves alone *)

Lemma steady_refl st : steady st st.
Proof. repeat split. Qed.

Lemma steady_trans a b c : steady a b -> steady b c -> steady a c.
Proof. unfold steady. intuition congruence. Qed.

Lemma no_new_typing_refl st : no_new_typing st st.
Proof. unfold no_new_typing. lia. Qed.

Lemma no_new_typing_trans a b c :
  no_new_typing a b -> no_new_typing b c -> no_new_typing a c.
Proof. unfold no_new_typing. lia. Qed.

Lemma same_lang_ui_refl st : same_lang_ui st st.
Proof. split; reflexivity. Qed.

Lemma same_lang_ui_trans a b c :
  same_lang_ui a b -> same_lang_ui b c -> same_lang_ui a c.
Proof. unfold same_lang_ui. intuition congruence. Qed.

Lemma chrome_steady st st' : same_but_chrome st st' -> steady st st'.
Proof.
  intros (Hv & _ & _ & Hi & Hb & Hm & Hs & _). unfold steady.
  rewrite Hv. auto.
Qed.

Lemma chrome_no_new_typing st st' :
  same_but_chrome st st' -> no_new_typing st st'.
Proof.
  intros (_ & _ & Hc & _). unfold no_new_typing. rewrite Hc. lia.
Qed.

Lemma count_typing_snoc_message l r html :
  count_typing (l ++ [Message r html]) = count_typing l.
Proof.
  unfold count_typing. rewrite filter_app, length_app. cbn. lia.
Qed.

Lemma count_typing_snoc_typing l :
  count_typing (l ++ [TypingIndicator]) = S (count_typing l).
Proof.
  unfold count_typing. rewrite filter_app, length_app. cbn. lia.
Qed.

Lemma strips_app l l' : strips (l ++ l') = strips l + strips l'.
Proof.
  induction l as [|n l IH]; [reflexivity|].
  destruct n; cbn [app strips]; rewrite IH; lia.
Qed.

Lemma strips_snoc_message l r html :
  strips (l ++ [Message r html]) = strips l.
Proof. rewrite strips_app. cbn. lia. Qed.

Lemma strips_snoc_typing l : strips (l ++ [TypingIndicator]) = strips l.
Proof. rewrite strips_app. cbn. lia. Qed.

(** A call of [removeTyping] takes a typing indicator away if there is one,
    unless it takes an element out of a bubble. *)
Lemma count_typing_remove ids l :
  count_typing (remove_typing ids l) + strips l
  <= pred (count_typing l) + strips (remove_typing ids l).
Proof.
  induction l as [|n l IH]; [cbn; lia|].
  destruct n as [r html|r html k|]; cbn [remove_typing].
  - destruct (Nat.ltb 0 (ids html)).
    + change (count_typing (Stripped r html 1 :: l)) with (count_typing l).
      change (count_typing (Message r html :: l)) with (count_typing l).
      cbn [strips]. lia.
    + change (count_typing (Message r html :: remove_typing ids l))
        with (count_typing (remove_typing ids l)).
      change (count_typing (Message r html :: l)) with (count_typing l).
      cbn [strips]. exact IH.
  - destruct (Nat.ltb k (ids html)).
    + change (count_typing (Stripped r html (S k) :: l))
        with (count_typing l).
      change (count_typing (Stripped r html k :: l)) with (count_typing l).
      cbn [strips]. lia.
    + change (count_typing (Stripped r html k :: remove_typing ids l))
        with (count_typing (remove_typing ids l)).
      change (count_typing (Stripped r html k :: l)) with (count_typing l).
      cbn [strips]. lia.
  - change (count_typing (TypingIndicator :: l)) with (S (count_typing l)).
    cbn [strips pred]. lia.
Qed.

Create HintDb steady_db.
Create HintDb typing_db.

Ltac keeps_steady :=
  keeps_parts ltac:(solve [auto 1 with steady_db nocore])
              steady_refl steady_trans;
  try match goal with
      | |- keeps _ (modify _) => apply keeps_modify; intros ?; repeat split
      end;
  auto with steady_db.

Ltac keeps_typing :=
  keeps_parts ltac:(solve [auto 1 with typing_db nocore])
              no_new_typing_refl no_new_typing_trans;
  try match goal with
      | |- keeps _ (modify _) =>
          apply keeps_modify; intros ?; unfold no_new_typing;
          cbn -[count_typing strips remove_typing];
          rewrite ?count_typing_snoc_message, ?strips_snoc_message;
          try match goal with
              | |- context [remove_typing ?ids ?l] =>
                  pose proof (count_typing_remove ids l)
              end;
          lia
      end;
  auto with typing_db.

Lemma updateHint_steady : keeps steady updateHint.
Proof. intros st. apply chrome_steady, updateHint_chrome. Qed.

Lemma updateLangUI_steady : keeps steady updateLangUI.
Proof. intros st. apply chrome_steady, updateLangUI_chrome. Qed.

Lemma updateHint_typing : keeps no_new_typing updateHint.
Proof. intros st. apply chrome_no_new_typing, updateHint_chrome. Qed.

Lemma updateLangUI_typing : keeps no_new_typing updateLangUI.
Proof. intros st. apply chrome_no_new_typing, updateLangUI_chrome. Qed.

#[local] Hint Resolve updateHint_steady updateLangUI_steady : steady_db.
#[local] Hint Resolve updateHint_typing updateLangUI_typing : typing_db.

Lemma append_node_steady n : keeps steady (append_node n).
Proof. unfold append_node. keeps_steady. Qed.

Lemma append_message_typing r html :
  keeps no_new_typing (append_node (Message r html)).
Proof. unfold append_node. keeps_typing. Qed.

#[local] Hint Resolve append_node_steady : steady_db.
#[local] Hint Resolve append_message_typing : typing_db.

Lemma addMessage_steady r content : keeps steady (addMessage r content).
Proof. unfold addMessage, format_content, append_node. keeps_steady. Qed.

Lemma addMessage_typing r content :
  keeps no_new_typing (addMessage r content).
Proof. unfold addMessage, format_content, append_node. keeps_typing. Qed.

Lemma removeTyping_steady : keeps steady removeTyping.
Proof. unfold removeTyping. keeps_steady. Qed.

Lemma removeTyping_typing : keeps no_new_typing removeTyping.
Proof. unfold removeTyping. keeps_typing. Qed.

Lemma showTyping_steady : keeps steady showTyping.
Proof. unfold showTyping, append_node. keeps_steady. Qed.

Lemma take_state_lang_hints_steady data :
  keeps steady (take_state_lang_hints data).
Proof. unfold take_state_lang_hints. keeps_steady. Qed.

Lemma take_state_lang_hints_typing data :
  keeps no_new_typing (take_state_lang_hints data).
Proof. unfold take_state_lang_hints. keeps_typing. Qed.

Lemma fetch_steady r k : keeps steady (fetch r k).
Proof. unfold fetch. keeps_steady. Qed.

Lemma fetch_typing r k : keeps no_new_typing (fetch r k).
Proof. unfold fetch. keeps_typing. Qed.

#[local] Hint Resolve fetch_steady : steady_db.
#[local] Hint Resolve fetch_typing : typing_db.

Lemma get_init_steady k : keeps steady (get_init k).
Proof. unfold get_init, init_url, fetch. keeps_steady. Qed.

Lemma get_init_typing k : keeps no_new_typing (get_init k).
Proof. unfold get_init, init_url, fetch. keeps_typing. Qed.

#[local] Hint Resolve addMessage_steady removeTyping_steady showTyping_steady
  take_state_lang_hints_steady get_init_steady : steady_db.
#[local] Hint Resolve addMessage_typing removeTyping_typing
  take_state_lang_hints_typing get_init_typing : typing_db.

Lemma resetChat_steady : keeps steady resetChat.
Proof. unfold resetChat. keeps_steady. Qed.

Lemma initChat_catch_steady : keeps steady initChat_catch.
Proof. unfold initChat_catch. keeps_steady. Qed.

Lemma initChat_catch_typing : keeps no_new_typing initChat_catch.
Proof. unfold initChat_catch. keeps_typing. Qed.

Lemma sendMessage_catch_typing : keeps no_new_typing sendMessage_catch.
Proof. unfold sendMessage_catch. keeps_typing. Qed.

#[local] Hint Resolve resetChat_steady initChat_catch_steady : steady_db.
#[local] Hint Resolve initChat_catch_typing sendMessage_catch_typing
  : typing_db.

Lemma initChat_steady : keeps steady initChat.
Proof. unfold initChat. keeps_steady. Qed.

Lemma initChat_settled_steady o : keeps steady (initChat_settled o).
Proof.
  unfold initChat_settled. keeps_steady.
Qed.

Lemma resetChat_settled_steady o : keeps steady (resetChat_settled o).
Proof.
  unfold resetChat_settled. keeps_steady.
Qed.

Lemma toggleLanguage_settled_steady o :
  keeps steady (toggleLanguage_settled o).
Proof.
  unfold toggleLanguage_settled. keeps_steady.
Qed.

Lemma downloadPDF_settled_steady o : keeps steady (downloadPDF_settled o).
Proof. unfold downloadPDF_settled. keeps_steady. Qed.

Lemma initChat_settled_typing o : keeps no_new_typing (initChat_settled o).
Proof.
  unfold initChat_settled. keeps_typing.
Qed.

Lemma resetChat_settled_typing o :
  keeps no_new_typing (resetChat_settled o).
Proof.
  unfold resetChat_settled. keeps_typing.
Qed.

(** The callback of [toggleLanguage] leaves the chat as it is or empties
    it. *)
Lemma toggleLanguage_settled_chat o st :
  let st' := snd (toggleLanguage_settled o st) in
  chatMessages (dom st') = chatMessages (dom st)
  \/ chatMessages (dom st') = [].
Proof.
  assert (Hrefl : forall a : State,
            chatMessages (dom a) = chatMessages (dom a)
            \/ chatMessages (dom a) = []) by (left; reflexivity).
  assert (Htrans : forall a b c : State,
            (chatMessages (dom b) = chatMessages (dom a)
             \/ chatMessages (dom b) = []) ->
            (chatMessages (dom c) = chatMessages (dom b)
             \/ chatMessages (dom c) = []) ->
            chatMessages (dom c) = chatMessages (dom a)
            \/ chatMessages (dom c) = [])
    by (intros a b c [-> | ->] [-> | ->]; auto).
  revert st.
  change (keeps (fun st st' : State =>
                   chatMessages (dom st') = chatMessages (dom st)
                   \/ chatMessages (dom st') = [])
            (toggleLanguage_settled o)).
  unfold toggleLanguage_settled, resetChat, get_init, init_url, fetch.
  keeps_parts
    ltac:(idtac;
          match goal with
          | |- keeps _ updateLangUI =>
              intros st;
              destruct (updateLangUI_chrome st) as (_ & _ & Hc & _);
              left; exact Hc
          | |- keeps _ (modify _) =>
              intros ?; first [left; reflexivity|right; reflexivity]
          end)
    Hrefl Htrans.
Qed.

Lemma downloadPDF_settled_typing o :
  keeps no_new_typing (downloadPDF_settled o).
Proof. unfold downloadPDF_settled. keeps_typing. Qed.

Create HintDb lang_db.

Ltac keeps_lang_ui :=
  keeps_parts ltac:(solve [auto 1 with lang_db nocore])
              same_lang_ui_refl same_lang_ui_trans;
  try match goal with
      | |- keeps _ (modify _) => apply keeps_modify; intros ?; repeat split
      end;
  auto with lang_db.

Lemma updateHint_lang_ui : keeps same_lang_ui updateHint.
Proof.
  intros st. unfold updateHint. unfold_monad. run_cases; repeat split.
Qed.

#[local] Hint Resolve updateHint_lang_ui : lang_db.

Lemma sendMessage_lang_ui : keeps same_lang_ui sendMessage.
Proof.
  intros st. rewrite sendMessage_effect. cbn.
  destruct (_ || _)%bool; split; reflexivity.
Qed.

Lemma sendMessage_catch_lang_ui : keeps same_lang_ui sendMessage_catch.
Proof.
  unfold sendMessage_catch, removeTyping, addMessage, append_node.
  keeps_lang_ui.
Qed.

Lemma sendMessage_finally_lang_ui : keeps same_lang_ui sendMessage_finally.
Proof. unfold sendMessage_finally. keeps_lang_ui. Qed.

#[local] Hint Resolve sendMessage_catch_lang_ui sendMessage_finally_lang_ui
  : lang_db.

Lemma sendMessage_settled_lang_ui id o :
  keeps same_lang_ui (sendMessage_settled id o).
Proof. unfold sendMessage_settled. keeps_lang_ui. Qed.

Lemma sendMessage_delayed_lang_ui data :
  keeps same_lang_ui (sendMessage_delayed data).
Proof.
  unfold sendMessage_delayed, removeTyping, addMessage, append_node.
  keeps_lang_ui.
Qed.



(** X7. The input field is written by the user and by a call of
    [sendMessage] that goes through, which empties it, and by nothing else:
    no response, timer or other action touches what is being typed. *)
Theorem input_field_frame (st : State) (e : event) :
  userInput_value (dom (handle st e)) = userInput_value (dom st)
  \/ (exists text, e = Edit text)
  \/ (e = Send /\ userInput_value (dom (handle st e)) = []).
Proof.
  destruct e as [|text| | | | | |id o|id]; cbn.
  - left. unfold exec_task, bind, createStars, modify. cbn.
    match goal with |- context [initChat ?s] =>
      destruct (initChat_steady s) as (_ & _ & H & _) end.
    exact H.
  - right. left. exists text. reflexivity.
  - unfold exec_task. rewrite sendMessage_effect. cbn.
    destruct (_ || _)%bool; [left; reflexivity|right; right; split; reflexivity].
  - left. reflexivity.
  - left. reflexivity.
  - left. destruct (resetChat_steady st) as (_ & _ & H & _). exact H.
  - left. reflexivity.
  - left.
    destruct (take_pending id (pending (net st))) as [[k rest]|] eqn:Ht;
      [|reflexivity].
    destruct k; unfold exec_task; try reflexivity.
    + destruct (initChat_settled_steady o (set_pending rest st))
        as (_ & _ & H & _). exact H.
    + pose proof (sendMessage_settled_effect id o (set_pending rest st)) as E.
      cbn in E. destruct o as [|[ok [data|] dl]]; rewrite E; reflexivity.
    + destruct (toggleLanguage_settled_steady o (set_pending rest st))
        as (_ & _ & H & _). exact H.
    + destruct (resetChat_settled_steady o (set_pending rest st))
        as (_ & _ & H & _). exact H.
    + destruct (downloadPDF_settled_steady o (set_pending rest st))
        as (_ & _ & H & _). exact H.
  - left.
    destruct (take_pending id (pending (net st))) as [[k rest]|] eqn:Ht;
      [|reflexivity].
    destruct k; try reflexivity. unfold exec_task.
    destruct (sendMessage_delayed_effect data (set_pending rest st))
      as (_ & _ & H & _). exact H.
Qed.

(** ** The send button and the typing indicator over a whole run *)

Lemma button_step st e :
  btnSend_disabled (dom st) = isProcessing (vars st) ->
  btnSend_disabled (dom (handle st e)) = isProcessing (vars (handle st e)).
Proof.
  intros H.
  assert (Hsteady : forall st', steady st st' ->
            btnSend_disabled (dom st') = isProcessing (vars st')).
  { intros st' (Hp & Hb & _). congruence. }
  destruct e as [|text| | | | | |id o|id]; cbn; try exact H.
  - unfold exec_task, bind, createStars, modify. cbn.
    match goal with |- context [initChat ?s] =>
      destruct (initChat_steady s) as (Hp & Hb & _) end.
    cbn in Hp, Hb. congruence.
  - unfold exec_task. rewrite sendMessage_effect. cbn.
    destruct (_ || _)%bool; [exact H|reflexivity].
  - apply Hsteady, resetChat_steady.
  - destruct (take_pending id (pending (net st))) as [[k rest]|] eqn:Ht;
      [|exact H].
    assert (Hrest : forall st', steady (set_pending rest st) st' ->
              btnSend_disabled (dom st') = isProcessing (vars st')).
    { intros st' (Hp & Hb & _). cbn in Hp, Hb. congruence. }
    destruct k; unfold exec_task; try exact H.
    + apply Hrest, initChat_settled_steady.
    + pose proof (sendMessage_settled_effect id o (set_pending rest st)) as E.
      cbn in E. destruct o as [|[ok [data|] dl]]; rewrite E;
        first [reflexivity|exact H].
    + apply Hrest, toggleLanguage_settled_steady.
    + apply Hrest, resetChat_settled_steady.
    + apply Hrest, downloadPDF_settled_steady.
  - destruct (take_pending id (pending (net st))) as [[k rest]|] eqn:Ht;
      [|exact H].
    destruct k; try exact H. unfold exec_task.
    destruct (sendMessage_delayed_effect data (set_pending rest st))
      as (_ & Hb & _ & [(Hv & _)|(text & _ & Hv & _)]);
      rewrite Hb, Hv; reflexivity.
Qed.

(** X8. On a page whose send button starts enabled, the button is disabled
    exactly while a chat turn is under way: after any run of events,
    [btnSend.disabled] equals [isProcessing]. *)
Theorem send_button_follows_turn (d : Dom) (trace : list event)
    (H : btnSend_disabled d = false) :
  let st := run (initial d) trace in
  btnSend_disabled (dom st) = isProcessing (vars st).
Proof.
  cbn. induction trace as [|e trace IH] using rev_ind.
  - exact H.
  - unfold run in *. rewrite fold_left_app. cbn. apply button_step. exact IH.
Qed.

Lemma send_button_follows_turn_witness :
  let st := run (initial example_page) [Load; Edit (lit "hi"); Send] in
  btnSend_disabled example_page = false
  /\ btnSend_disabled (dom st) = true
  /\ isProcessing (vars st) = true.
Proof.
  intros st.
  pose proof (send_button_follows_turn example_page
                [Load; Edit (lit "hi"); Send] eq_refl) as E.
  split; [reflexivity|]. split; [|reflexivity].
  unfold st. rewrite E. reflexivity.
Defined.

Lemma typing_turns_removed st id k rest :
  take_pending id (pending (net st)) = Some (k, rest) ->
  typing_turns (set_pending rest st)
  = typing_turns st - (if shows_typing (id, k) then 1 else 0).
Proof.
  intros H. destruct (take_pending_split _ _ _ _ H) as (l1 & l2 & Hl & ->).
  unfold typing_turns. cbn. rewrite Hl, !filter_app, !length_app. cbn.
  destruct (shows_typing (id, k)); cbn; lia.
Qed.

Lemma typing_turns_present st id k rest :
  take_pending id (pending (net st)) = Some (k, rest) ->
  shows_typing (id, k) = true -> 1 <= typing_turns st.
Proof.
  intros H Hk. destruct (take_pending_split _ _ _ _ H) as (l1 & l2 & Hl & _).
  unfold typing_turns. rewrite Hl, filter_app, length_app. cbn.
  rewrite Hk. cbn. lia.
Qed.

Lemma typing_turns_init_fetched k n st st' :
  init_fetched k n (net st') -> net st = n ->
  typing_turns st' = typing_turns st + (if shows_typing (0, k) then 1 else 0)
  \/ typing_turns st' = typing_turns st.
Proof.
  intros [E|(url & _ & E)] <-; unfold typing_turns; rewrite E.
  - right. reflexivity.
  - left. unfold net_after_fetch. cbn. rewrite filter_app, length_app.
    unfold shows_typing. cbn. destruct k; cbn; lia.
Qed.

(** A body that first calls [removeTyping] and from then on adds no typing
    indicator. *)
Lemma try_after_removeTyping {A} (body handler : M A) st :
  keeps no_new_typing body -> keeps no_new_typing handler ->
  typing_removed st (snd (try_catch (removeTyping ;; body) handler st)).
Proof.
  intros Hb Hh.
  pose proof (keeps_try_catch no_new_typing no_new_typing_trans
                body handler Hb Hh
                (set_chatMessages
                   (remove_typing (typing_ids (dom st))
                      (chatMessages (dom st))) st))
    as H.
  pose proof (count_typing_remove (typing_ids (dom st))
                (chatMessages (dom st))) as Hr.
  unfold no_new_typing in H. unfold typing_removed.
  cbn -[count_typing strips remove_typing] in H.
  change (try_catch (removeTyping ;; body) handler st)
    with (try_catch body handler
            (set_chatMessages
               (remove_typing (typing_ids (dom st))
                  (chatMessages (dom st))) st)).
  lia.
Qed.

Lemma try_bind_value {A B} (m : M A) (f : A -> M B) (h : M B) st a :
  m st = (Normal a, st) ->
  try_catch (bind m f) h st = try_catch (f a) h st.
Proof. intros H. unfold try_catch, bind. rewrite H. reflexivity. Qed.

Lemma catch_removes st chat err :
  chat = remove_typing (typing_ids (dom st)) (chatMessages (dom st))
         ++ [Message Bot err] ->
  count_typing chat + strips (chatMessages (dom st))
  <= pred (count_typing (chatMessages (dom st))) + strips chat.
Proof.
  intros ->. rewrite count_typing_snoc_message, strips_snoc_message.
  apply count_typing_remove.
Qed.

Lemma initChat_settled_removes o st :
  typing_removed st (snd (initChat_settled o st)).
Proof.
  destruct o as [|r]; [|destruct (res_json r) as [data|] eqn:Hj].
  - rewrite (initChat_settled_failed NetworkError st I),
      initChat_catch_effect.
    apply (catch_removes st _ _ eq_refl).
  - unfold initChat_settled.
    rewrite (try_bind_value _ _ _ _ _ (response_data_json r data st Hj)).
    apply try_after_removeTyping; keeps_typing.
  - rewrite (initChat_settled_failed (Response r) st Hj),
      initChat_catch_effect.
    apply (catch_removes st _ _ eq_refl).
Qed.

Lemma then_finally_chat {A} (m : M A) st :
  chatMessages (dom (snd (bind m (fun _ => sendMessage_finally) st)))
  = chatMessages (dom (snd (m st))).
Proof.
  unfold bind at 1. destruct (m st) as [[a|] s1]; reflexivity.
Qed.

Lemma sendMessage_delayed_removes data st :
  typing_removed st (snd (sendMessage_delayed data st)).
Proof.
  unfold sendMessage_delayed, typing_removed. rewrite then_finally_chat.
  apply try_after_removeTyping; keeps_typing.
Qed.

Lemma initChat_typing st :
  let st' := snd (initChat st) in
  (net st' = net st /\ no_new_typing st st')
  \/ (exists url,
        net st' = net_after_fetch (init_request url) KInit (net st)
        /\ count_typing (chatMessages (dom st'))
           = S (count_typing (chatMessages (dom st)))
        /\ strips (chatMessages (dom st')) = strips (chatMessages (dom st))).
Proof.
  unfold initChat, showTyping, append_node. unfold_monad.
  cbn -[count_typing strips].
  match goal with |- context [get_init KInit ?s] =>
    destruct (get_init_effect KInit s) as [[E _]|(text & _ & E)]; rewrite E
  end.
  - rewrite initChat_catch_effect. left.
    split; [reflexivity|]. unfold no_new_typing.
    cbn -[count_typing strips remove_typing].
    match goal with |- context [remove_typing ?ids ?l] =>
      pose proof (count_typing_remove ids l) as Hr
    end.
    rewrite count_typing_snoc_message, strips_snoc_message.
    rewrite count_typing_snoc_typing, strips_snoc_typing in Hr.
    cbn [pred] in Hr. lia.
  - cbn -[count_typing strips]. right. eexists.
    split; [reflexivity|].
    split; [apply count_typing_snoc_typing|apply strips_snoc_typing].
Qed.

(** The typing indicators are covered by the greetings and chat turns that
    are awaited and by the elements taken out of bubbles. *)
Lemma typing_step st e :
  count_typing (chatMessages (dom st))
  <= typing_turns st + strips (chatMessages (dom st)) ->
  count_typing (chatMessages (dom (handle st e)))
  <= typing_turns (handle st e) + strips (chatMessages (dom (handle st e))).
Proof.
  intros H.
  destruct e as [|text| | | | | |id o|id]; cbn -[count_typing strips];
    try exact H.
  - unfold exec_task, bind, createStars, modify. cbn -[count_typing strips].
    match goal with |- context [initChat ?s] =>
      destruct (initChat_typing s) as [[Hn Hc]|(url & Hn & Hc & Hs)]
    end.
    + unfold no_new_typing in Hc. unfold typing_turns in *. rewrite Hn.
      cbn -[count_typing strips] in *. lia.
    + rewrite Hc, Hs. unfold typing_turns in *. rewrite Hn.
      unfold net_after_fetch. cbn -[count_typing strips].
      rewrite filter_app, length_app. cbn -[count_typing strips]. lia.
  - unfold exec_task. rewrite sendMessage_effect. cbn -[count_typing strips].
    destruct (_ || _)%bool; [exact H|].
    unfold after_send, typing_turns, net_after_fetch in *.
    cbn -[count_typing strips].
    rewrite filter_app, length_app.
    replace (chatMessages (dom st)
             ++ [Message User
                   (formatMessage (trim (userInput_value (dom st))));
                 TypingIndicator])
      with ((chatMessages (dom st)
             ++ [Message User
                   (formatMessage (trim (userInput_value (dom st))))])
            ++ [TypingIndicator])
      by (rewrite <- app_assoc; reflexivity).
    rewrite count_typing_snoc_typing, count_typing_snoc_message,
      strips_snoc_typing, strips_snoc_message.
    cbn -[count_typing strips]. lia.
  - unfold typing_turns, net_after_fetch in *. cbn -[count_typing strips].
    rewrite filter_app, length_app. cbn -[count_typing strips]. lia.
  - unfold typing_turns, net_after_fetch in *. cbn -[count_typing strips].
    rewrite filter_app, length_app. cbn -[count_typing strips]. lia.
  - unfold exec_task.
    destruct (resetChat_effect st) as (_ & _ & _ & _ & Hc & _).
    rewrite Hc. cbn. lia.
  - destruct (take_pending id (pending (net st))) as [[k rest]|] eqn:Ht;
      [|exact H].
    pose proof (typing_turns_removed st id k rest Ht) as Hturns.
    destruct k; unfold exec_task; cbn in Hturns; try exact H.
    + pose proof (typing_turns_present st id KInit rest Ht eq_refl) as H1.
      pose proof (initChat_settled_removes o (set_pending rest st)) as Hc.
      destruct (initChat_settled_effect o (set_pending rest st)) as (Hn & _).
      unfold typing_removed, typing_turns in *. rewrite Hn.
      cbn -[count_typing strips] in *. lia.
    + pose proof (typing_turns_present st id KChat rest Ht eq_refl) as H1.
      pose proof (sendMessage_settled_effect id o (set_pending rest st)) as E.
      pose proof (catch_removes (set_pending rest st) _
                    (chat_error (currentLang (vars st))) eq_refl) as Hc.
      cbn -[count_typing strips remove_typing] in E, Hc.
      destruct o as [|[ok [data|] dl]]; rewrite E; unfold typing_turns in *;
        cbn -[count_typing strips remove_typing] in *;
        rewrite ?filter_app, ?length_app;
        cbn -[count_typing strips remove_typing]; lia.
    + destruct (toggleLanguage_settled_chat o (set_pending rest st))
        as [Hc|Hc]; rewrite Hc;
        [|change (count_typing []) with 0; lia].
      destruct (toggleLanguage_settled_effect o (set_pending rest st))
        as [[-> _]|(r & data & _ & _ & _ & _ & _ & _ & Hcase)].
      * unfold typing_turns in *. cbn -[count_typing strips] in *. lia.
      * destruct Hcase as [[_ Hn]|[_ Hf]].
        -- unfold typing_turns in *. rewrite Hn.
           cbn -[count_typing strips] in *. lia.
        -- destruct (typing_turns_init_fetched KReset _
                       (set_pending rest st) _ Hf eq_refl) as [E|E];
             unfold typing_turns in *; cbn -[count_typing strips] in *;
             lia.
    + pose proof (resetChat_settled_typing o (set_pending rest st)) as Hc.
      unfold no_new_typing in Hc. cbn -[count_typing strips] in Hc.
      destruct (resetChat_settled_effect o (set_pending rest st)) as (Hn & _).
      unfold typing_turns in *. rewrite Hn.
      cbn -[count_typing strips] in *. lia.
    + pose proof (downloadPDF_settled_typing o (set_pending rest st)) as Hc.
      unfold no_new_typing in Hc. cbn -[count_typing strips] in Hc.
      destruct (downloadPDF_settled_effect o (set_pending rest st))
        as (_ & Hn & _).
      unfold typing_turns in *. rewrite Hn.
      cbn -[count_typing strips] in *. lia.
  - destruct (take_pending id (pending (net st))) as [[k rest]|] eqn:Ht;
      [|exact H].
    pose proof (typing_turns_removed st id k rest Ht) as Hturns.
    destruct k; try exact H. unfold exec_task. cbn in Hturns.
    pose proof (typing_turns_present st id (KChatDelay data) rest Ht eq_refl)
      as H1.
    pose proof (sendMessage_delayed_removes data (set_pending rest st)) as Hc.
    destruct (sendMessage_delayed_effect data (set_pending rest st))
      as (Hn & _).
    unfold typing_removed, typing_turns in *. rewrite Hn.
    cbn -[count_typing strips] in *. lia.
Qed.

(** X9. A typing indicator is left behind only where [removeTyping] has
    taken an element out of a bubble in its place: on a page that starts
    without a typing indicator, after any run of events the chat shows at
    most as many typing indicators as there are greetings and chat turns
    still awaited and elements taken out of its bubbles; it shows none when
    nothing of the kind is awaited and no bubble has lost an element. *)
Theorem no_stale_typing_indicator (d : Dom) (trace : list event)
    (H : count_typing (chatMessages d) = 0) :
  let st := run (initial d) trace in
  count_typing (chatMessages (dom st))
  <= typing_turns st + strips (chatMessages (dom st))
  /\ (typing_turns st = 0 -> strips (chatMessages (dom st)) = 0 ->
      Forall (fun n => is_typing n = false) (chatMessages (dom st))).
Proof.
  cbn zeta.
  assert (Hle : count_typing (chatMessages (dom (run (initial d) trace)))
                <= typing_turns (run (initial d) trace)
                   + strips (chatMessages (dom (run (initial d) trace)))).
  { induction trace as [|e trace IH] using rev_ind.
    - cbn -[count_typing strips]. rewrite H. lia.
    - unfold run in *. rewrite fold_left_app. cbn [fold_left].
      apply typing_step. exact IH. }
  split; [exact Hle|].
  intros Hz Hs. rewrite Hz, Hs in Hle.
  unfold count_typing in Hle.
  apply Forall_forall. intros n Hn.
  destruct (is_typing n) eqn:E; [|reflexivity].
  assert (Hin : In n (filter is_typing
                        (chatMessages (dom (run (initial d) trace)))))
    by (apply filter_In; auto).
  destruct (filter is_typing _); [destruct Hin|cbn in Hle; lia].
Qed.

Lemma no_stale_typing_indicator_witness :
  let st := run (initial example_page)
              [Load; Edit (lit "hi"); Send; Settle 0 NetworkError;
               Settle 1 NetworkError] in
  count_typing (chatMessages example_page) = 0
  /\ typing_turns st = 0
  /\ strips (chatMessages (dom st)) = 0
  /\ Forall (fun n => is_typing n = false) (chatMessages (dom st)).
Proof.
  intros st.
  destruct (no_stale_typing_indicator example_page
              [Load; Edit (lit "hi"); Send; Settle 0 NetworkError;
               Settle 1 NetworkError] eq_refl) as (_ & Hnone).
  split; [reflexivity|]. split; [reflexivity|]. split; [reflexivity|].
  apply Hnone; reflexivity.
Defined.

(* ------------------------------------------------------------------ *)
(** ** What [sendMessage] takes for an empty message *)

Lemma trim_start_nil s :
  trim_start s = [] <-> forallb is_trimmed_space s = true.
Proof.
  induction s as [|c s IH]; cbn [trim_start forallb]; [tauto|].
  destruct (is_trimmed_space c); cbn [andb]; [exact IH|].
  split; discriminate.
Qed.

Lemma trim_start_head s c s' :
  trim_start s = c :: s' -> is_trimmed_space c = false.
Proof.
  induction s as [|d s IH]; cbn [trim_start]; [discriminate|].
  destruct (is_trimmed_space d) eqn:E; [exact IH|].
  intros [= <- _]. exact E.
Qed.

Lemma forallb_rev {A} (f : A -> bool) l :
  forallb f (rev l) = forallb f l.
Proof.
  induction l as [|a l IH]; [reflexivity|].
  cbn. rewrite forallb_app, IH. cbn. rewrite andb_true_r. apply andb_comm.
Qed.

Lemma trim_nil s : trim s = [] <-> forallb is_trimmed_space s = true.
Proof.
  unfold trim. split.
  - intros H. apply (f_equal (@rev code_unit)) in H.
    rewrite rev_involutive in H. cbn [rev] in H.
    apply trim_start_nil in H. rewrite forallb_rev in H.
    destruct (trim_start s) as [|c s'] eqn:E.
    + apply trim_start_nil. exact E.
    + apply trim_start_head in E. cbn [forallb] in H. rewrite E in H.
      discriminate.
  - intros H. apply trim_start_nil in H. rewrite H. reflexivity.
Qed.

(** X10. What counts as an empty message: a call of [sendMessage] on an
    idle page issues a request (one, and empties the input field) exactly
    when the input holds a code unit that is not white space or a line
    terminator; on a busy page or with such an input the call changes
    nothing. *)
Theorem sendMessage_needs_visible_text (st : State) :
  let visible :=
    existsb (fun c => negb (is_trimmed_space c)) (userInput_value (dom st)) in
  let st' := handle st Send in
  if (visible && negb (isProcessing (vars st)))%bool
  then List.length (requests (net st')) = S (List.length (requests (net st)))
       /\ userInput_value (dom st') = []
       /\ isProcessing (vars st') = true
  else st' = st.
Proof.
  intros visible st'. unfold visible, st'. clear visible st'.
  cbn [handle]. unfold exec_task. rewrite sendMessage_effect. cbn [snd].
  assert (Hv : existsb (fun c => negb (is_trimmed_space c))
                 (userInput_value (dom st))
               = negb (forallb is_trimmed_space (userInput_value (dom st)))).
  { induction (userInput_value (dom st)) as [|c s IH]; [reflexivity|].
    cbn [existsb forallb]. rewrite IH, negb_andb. reflexivity. }
  rewrite Hv.
  destruct (trim (userInput_value (dom st))) as [|c msg] eqn:E.
  - apply trim_nil in E. rewrite E. reflexivity.
  - assert (Hn : forallb is_trimmed_space (userInput_value (dom st)) = false).
    { destruct (forallb _ _) eqn:F; [|reflexivity].
      apply trim_nil in F. congruence. }
    rewrite Hn. cbn [negb andb orb].
    destruct (isProcessing (vars st)); cbn [negb andb orb]; [reflexivity|].
    unfold after_send, net_after_fetch. cbn [net requests dom vars
      userInput_value isProcessing].
    rewrite length_app. cbn [List.length]. repeat split. lia.
Qed.

(* ------------------------------------------------------------------ *)
(** ** A chat turn from its start to its end *)

Lemma take_pending_absent l id :
  (forall i k, In (i, k) l -> i < id) -> take_pending id l = None.
Proof.
  induction l as [|[i k] l IH]; intros H; [reflexivity|].
  cbn. assert (Hi : i < id) by (apply (H i k); left; reflexivity).
  destruct (Nat.eqb_spec i id); [lia|].
  rewrite IH; [reflexivity|].
  intros j k' Hin. apply (H j k'). right. exact Hin.
Qed.

Lemma pending_below_requests st :
  reachable st ->
  forall i k, In (i, k) (pending (net st)) ->
              i < List.length (requests (net st)).
Proof.
  intros Hr i k Hin. destruct (reachable_inv st Hr) as (tr & HI).
  destruct (inv_pending _ _ _ HI i k Hin) as (req & Hn & _).
  apply nth_error_Some. congruence.
Qed.

(** X11. A chat turn always comes to its end: started on an idle page with
    a message to send, the turn is over once its request has settled and
    its timer has fired, whatever the outcome of the request; then
    [isProcessing] is false again, the send button is enabled, exactly one
    request has been issued and the turn awaits nothing. *)
Theorem chat_turn_finishes (st : State) (o : outcome)
    (Hr : reachable st)
    (Hidle : isProcessing (vars st) = false)
    (Hmsg : trim (userInput_value (dom st)) <> []) :
  let id := List.length (requests (net st)) in
  let st' := run st [Send; Settle id o; Timer id] in
  isProcessing (vars st') = false
  /\ btnSend_disabled (dom st') = false
  /\ requests (net st')
     = requests (net st)
       ++ [chat_request (trim (userInput_value (dom st)))
             (currentLang (vars st))]
  /\ pending (net st') = pending (net st).
Proof.
  intros id st'. unfold st'. clear st'.
  pose proof (pending_below_requests st Hr) as Hbelow. fold id in Hbelow.
  set (msg := trim (userInput_value (dom st))) in *.
  unfold run. cbn [fold_left].
  assert (E1 : handle st Send = after_send msg st).
  { cbn [handle]. unfold exec_task. rewrite sendMessage_effect, Hidle.
    fold msg. destruct msg; [contradiction|reflexivity]. }
  rewrite E1.
  assert (E2 : handle (after_send msg st) (Settle id o)
               = snd (sendMessage_settled id o
                        (set_pending (pending (net st))
                           (after_send msg st)))).
  { cbn [handle].
    change (pending (net (after_send msg st)))
      with (pending (net st) ++ [(id, KChat)]).
    rewrite (take_pending_fresh _ _ _ Hbelow). reflexivity. }
  rewrite E2.
  pose proof (sendMessage_settled_effect id o
                (set_pending (pending (net st)) (after_send msg st)))
    as Es.
  cbn zeta in Es.
  destruct o as [|[ok [data|] dl]]; rewrite Es; clear Es E1 E2;
    cbn [handle].
  - cbn -[take_pending]. rewrite (take_pending_absent _ _ Hbelow).
    cbn. auto.
  - cbn -[take_pending sendMessage_delayed].
    rewrite (take_pending_fresh _ _ _ Hbelow). unfold exec_task.
    match goal with |- context [sendMessage_delayed data ?s] =>
      destruct (sendMessage_delayed_effect data s)
        as (Hn & Hb & _ & [(Hv & _)|(text & _ & Hv & _)])
    end; rewrite Hn, Hb, Hv; cbn; auto.
  - cbn -[take_pending]. rewrite (take_pending_absent _ _ Hbelow).
    cbn. auto.
Qed.

Lemma chat_turn_finishes_witness :
  let st := run (initial example_page) [Load; Edit (lit "hi")] in
  let st' := run st [Send; Settle 1 NetworkError; Timer 1] in
  reachable st
  /\ isProcessing (vars st) = false
  /\ trim (userInput_value (dom st)) <> []
  /\ isProcessing (vars st') = false
  /\ btnSend_disabled (dom st') = false
  /\ pending (net st') = pending (net st).
Proof.
  intros st st'.
  assert (R : reachable st).
  { exists example_page, [Load; Edit (lit "hi")]. reflexivity. }
  assert (Hm : trim (userInput_value (dom st)) <> [])
    by (vm_compute; discriminate).
  destruct (chat_turn_finishes st NetworkError R eq_refl Hm)
    as (Hp & Hb & _ & Hn).
  split; [exact R|]. split; [reflexivity|]. split; [exact Hm|].
  split; [exact Hp|]. split; [exact Hb|exact Hn].
Defined.

(* ------------------------------------------------------------------ *)
(** ** The status of a response *)

(** X12. Only [downloadPDF] looks at the status of a response: for the
    greeting, a chat turn, the language toggle and a reset, two responses
    with the same body have the same effect whatever their status, so an
    error status with a JSON body is shown like a reply; for the download a
    status that is not ok has the effect of a failed request. *)
Theorem only_downloadPDF_checks_status (st : State) (id : nat)
    (k : continuation) (rest : list (nat * continuation)) (r r' : response)
    (Hp : take_pending id (pending (net st)) = Some (k, rest)) :
  (k <> KPdf -> res_json r = res_json r' ->
   handle st (Settle id (Response r)) = handle st (Settle id (Response r')))
  /\ (k = KPdf -> res_ok r = false ->
      handle st (Settle id (Response r)) = handle st (Settle id NetworkError)).
Proof.
  split.
  - intros Hk Hj.
    assert (E : response_data (Response r) = response_data (Response r'))
      by (unfold response_data; rewrite Hj; reflexivity).
    cbn [handle]. rewrite Hp.
    destruct k; try reflexivity; try contradiction;
      unfold initChat_settled, sendMessage_settled, toggleLanguage_settled,
        resetChat_settled; rewrite E; reflexivity.
  - intros -> Hok. cbn [handle]. rewrite Hp.
    unfold downloadPDF_settled. rewrite Hok. reflexivity.
Qed.

Lemma only_downloadPDF_checks_status_witness :
  let body := Some (JObj [(lit "response", JStr (lit "Hello"));
                          (lit "state", JStr (lit "greeting"))]) in
  let r := {| res_ok := true; res_json := body; res_download := false |} in
  let r' := {| res_ok := false; res_json := body; res_download := false |} in
  let st := run (initial example_page) [Load] in
  take_pending 0 (pending (net st)) = Some (KInit, [])
  /\ handle st (Settle 0 (Response r)) = handle st (Settle 0 (Response r')).
Proof.
  intros body r r' st.
  split; [reflexivity|].
  apply (only_downloadPDF_checks_status st 0 KInit [] r r' eq_refl);
    [discriminate|reflexivity].
Defined.

(* ------------------------------------------------------------------ *)
(** ** The requests and the awaits from one event to the next *)

Lemma init_fetched_one_more k n n' : init_fetched k n n' -> one_more n n'.
Proof.
  intros [E|(url & _ & E)]; [left; exact E|right; eauto].
Qed.

Lemma one_more_requests n n' :
  one_more n n' ->
  exists l, requests n' = requests n ++ l /\ List.length l <= 1.
Proof.
  intros [->|(r & k & ->)].
  - exists []. rewrite app_nil_r. split; [reflexivity|cbn; lia].
  - exists [r]. split; [reflexivity|cbn; lia].
Qed.

Lemma one_more_pending n n' e :
  one_more n n' -> In e (pending n) -> In e (pending n').
Proof.
  intros [->|(r & k & ->)] H; [exact H|].
  cbn. apply in_or_app. left. exact H.
Qed.

Lemma take_pending_others id l k rest i k' :
  take_pending id l = Some (k, rest) -> In (i, k') l -> i <> id ->
  In (i, k') rest.
Proof.
  intros H Hin Hne.
  destruct (take_pending_split _ _ _ _ H) as (l1 & l2 & -> & ->).
  apply in_app_or in Hin. apply in_or_app.
  destruct Hin as [Hin|[Heq|Hin]]; [left; exact Hin| |right; exact Hin].
  inversion Heq. congruence.
Qed.

(** What an event that does not settle an await does to the net. *)
Lemma action_one_more st e :
  (forall id o, e <> Settle id o) -> (forall id, e <> Timer id) ->
  one_more (net st) (net (handle st e)).
Proof.
  intros Hs Ht.
  destruct e as [|text| | | | | |id o|id]; cbn [handle];
    try (exfalso; eapply Hs; reflexivity);
    try (exfalso; eapply Ht; reflexivity).
  - unfold exec_task, bind, createStars, modify. cbn [fst snd].
    match goal with |- context [initChat ?s] =>
      destruct (initChat_typing s) as [[Hn _]|(url & Hn & _)]
    end; rewrite Hn; [left; reflexivity|right; do 2 eexists; reflexivity].
  - left. reflexivity.
  - unfold exec_task. rewrite sendMessage_effect. cbn [snd].
    destruct (_ || _)%bool; [left; reflexivity|right; do 2 eexists; reflexivity].
  - unfold exec_task. rewrite toggleLanguage_effect. right. do 2 eexists. reflexivity.
  - unfold exec_task. rewrite downloadPDF_effect. right. do 2 eexists. reflexivity.
  - unfold exec_task.
    destruct (resetChat_effect st) as (_ & _ & _ & _ & _ & Hn).
    apply (init_fetched_one_more _ _ _ Hn).
  - left. reflexivity.
Qed.

(** What the settling of an await does to the net, once the await has been
    taken off the list. *)
Lemma settled_one_more st id k rest o :
  let st1 := set_pending rest st in
  let st' :=
    match k with
    | KInit => exec_task (initChat_settled o) st1
    | KChat => exec_task (sendMessage_settled id o) st1
    | KSetLang => exec_task (toggleLanguage_settled o) st1
    | KReset => exec_task (resetChat_settled o) st1
    | KPdf => exec_task (downloadPDF_settled o) st1
    | KChatDelay _ => st1
    end in
  requests (net st1) = requests (net st) ->
  (exists l, requests (net st') = requests (net st) ++ l
             /\ List.length l <= 1)
  /\ forall e, In e rest -> In e (pending (net st')).
Proof.
  intros st1 st' Hreq. unfold st'. clear st'.
  assert (Hsame : forall s : State, net s = net st1 ->
            (exists l, requests (net s) = requests (net st) ++ l
                       /\ List.length l <= 1)
            /\ forall e, In e rest -> In e (pending (net s))).
  { intros s ->. split; [|intros e He; exact He].
    exists []. rewrite app_nil_r. split; [exact Hreq|cbn; lia]. }
  assert (Hmore : forall s : State, one_more (net st1) (net s) ->
            (exists l, requests (net s) = requests (net st) ++ l
                       /\ List.length l <= 1)
            /\ forall e, In e rest -> In e (pending (net s))).
  { intros s Ho. split.
    - rewrite <- Hreq. apply one_more_requests, Ho.
    - intros e He. apply (one_more_pending _ _ e Ho). exact He. }
  destruct k; unfold exec_task.
  - apply Hsame. apply (initChat_settled_effect o st1).
  - pose proof (sendMessage_settled_effect id o st1) as E. cbn zeta in E.
    destruct o as [|[ok [data|] dl]]; rewrite E;
      try (apply Hsame; reflexivity).
    split.
    + exists []. rewrite app_nil_r. split; [exact Hreq|cbn; lia].
    + intros e He. cbn. apply in_or_app. left. exact He.
  - apply Hsame. reflexivity.
  - destruct (toggleLanguage_settled_effect o st1)
      as [[-> _]|(r & data & _ & _ & _ & _ & _ & _ & [[_ Hn]|[_ Hf]])].
    + apply Hsame. reflexivity.
    + apply Hsame. exact Hn.
    + apply Hmore. apply (init_fetched_one_more _ _ _ Hf).
  - apply Hsame. apply (resetChat_settled_effect o st1).
  - apply Hsame. apply (downloadPDF_settled_effect o st1).
Qed.

(** X13. The log of requests only grows, by at most one request for each
    event, and an await is dropped by nothing but its own settling: no
    other response, no timer of another turn, and no action of the user,
    [resetChat] included, cancels it. *)
Theorem awaits_are_never_cancelled (st : State) (e : event) :
  (exists l, requests (net (handle st e)) = requests (net st) ++ l
             /\ List.length l <= 1)
  /\ forall id k, In (id, k) (pending (net st)) ->
       In (id, k) (pending (net (handle st e)))
       \/ (exists o, e = Settle id o) \/ e = Timer id.
Proof.
  assert (Hact : (forall id o, e <> Settle id o) ->
                 (forall id, e <> Timer id) ->
                 (exists l, requests (net (handle st e))
                            = requests (net st) ++ l
                            /\ List.length l <= 1)
                 /\ forall id k, In (id, k) (pending (net st)) ->
                      In (id, k) (pending (net (handle st e)))
                      \/ (exists o, e = Settle id o) \/ e = Timer id).
  { intros Hs Ht. pose proof (action_one_more st e Hs Ht) as Ho. split.
    - apply one_more_requests, Ho.
    - intros id k Hin. left. apply (one_more_pending _ _ _ Ho Hin). }
  assert (Hidle : handle st e = st ->
                  (exists l, requests (net (handle st e))
                             = requests (net st) ++ l
                             /\ List.length l <= 1)
                  /\ forall id k, In (id, k) (pending (net st)) ->
                       In (id, k) (pending (net (handle st e)))
                       \/ (exists o, e = Settle id o) \/ e = Timer id).
  { intros ->. split; [|intros id k Hin; left; exact Hin].
    exists []. rewrite app_nil_r. split; [reflexivity|cbn; lia]. }
  destruct e as [|text| | | | | |id' o|id'];
    try (apply Hact; intros; discriminate).
  - destruct (take_pending id' (pending (net st))) as [[k' rest]|] eqn:Ht;
      [|apply Hidle; cbn [handle]; rewrite Ht; reflexivity].
    destruct (settled_one_more st id' k' rest o eq_refl) as (Hreq & Hpend).
    assert (Hk : forall data, k' = KChatDelay data ->
                   handle st (Settle id' o) = st)
      by (intros data ->; cbn [handle]; rewrite Ht; reflexivity).
    destruct k' as [| |data| | |];
      try (apply (Hidle (Hk _ eq_refl)));
      cbn [handle]; rewrite Ht; (split; [exact Hreq|]);
      intros id k Hin; (destruct (Nat.eq_dec id id') as [->|Hne];
        [right; left; eauto|left; apply Hpend;
         apply (take_pending_others _ _ _ _ _ _ Ht Hin Hne)]).
  - destruct (take_pending id' (pending (net st))) as [[k' rest]|] eqn:Ht;
      [|apply Hidle; cbn [handle]; rewrite Ht; reflexivity].
    destruct k' as [| |data| | |];
      try (apply Hidle; cbn [handle]; rewrite Ht; reflexivity).
    cbn [handle]. rewrite Ht. unfold exec_task.
    destruct (sendMessage_delayed_effect data (set_pending rest st))
      as (Hn & _).
    rewrite Hn. split.
    + exists []. rewrite app_nil_r. split; [reflexivity|cbn; lia].
    + intros id k Hin. destruct (Nat.eq_dec id id') as [->|Hne];
        [right; right; reflexivity|left].
      apply (take_pending_others _ _ _ _ _ _ Ht Hin Hne).
Qed.

(* ------------------------------------------------------------------ *)
(** ** A response without a text to show *)

(** X14. A JSON body whose [response] is not a string is taken for a
    failure, after [removeTyping] has been called once already: the
    greeting calls [removeTyping] a second time and shows the connection
    error, changing no variable; the callback of [resetChat] shows nothing
    and changes nothing; a chat turn, at its timer, calls [removeTyping] a
    second time, shows the chat error and ends. *)
Theorem body_without_text_is_a_failure (st : State) (id : nat)
    (rest : list (nat * continuation)) (r : response) (data : jsval)
    (Hj : res_json r = Some data)
    (Hr : forall text, field data (lit "response") <> Some (JStr text)) :
  let chat := chatMessages (dom st) in
  let ids := typing_ids (dom st) in
  let lang := currentLang (vars st) in
  (take_pending id (pending (net st)) = Some (KInit, rest) ->
   let st' := handle st (Settle id (Response r)) in
   vars st' = vars st
   /\ chatMessages (dom st')
      = remove_typing ids (remove_typing ids chat)
        ++ [Message Bot (connect_error lang)])
  /\ (take_pending id (pending (net st)) = Some (KReset, rest) ->
      handle st (Settle id (Response r)) = set_pending rest st)
  /\ (take_pending id (pending (net st)) = Some (KChatDelay data, rest) ->
      let st' := handle st (Timer id) in
      vars st' = turn_finished (vars st)
      /\ chatMessages (dom st')
         = remove_typing ids (remove_typing ids chat)
           ++ [Message Bot (chat_error lang)]).
Proof.
  intros chat ids lang. unfold chat, ids, lang. clear chat ids lang.
  split; [|split]; intros Hp; cbn [handle]; rewrite Hp; unfold exec_task.
  - unfold initChat_settled, removeTyping, addMessage, append_node,
      format_content.
    unfold_monad. cbn. rewrite Hj. cbn.
    destruct (field data (lit "response")) as [[]|] eqn:F; cbn;
      try (rewrite initChat_catch_effect; cbn; split; reflexivity).
    exfalso. apply (Hr _ eq_refl).
  - unfold resetChat_settled, addMessage, append_node, format_content.
    unfold_monad. cbn. rewrite Hj. cbn.
    destruct (field data (lit "response")) as [[]|] eqn:F; cbn;
      try reflexivity.
    exfalso. apply (Hr _ eq_refl).
  - destruct (sendMessage_delayed_effect data (set_pending rest st))
      as (_ & _ & _ & [(Hv & _ & Hc)|(text & Ht & _)]).
    + split; [exact Hv|exact Hc].
    + exfalso. apply (Hr _ Ht).
Qed.

Lemma body_without_text_is_a_failure_witness :
  let r := {| res_ok := true; res_json := Some (JObj []);
              res_download := false |} in
  let st := run (initial example_page) [Load] in
  res_json r = Some (JObj [])
  /\ (forall text, field (JObj []) (lit "response") <> Some (JStr text))
  /\ take_pending 0 (pending (net st)) = Some (KInit, [])
  /\ chatMessages (dom st) = [TypingIndicator]
  /\ chatMessages (dom (handle st (Settle 0 (Response r))))
     = [Message Bot (connect_error (JStr (lit "my")))].
Proof.
  intros r st.
  assert (Hr : forall text,
             field (JObj []) (lit "response") <> Some (JStr text))
    by (intros text; vm_compute; discriminate).
  destruct (body_without_text_is_a_failure st 0 [] r (JObj []) eq_refl Hr)
    as (Hinit & _).
  destruct (Hinit eq_refl) as (_ & Hc).
  split; [reflexivity|]. split; [exact Hr|]. split; [reflexivity|].
  split; [reflexivity|]. exact Hc.
Defined.

(* ------------------------------------------------------------------ *)
(** ** The language toggle, from the click to the new greeting *)

Lemma reachable_handle st e : reachable st -> reachable (handle st e).
Proof.
  intros (d & tr & ->). exists d, (tr ++ [e]).
  unfold run. rewrite fold_left_app. reflexivity.
Qed.

(** With no hints from the server and a state that converts to a string,
    [updateLangUI] returns. *)
Lemma updateLangUI_returns st key :
  currentHints (vars st) = JObj [] ->
  to_string (currentState (vars st)) = Some key ->
  fst (updateLangUI st) = Normal tt.
Proof.
  intros Hh Hs. unfold updateLangUI, updateHint. unfold_monad.
  destruct (langFlag (dom st)); cbn; rewrite Hh, Hs; cbn;
    change (own_member (JObj []) key) with (@None jsval); cbn;
    destruct (inherited_member (JObj []) key); cbn; rewrite ?Hs;
    reflexivity.
Qed.

(** The callback of [toggleLanguage] on a body with a language and no
    hints. *)
Lemma toggleLanguage_settled_adopts r data new key st :
  res_json r = Some data ->
  field data (lit "lang") = Some (JStr new) ->
  field data (lit "hints") = Some JUndefined ->
  to_string (currentState (vars st)) = Some key ->
  let st' := snd (toggleLanguage_settled (Response r) st) in
  vars st'
  = {| isProcessing := isProcessing (vars st);
       currentState := JStr (lit "greeting");
       currentLang := JStr new;
       currentHints := JObj [] |}
  /\ chatMessages (dom st') = []
  /\ net st'
     = net_after_fetch (init_request (lit "/api/init?lang=" ++ new)) KReset
         (net st).
Proof.
  intros Hj Hl Hh Hs.
  unfold toggleLanguage_settled. unfold_monad. cbn. rewrite Hj. cbn.
  rewrite Hl. cbn. rewrite Hh. cbn.
  match goal with |- context [updateLangUI ?s] =>
    pose proof (updateLangUI_chrome s) as Hui;
    pose proof (updateLangUI_returns s key eq_refl Hs) as Hret;
    destruct (updateLangUI s) as [c s1]
  end.
  cbn in Hret. subst c. unfold same_but_chrome in Hui. cbn in Hui.
  destruct Hui as (Hv & Hn & _).
  unfold resetChat. unfold_monad. cbn.
  match goal with |- context [get_init KReset ?s] =>
    destruct (get_init_effect KReset s) as [[_ E]|(text & Ht & E)]
  end.
  - cbn in E. rewrite Hv in E. discriminate.
  - cbn in Ht. rewrite Hv in Ht. cbn in Ht. injection Ht as <-.
    rewrite E. cbn. rewrite Hv, Hn. cbn. repeat split.
Qed.

Lemma toggle_and_echo_effect st key :
  reachable st ->
  to_string (currentState (vars st)) = Some key ->
  let new := other_lang (currentLang (vars st)) in
  let st' := toggle_and_echo st in
  vars st'
  = {| isProcessing := isProcessing (vars st);
       currentState := JStr (lit "greeting");
       currentLang := JStr new;
       currentHints := JObj [] |}
  /\ chatMessages (dom st') = []
  /\ requests (net st')
     = requests (net st)
       ++ [set_lang_request (currentLang (vars st));
           init_request (lit "/api/init?lang=" ++ new)].
Proof.
  intros Hr Hs new st'. unfold st', toggle_and_echo. clear st'.
  fold new.
  assert (E1 : handle st ToggleLanguage
               = with_net (net_after_fetch
                             (set_lang_request (currentLang (vars st)))
                             KSetLang) st) by reflexivity.
  rewrite E1. cbn [handle].
  change (pending (net (with_net
            (net_after_fetch (set_lang_request (currentLang (vars st)))
               KSetLang) st)))
    with (pending (net st)
          ++ [(List.length (requests (net st)), KSetLang)]).
  rewrite (reachable_pending_fresh st KSetLang Hr).
  unfold exec_task, json_response.
  match goal with |- context [toggleLanguage_settled (Response ?r) ?s] =>
    destruct (toggleLanguage_settled_adopts r
                (JObj [(lit "lang", JStr new)]) new key s
                eq_refl eq_refl eq_refl Hs) as (Hv & Hc & Hn)
  end.
  rewrite Hv, Hc, Hn. cbn.
  repeat split. unfold net_after_fetch. cbn [requests].
  rewrite <- app_assoc. reflexivity.
Qed.

(** X15. The language toggle when the server confirms the language asked
    for, on a page whose [currentState] converts to a string: the click and
    the response make [currentLang] the other language, empty the chat, set
    [currentState] to 'greeting' and [currentHints] to an empty object, and
    issue two requests, the one for /api/set_lang and then the one for
    /api/init with the new language; when [currentLang] was 'my' or 'en', a
    second toggle brings it back. *)
Theorem toggleLanguage_round_trip (st : State) (key : jsstring)
    (Hr : reachable st)
    (Hs : to_string (currentState (vars st)) = Some key) :
  let new := other_lang (currentLang (vars st)) in
  let st' := toggle_and_echo st in
  vars st'
  = {| isProcessing := isProcessing (vars st);
       currentState := JStr (lit "greeting");
       currentLang := JStr new;
       currentHints := JObj [] |}
  /\ chatMessages (dom st') = []
  /\ requests (net st')
     = requests (net st)
       ++ [set_lang_request (currentLang (vars st));
           init_request (lit "/api/init?lang=" ++ new)]
  /\ (currentLang (vars st) = JStr (lit "my")
      \/ currentLang (vars st) = JStr (lit "en") ->
      currentLang (vars (toggle_and_echo st')) = currentLang (vars st)).
Proof.
  intros new st'.
  destruct (toggle_and_echo_effect st key Hr Hs) as (Hv & Hc & Hn).
  fold new in Hv, Hn. fold st' in Hv, Hc, Hn.
  split; [exact Hv|]. split; [exact Hc|]. split; [exact Hn|].
  intros Hlang.
  assert (Hr' : reachable st')
    by (unfold st', toggle_and_echo; do 2 apply reachable_handle; exact Hr).
  destruct (toggle_and_echo_effect st' (lit "greeting") Hr')
    as (Hv' & _).
  { rewrite Hv. reflexivity. }
  rewrite Hv', Hv. cbn [currentLang]. unfold new.
  destruct Hlang as [-> | ->]; reflexivity.
Qed.

Lemma toggleLanguage_round_trip_witness :
  let st := run (initial example_page) [Load] in
  reachable st
  /\ to_string (currentState (vars st)) = Some (lit "greeting")
  /\ currentLang (vars st) = JStr (lit "my")
  /\ currentLang (vars (toggle_and_echo st)) = JStr (lit "en")
  /\ currentLang (vars (toggle_and_echo (toggle_and_echo st)))
     = JStr (lit "my").
Proof.
  intros st.
  assert (R : reachable st) by (exists example_page, [Load]; reflexivity).
  destruct (toggleLanguage_round_trip st (lit "greeting") R eq_refl)
    as (Hv & _ & _ & Hback).
  split; [exact R|]. split; [reflexivity|]. split; [reflexivity|].
  split; [rewrite Hv; reflexivity|].
  apply Hback. left. reflexivity.
Defined.

(* ------------------------------------------------------------------ *)
(** ** The stars and the developer modal *)

Lemma same_decor_refl st : same_decor st st.
Proof. split; reflexivity. Qed.

Lemma same_decor_trans a b c :
  same_decor a b -> same_decor b c -> same_decor a c.
Proof. unfold same_decor. intuition congruence. Qed.

Lemma steady_same_decor {A} (m : M A) : keeps steady m -> keeps same_decor m.
Proof.
  intros H st. destruct (H st) as (_ & _ & _ & Hm & Hs). split; assumption.
Qed.

Lemma sendMessage_delayed_decor data :
  keeps same_decor (sendMessage_delayed data).
Proof.
  unfold sendMessage_delayed, sendMessage_catch, sendMessage_finally.
  keeps_parts
    ltac:(first [ apply steady_same_decor;
                  solve [auto 1 with steady_db nocore]
                | match goal with
                  | |- keeps _ (modify _) =>
                      intros ?; split; reflexivity
                  end ])
    same_decor_refl same_decor_trans.
Qed.

Lemma decor_step st e :
  stars (dom (handle st e))
  = stars (dom st) + (if is_load e then 80 else 0)
  /\ devModal_active (dom (handle st e))
     = (if is_modal_toggle e then option_map negb (devModal_active (dom st))
        else devModal_active (dom st)).
Proof.
  assert (Hsteady : forall (m : M unit) s,
            keeps steady m -> same_decor s (snd (m s)))
    by (intros m s H; apply (steady_same_decor m H)).
  assert (Hsame : forall s, same_decor st s ->
            stars (dom s) = stars (dom st) + 0
            /\ devModal_active (dom s) = devModal_active (dom st))
    by (intros s (Hs & Hm); rewrite Hs, Hm, Nat.add_0_r; split; reflexivity).
  destruct e as [|text| | | | | |id o|id];
    cbn [handle is_load is_modal_toggle].
  - unfold exec_task, bind, createStars, modify. cbn [fst snd].
    match goal with |- context [initChat ?s] =>
      destruct (Hsteady initChat s initChat_steady) as (Hs & Hm)
    end.
    rewrite Hs, Hm. split; reflexivity.
  - apply Hsame. split; reflexivity.
  - apply Hsame. unfold exec_task. rewrite sendMessage_effect. cbn [snd].
    destruct (_ || _)%bool; split; reflexivity.
  - apply Hsame. split; reflexivity.
  - apply Hsame. split; reflexivity.
  - apply Hsame. apply (Hsteady resetChat st resetChat_steady).
  - split; [|reflexivity]. cbn. lia.
  - apply Hsame.
    destruct (take_pending id (pending (net st))) as [[k rest]|] eqn:Ht;
      [|apply same_decor_refl].
    destruct k; unfold exec_task; try apply same_decor_refl.
    + apply (Hsteady (initChat_settled o) (set_pending rest st)
               (initChat_settled_steady o)).
    + pose proof (sendMessage_settled_effect id o (set_pending rest st)) as E.
      cbn zeta in E.
      destruct o as [|[ok [data|] dl]]; rewrite E; split; reflexivity.
    + apply (Hsteady (toggleLanguage_settled o) (set_pending rest st)
               (toggleLanguage_settled_steady o)).
    + apply (Hsteady (resetChat_settled o) (set_pending rest st)
               (resetChat_settled_steady o)).
    + apply (Hsteady (downloadPDF_settled o) (set_pending rest st)
               (downloadPDF_settled_steady o)).
  - apply Hsame.
    destruct (take_pending id (pending (net st))) as [[k rest]|] eqn:Ht;
      [|apply same_decor_refl].
    destruct k; try apply same_decor_refl. unfold exec_task.
    apply (sendMessage_delayed_decor data (set_pending rest st)).
Qed.

(** X16. The stars and the developer modal belong to [createStars] and
    [toggleDevModal] alone: after any run of events the page holds eighty
    more stars for each time it was loaded, and the modal, if the page has
    one, has been switched once for each call of [toggleDevModal]; nothing
    else touches either, and a page without the modal stays without. *)
Theorem stars_and_modal_over_a_run (d : Dom) (trace : list event) :
  let st := run (initial d) trace in
  stars (dom st) = stars d + 80 * List.length (filter is_load trace)
  /\ devModal_active (dom st)
     = times (List.length (filter is_modal_toggle trace))
         (option_map negb) (devModal_active d).
Proof.
  cbn zeta. induction trace as [|e trace IH] using rev_ind.
  - cbn. split; [lia|reflexivity].
  - unfold run in *. rewrite fold_left_app, !filter_app, !length_app.
    cbn [fold_left]. destruct IH as (IHs & IHm).
    destruct (decor_step (fold_left handle trace (initial d)) e)
      as (Hs & Hm).
    rewrite Hs, Hm, IHs, IHm. cbn [filter].
    split.
    + destruct (is_load e); cbn [List.length]; lia.
    + destruct (is_modal_toggle e); cbn [List.length];
        rewrite Nat.add_comm; reflexivity.
Qed.

(* ------------------------------------------------------------------ *)
(** ** The file name of the download *)

Section FilenameFacts.

Import Disposition.

Lemma canonical_capital c p :
  (65 <= p <= 90)%N -> canonical c = p -> c = p \/ c = (p + 32)%N.
Proof.
  unfold canonical. intros Hp.
  destruct (N.leb_spec 97 c); destruct (N.leb_spec c 122); cbn;
    intros E; lia.
Qed.

(** A character of the pattern that is no letter accepts itself only. *)
Lemma canonical_symbol c p :
  (p < 65)%N -> canonical c = p -> c = p.
Proof.
  unfold canonical. intros Hp.
  destruct (N.leb_spec 97 c); destruct (N.leb_spec c 122); cbn;
    intros E; lia.
Qed.

Lemma accepts_symbol p c :
  (p < 65)%N -> accepts (Ch p) c = true -> c = p.
Proof.
  intros Hp H. unfold accepts, cu_eqb in H. apply N.eqb_eq in H.
  assert (Ep : canonical p = p).
  { unfold canonical. destruct (N.leb_spec 97 p); [lia|reflexivity]. }
  rewrite Ep in H. symmetry in H. apply (canonical_symbol _ _ Hp H).
Qed.

(** The class of the name accepts whatever is none of its four
    characters. *)
Lemma accepts_name c :
  accepts (NoneOf name_stoppers) c = negb (existsb (cu_eqb c) name_stoppers).
Proof.
  assert (H : forall p, (p < 65)%N ->
            cu_eqb (canonical p) (canonical c) = cu_eqb c p).
  { intros p Hp. unfold cu_eqb.
    assert (Ep : canonical p = p).
    { unfold canonical. destruct (N.leb_spec 97 p); [lia|reflexivity]. }
    rewrite Ep.
    destruct (N.eqb_spec p (canonical c)) as [E|E];
      destruct (N.eqb_spec c p) as [E'|E']; try reflexivity.
    - symmetry in E. pose proof (canonical_symbol _ _ Hp E). contradiction.
    - subst c. rewrite Ep in E. contradiction. }
  unfold accepts, name_stoppers. cbn [existsb].
  rewrite !H by (vm_compute; reflexivity). reflexivity.
Qed.

Lemma atoms_prefix_split l s s' :
  atoms_prefix l s = Some s' -> exists p, s = p ++ s'.
Proof.
  revert s. induction l as [|a l IH]; intros s H.
  - cbn in H. injection H as <-. exists []. reflexivity.
  - destruct s as [|c s]; [discriminate|]. cbn in H.
    destruct (accepts a c); [|discriminate].
    destruct (IH _ H) as (p & ->). exists (c :: p). reflexivity.
Qed.

(** What a repetition hands to the rest of the pattern. *)
Lemma greedy_plus_split {R} a (k : jsstring -> jsstring -> option R)
    s acc m :
  greedy_plus a k s acc = Some m ->
  exists name q,
    s = name ++ q /\ name <> [] /\ forallb (accepts a) name = true
    /\ k q (acc ++ name) = Some m.
Proof.
  revert acc. induction s as [|c s IH]; intros acc H; [discriminate|].
  cbn in H. destruct (accepts a c) eqn:Hc; [|discriminate].
  destruct (greedy_plus a k s (acc ++ [c])) as [m'|] eqn:Hg.
  - injection H as ->.
    destruct (IH _ Hg) as (name & q & -> & _ & Hall & Hk).
    exists (c :: name), q. rewrite <- app_assoc in Hk.
    repeat split; [discriminate|cbn; rewrite Hc; exact Hall|exact Hk].
  - exists [c], s. repeat split; [discriminate|cbn; rewrite Hc; reflexivity|].
    exact H.
Qed.

(** Where a match ends up: past some prefix of the text, with the rest of
    the pattern still to match, unless the capture was on the way. *)
Lemma exec_split pre rest s cap m :
  Forall (fun i => match i with CapturePlus _ => False | _ => True end) pre ->
  exec (pre ++ rest) s cap = Some m ->
  exists p s', s = p ++ s' /\ exec rest s' cap = Some m.
Proof.
  intros Hpre. revert s.
  induction Hpre as [|i pre Hi _ IH]; intros s H.
  - exists [], s. split; [reflexivity|exact H].
  - destruct i as [a|l|a]; [| |contradiction]; cbn in H.
    + destruct s as [|c s]; [discriminate|].
      destruct (accepts a c); [|discriminate].
      destruct (IH _ H) as (p & s' & -> & Hm).
      exists (c :: p), s'. split; [reflexivity|exact Hm].
    + destruct (atoms_prefix l s) as [s1|] eqn:Hl; [|exact (IH _ H)].
      destruct (exec (pre ++ rest) s1 cap) as [m'|] eqn:H1;
        [|exact (IH _ H)].
      injection H as ->.
      destruct (atoms_prefix_split _ _ _ Hl) as (p0 & ->).
      destruct (IH _ H1) as (p & s' & -> & Hm).
      exists (p0 ++ p), s'. rewrite <- app_assoc.
      split; [reflexivity|exact Hm].
Qed.

Lemma search_split r s m :
  search r s = Some m ->
  exists p s', s = p ++ s' /\ exec r s' None = Some m.
Proof.
  induction s as [|c s IH]; cbn; intros H.
  - destruct (exec r [] None) eqn:E; [|discriminate].
    exists [], []. split; [reflexivity|]. congruence.
  - destruct (exec r (c :: s) None) eqn:E.
    + exists [], (c :: s). split; [reflexivity|]. congruence.
    + destruct (IH H) as (p & s' & -> & Hm).
      exists (c :: p), s'. split; [reflexivity|exact Hm].
Qed.

Lemma free_of_in cs s c :
  free_of cs s = true -> In c s -> existsb (cu_eqb c) cs = false.
Proof.
  unfold free_of. intros H Hin.
  rewrite forallb_forall in H. specialize (H c Hin).
  destruct (existsb _ _); [discriminate|reflexivity].
Qed.

Lemma re_filename_parts :
  re_filename
  = re_filename_keyword
    ++ One (Ch c_equals)
       :: re_filename_prefixes ++ [CapturePlus (NoneOf name_stoppers)].
Proof. reflexivity. Qed.

Lemma no_capture_keyword :
  Forall (fun i => match i with CapturePlus _ => False | _ => True end)
    re_filename_keyword.
Proof. repeat constructor. Qed.

Lemma no_capture_prefixes :
  Forall (fun i => match i with CapturePlus _ => False | _ => True end)
    re_filename_prefixes.
Proof. repeat constructor. Qed.

(** A match of the pattern: an equals sign, and further on the name. *)
Lemma exec_re_filename s m :
  exec re_filename s None = Some m ->
  exists p name q,
    s = p ++ c_equals :: name ++ q
    /\ (exists p' name', name = p' ++ name' /\ name' <> []
                         /\ free_of name_stoppers name' = true
                         /\ m = Some name').
Proof.
  rewrite re_filename_parts. intros H.
  apply (exec_split _ _ _ _ _ no_capture_keyword) in H.
  destruct H as (p & s1 & -> & H). cbn [exec] in H.
  destruct s1 as [|c s1]; [discriminate|].
  destruct (accepts (Ch c_equals) c) eqn:Hc; [|discriminate].
  pose proof (accepts_symbol c_equals c eq_refl Hc). subst c.
  apply (exec_split _ _ _ _ _ no_capture_prefixes) in H.
  destruct H as (p' & s2 & -> & H). cbn [exec] in H.
  apply greedy_plus_split in H.
  destruct H as (name & q & -> & Hne & Hall & Hm).
  cbn in Hm. injection Hm as <-.
  exists p, (p' ++ name), q. rewrite <- app_assoc.
  split; [reflexivity|]. exists p', name.
  repeat split; [exact Hne|].
  unfold free_of. rewrite forallb_forall in *. intros c Hin.
  rewrite <- accepts_name. apply Hall, Hin.
Qed.

Lemma accepts_quotes c :
  accepts (OneOf quotes) c = existsb (cu_eqb c) quotes.
Proof.
  assert (H : forall p, (p < 65)%N ->
            cu_eqb (canonical p) (canonical c) = cu_eqb c p).
  { intros p Hp. unfold cu_eqb.
    assert (Ep : canonical p = p).
    { unfold canonical. destruct (N.leb_spec 97 p); [lia|reflexivity]. }
    rewrite Ep.
    destruct (N.eqb_spec p (canonical c)) as [E|E];
      destruct (N.eqb_spec c p) as [E'|E']; try reflexivity.
    - symmetry in E. pose proof (canonical_symbol _ _ Hp E). contradiction.
    - subst c. rewrite Ep in E. contradiction. }
  unfold accepts, quotes. cbn [existsb].
  rewrite !H by (vm_compute; reflexivity). reflexivity.
Qed.

Lemma search_here r s m : exec r s None = Some m -> search r s = Some m.
Proof. intros H. destruct s; cbn; rewrite H; reflexivity. Qed.

(** The search passes over what cannot start the keyword. *)
Lemma search_skip p s :
  free_of [102; 70]%N p = true ->
  search re_filename (p ++ s) = search re_filename s.
Proof.
  induction p as [|c p IH]; intros H; [reflexivity|].
  cbn [free_of forallb] in H. apply andb_true_iff in H.
  destruct H as (Hc & Hp). cbn [app search].
  change re_filename with (One (Ch 102%N) :: tl re_filename).
  cbn [exec].
  assert (Ha : accepts (Ch 102%N) c = false).
  { destruct (accepts (Ch 102%N) c) eqn:E; [|reflexivity].
    unfold accepts, cu_eqb in E. apply N.eqb_eq in E.
    change (canonical 102%N) with 70%N in E. symmetry in E.
    apply canonical_capital in E; [|lia].
    cbn [existsb] in Hc. unfold cu_eqb in Hc.
    destruct E as [-> | ->]; discriminate. }
  rewrite Ha. apply IH, Hp.
Qed.

(** A word of the pattern against the same word in whatever case. *)
Lemma exec_word w w' rest s cap :
  map canonical w' = map canonical w ->
  exec (map (fun c => One (Ch c)) w ++ rest) (w' ++ s) cap = exec rest s cap.
Proof.
  revert w'. induction w as [|c w IH]; intros [|c' w'] H;
    try discriminate; [reflexivity|].
  cbn in H. injection H as Hc Hw. cbn [map app exec accepts].
  rewrite Hc. unfold cu_eqb. rewrite N.eqb_refl. apply IH, Hw.
Qed.

Lemma atoms_word w w' s :
  map canonical w' = map canonical w ->
  atoms_prefix (map Ch w) (w' ++ s) = Some s.
Proof.
  revert w'. induction w as [|c w IH]; intros [|c' w'] H;
    try discriminate; [destruct s; reflexivity|].
  cbn in H. injection H as Hc Hw. cbn [map app atoms_prefix accepts].
  rewrite Hc. unfold cu_eqb. rewrite N.eqb_refl. apply IH, Hw.
Qed.

Lemma exec_opt_skip l r s cap :
  atoms_prefix l s = None -> exec (Opt l :: r) s cap = exec r s cap.
Proof. intros H. cbn [exec]. rewrite H. reflexivity. Qed.

Lemma exec_opt_take l r s s' cap m :
  atoms_prefix l s = Some s' -> exec r s' cap = Some m ->
  exec (Opt l :: r) s cap = Some m.
Proof. intros H Hm. cbn [exec]. rewrite H, Hm. reflexivity. Qed.

Lemma exec_one a r c s cap :
  accepts a c = true -> exec (One a :: r) (c :: s) cap = exec r s cap.
Proof. intros H. cbn [exec]. rewrite H. reflexivity. Qed.

(** The name is taken up to the first code unit that cannot be part of
    it. *)
Lemma greedy_plus_run name q acc :
  name <> [] ->
  free_of name_stoppers name = true ->
  match q with
  | [] => true
  | c :: _ => existsb (cu_eqb c) name_stoppers
  end = true ->
  greedy_plus (NoneOf name_stoppers)
    (fun (_ : jsstring) text => Some (Some text)) (name ++ q) acc
  = Some (Some (acc ++ name)).
Proof.
  intros Hne Hfree Hq. revert acc.
  induction name as [|c name IH]; intros acc; [contradiction|].
  cbn [free_of forallb] in Hfree. apply andb_true_iff in Hfree.
  destruct Hfree as (Hc & Hfree).
  cbn [app greedy_plus]. rewrite accepts_name, Hc.
  destruct name as [|c' name].
  - cbn [app].
    assert (Hstop : greedy_plus (NoneOf name_stoppers)
                      (fun (_ : jsstring) text => Some (Some text)) q
                      (acc ++ [c])
                    = None).
    { destruct q as [|d q]; [reflexivity|].
      cbn [greedy_plus]. rewrite accepts_name, Hq. reflexivity. }
    rewrite Hstop. reflexivity.
  - rewrite IH; [|discriminate|exact Hfree].
    rewrite <- app_assoc. reflexivity.
Qed.

Lemma exec_name name q :
  name <> [] ->
  free_of name_stoppers name = true ->
  match q with
  | [] => true
  | c :: _ => existsb (cu_eqb c) name_stoppers
  end = true ->
  exec [Opt [OneOf quotes]; CapturePlus (NoneOf name_stoppers)] (name ++ q)
    None
  = Some (Some name).
Proof.
  intros Hne Hfree Hq.
  pose proof (greedy_plus_run name q [] Hne Hfree Hq) as Hrun.
  destruct name as [|c name]; [contradiction|].
  cbn [exec atoms_prefix app]. rewrite accepts_quotes.
  assert (Hc : existsb (cu_eqb c) quotes = false).
  { cbn [free_of forallb] in Hfree. apply andb_true_iff in Hfree.
    destruct Hfree as (Hc & _). unfold name_stoppers in Hc. unfold quotes.
    cbn [existsb] in Hc |- *. destruct (cu_eqb c c_dquote); [discriminate|].
    destruct (cu_eqb c c_squote); [discriminate|reflexivity]. }
  rewrite Hc. exact Hrun.
Qed.

Lemma exec_quoted_name quote name q :
  In quote quotes ->
  name <> [] ->
  free_of name_stoppers name = true ->
  match q with
  | [] => true
  | c :: _ => existsb (cu_eqb c) name_stoppers
  end = true ->
  exec [Opt [OneOf quotes]; CapturePlus (NoneOf name_stoppers)]
    (quote :: name ++ q) None
  = Some (Some name).
Proof.
  intros Hquote Hne Hfree Hq.
  pose proof (greedy_plus_run name q [] Hne Hfree Hq) as Hrun.
  cbn [exec atoms_prefix]. rewrite accepts_quotes.
  assert (Hc : existsb (cu_eqb quote) quotes = true)
    by (destruct Hquote as [<-|[<-|[]]]; reflexivity).
  rewrite Hc. cbn [app] in Hrun. rewrite Hrun. reflexivity.
Qed.

Lemma filename_of_nonempty decode c d :
  filename decode (Some (c :: d))
  = match search re_filename (c :: d) with
    | Some (Some name) => decode name
    | Some None => decode (lit "undefined")
    | None => Some default_filename
    end.
Proof. reflexivity. Qed.

(** X17. The default name: without a header, with an empty header and with
    a header that holds no equals sign, the download is named
    mahabote_report.pdf and [decodeURIComponent] is not called. *)
Theorem filename_default (decode : jsstring -> option jsstring)
    (d : jsstring) (H : free_of [c_equals] d = true) :
  filename decode None = Some default_filename
  /\ filename decode (Some []) = Some default_filename
  /\ filename decode (Some d) = Some default_filename.
Proof.
  split; [reflexivity|]. split; [reflexivity|].
  destruct d as [|c d]; [reflexivity|].
  rewrite filename_of_nonempty.
  destruct (search re_filename (c :: d)) as [m|] eqn:Hs; [|reflexivity].
  exfalso.
  destruct (search_split _ _ _ Hs) as (p & s' & E & Hm).
  destruct (exec_re_filename _ _ Hm) as (p' & name & q & -> & _).
  rewrite E in H.
  assert (Hin : In c_equals (p ++ p' ++ c_equals :: name ++ q)).
  { apply in_or_app. right. apply in_or_app. right. left. reflexivity. }
  pose proof (free_of_in _ _ _ H Hin) as Hno. discriminate.
Qed.

Lemma filename_default_witness :
  free_of [c_equals] (lit "attachment") = true
  /\ filename (fun s => Some s) (Some (lit "attachment"))
     = Some (lit "mahabote_report.pdf").
Proof.
  split; [reflexivity|].
  destruct (filename_default (fun s => Some s) (lit "attachment") eq_refl)
    as (_ & _ & H).
  exact H.
Defined.

(** X18. Any other name comes out of the header: when the download is not
    given the default name, it is given what [decodeURIComponent] makes of
    a part of the header that lies after an equals sign, is not empty and
    holds no quote, no semicolon and no line feed. *)
Theorem filename_comes_from_header (decode : jsstring -> option jsstring)
    (d : jsstring) :
  filename decode (Some d) = Some default_filename
  \/ exists p name q,
       d = p ++ c_equals :: name ++ q
       /\ exists p' name',
            name = p' ++ name' /\ name' <> []
            /\ free_of name_stoppers name' = true
            /\ filename decode (Some d) = decode name'.
Proof.
  destruct d as [|c d]; [left; reflexivity|].
  rewrite filename_of_nonempty.
  destruct (search re_filename (c :: d)) as [m|] eqn:Hs;
    [|left; reflexivity].
  right.
  destruct (search_split _ _ _ Hs) as (p & s' & E & Hm).
  destruct (exec_re_filename _ _ Hm)
    as (p' & name & q & -> & p'' & name' & -> & Hne & Hfree & ->).
  exists (p ++ p'), (p'' ++ name'), q.
  split; [rewrite E; apply app_assoc|].
  exists p'', name'. repeat split; assumption.
Qed.

(** X19. The usual headers: after a text without the letter f, the keyword
    in whatever case, and before the end of the header or a quote, a
    semicolon or a line feed, a name that is not empty and holds none of
    these is found in the quoted form filename=..., in the extended form
    filename*=UTF-8 followed by two single quotes, and bare when it does
    not start with the letter u; the download is named what
    [decodeURIComponent] makes of it. *)
Theorem filename_of_usual_headers (decode : jsstring -> option jsstring)
    (p kw utf name q : jsstring) (quote : code_unit)
    (Hp : free_of [102; 70]%N p = true)
    (Hkw : map canonical kw = map canonical (lit "filename"))
    (Hutf : map canonical utf
            = map canonical (lit "UTF-8" ++ [c_squote; c_squote]))
    (Hquote : In quote quotes)
    (Hne : name <> [])
    (Hname : free_of name_stoppers name = true)
    (Hq : match q with
          | [] => true
          | c :: _ => existsb (cu_eqb c) name_stoppers
          end = true) :
  filename decode (Some (p ++ kw ++ [c_equals; quote] ++ name ++ q))
  = decode name
  /\ filename decode
       (Some (p ++ kw ++ [c_star; c_equals] ++ utf ++ name ++ q))
     = decode name
  /\ ((forall c name', name = c :: name' -> canonical c <> 85%N) ->
      filename decode (Some (p ++ kw ++ [c_equals] ++ name ++ q))
      = decode name).
Proof.
  assert (Hfound : forall s,
            exec [Opt [Ch c_star]; One (Ch c_equals);
                  Opt (map Ch (lit "UTF-8" ++ [c_squote; c_squote]));
                  Opt [OneOf quotes]; CapturePlus (NoneOf name_stoppers)]
              s None
            = Some (Some name) ->
            filename decode (Some (p ++ kw ++ s)) = decode name).
  { intros s Hs.
    destruct kw as [|k kw]; [discriminate|].
    destruct (p ++ (k :: kw) ++ s) as [|c d] eqn:E.
    { apply app_eq_nil in E. destruct E as (_ & E). discriminate. }
    rewrite filename_of_nonempty, <- E, (search_skip _ _ Hp).
    rewrite (search_here _ _ (Some name)); [reflexivity|].
    unfold re_filename. rewrite (exec_word _ _ _ _ _ Hkw). exact Hs. }
  split; [|split].
  - apply Hfound. cbn [app].
    rewrite exec_opt_skip by reflexivity.
    rewrite exec_one by reflexivity.
    rewrite exec_opt_skip
      by (destruct Hquote as [<-|[<-|[]]]; reflexivity).
    apply (exec_quoted_name quote name q Hquote Hne Hname Hq).
  - apply Hfound. cbn [app].
    apply (exec_opt_take _ _ _ (c_equals :: utf ++ name ++ q));
      [reflexivity|].
    rewrite exec_one by reflexivity.
    apply (exec_opt_take _ _ _ (name ++ q)); [apply atoms_word, Hutf|].
    apply (exec_name name q Hne Hname Hq).
  - intros Hbare. apply Hfound. cbn [app].
    rewrite exec_opt_skip by reflexivity.
    rewrite exec_one by reflexivity.
    rewrite exec_opt_skip; [apply (exec_name name q Hne Hname Hq)|].
    destruct name as [|c name']; [contradiction|].
    change (map Ch (lit "UTF-8" ++ [c_squote; c_squote]))
      with (Ch 85%N :: map Ch (lit "TF-8" ++ [c_squote; c_squote])).
    cbn [app atoms_prefix accepts].
    destruct (cu_eqb (canonical 85%N) (canonical c)) eqn:E; [|reflexivity].
    unfold cu_eqb in E. apply N.eqb_eq in E.
    exfalso. apply (Hbare c name' eq_refl). symmetry. exact E.
Qed.

Lemma filename_of_usual_headers_witness :
  let decode := fun s : jsstring => Some s in
  free_of [102; 70]%N (lit "attachment; ") = true
  /\ map canonical (lit "FileName") = map canonical (lit "filename")
  /\ map canonical (lit "utf-8" ++ [c_squote; c_squote])
     = map canonical (lit "UTF-8" ++ [c_squote; c_squote])
  /\ In c_dquote quotes
  /\ lit "report 1.pdf" <> []
  /\ free_of name_stoppers (lit "report 1.pdf") = true
  /\ filename decode
       (Some (lit "attachment; " ++ lit "FileName"
              ++ [c_equals; c_dquote] ++ lit "report 1.pdf"
              ++ c_dquote :: lit "; size=3"))
     = Some (lit "report 1.pdf")
  /\ filename decode
       (Some (lit "attachment; " ++ lit "FileName"
              ++ [c_star; c_equals]
              ++ (lit "utf-8" ++ [c_squote; c_squote])
              ++ lit "report 1.pdf" ++ c_dquote :: lit "; size=3"))
     = Some (lit "report 1.pdf").
Proof.
  intros decode.
  assert (Hne : lit "report 1.pdf" <> []) by (vm_compute; discriminate).
  destruct (filename_of_usual_headers decode (lit "attachment; ")
              (lit "FileName") (lit "utf-8" ++ [c_squote; c_squote])
              (lit "report 1.pdf") (c_dquote :: lit "; size=3") c_dquote
              eq_refl eq_refl eq_refl (or_introl eq_refl) Hne eq_refl
              eq_refl) as (Hquoted & Hextended & _).
  do 3 (split; [reflexivity|]). split; [left; reflexivity|].
  split; [exact Hne|]. split; [reflexivity|].
  split; [exact Hquoted|exact Hextended].
Defined.

End FilenameFacts.

(* ------------------------------------------------------------------ *)
(** ** The outcome of a download *)

Lemma pdf_texts_plain :
  formatMessage pdf_done = pdf_done /\ formatMessage pdf_failed = pdf_failed.
Proof. split; vm_compute; reflexivity. Qed.

(** X20. What the page shows of a download: when the request of
    [downloadPDF] settles, one bubble of the bot is appended to the chat
    and nothing else changes, no typing indicator is removed and no
    variable is written; the bubble holds the text of success when the
    status is ok and the file was handed over, and the text of failure
    otherwise, the same two texts whatever [currentLang] is. *)
Theorem downloadPDF_shows_one_bubble (st : State) (id : nat)
    (rest : list (nat * continuation)) (o : outcome)
    (Hp : take_pending id (pending (net st)) = Some (KPdf, rest)) :
  let done :=
    match o with
    | Response r => (res_ok r && res_download r)%bool
    | NetworkError => false
    end in
  handle st (Settle id o)
  = set_chatMessages
      (chatMessages (dom st)
       ++ [Message Bot (if done then pdf_done else pdf_failed)])
      (set_pending rest st).
Proof.
  destruct pdf_texts_plain as (Hdone & Hfailed).
  cbn [handle]. rewrite Hp.
  unfold exec_task, downloadPDF_settled, addMessage, format_content,
    append_node.
  unfold_monad.
  destruct o as [|r]; cbn -[formatMessage];
    [|destruct (res_ok r && res_download r)%bool; cbn -[formatMessage]];
    rewrite ?Hdone, ?Hfailed; reflexivity.
Qed.

Lemma downloadPDF_shows_one_bubble_witness :
  let st := run (initial example_page) [DownloadPDF] in
  let r := {| res_ok := false; res_json := None; res_download := true |} in
  take_pending 0 (pending (net st)) = Some (KPdf, [])
  /\ chatMessages (dom (handle st (Settle 0 (Response r))))
     = [Message Bot pdf_failed].
Proof.
  intros st r.
  split; [reflexivity|].
  rewrite (downloadPDF_shows_one_bubble st 0 [] (Response r) eq_refl).
  reflexivity.
Defined.

(* ------------------------------------------------------------------ *)
(** ** The hint, the flag and the placeholder *)

Lemma same_labels_refl st : same_labels st st.
Proof. repeat split. Qed.

Lemma same_labels_trans a b c :
  same_labels a b -> same_labels b c -> same_labels a c.
Proof. unfold same_labels. intuition congruence. Qed.

Ltac keeps_labels :=
  keeps_parts
    ltac:(idtac;
          match goal with
          | |- keeps _ (modify _) => intros ?; repeat split
          end)
    same_labels_refl same_labels_trans.

Lemma initChat_labels : keeps same_labels initChat.
Proof.
  unfold initChat, showTyping, get_init, init_url, fetch, initChat_catch,
    removeTyping, addMessage, format_content, append_node.
  keeps_labels.
Qed.

Lemma resetChat_labels : keeps same_labels resetChat.
Proof.
  unfold resetChat, get_init, init_url, fetch. keeps_labels.
Qed.

(** X21. The hint under the input field, the flag and the placeholder are
    written only when a response is handled: no action of the user and no
    loading of the page touches them.  So after [resetChat] has set
    [currentState] to 'greeting' the hint still is the one of the state
    before, until the response arrives. *)
Theorem labels_wait_for_the_response (st : State) (e : event)
    (H : is_action e = true) :
  same_labels st (handle st e)
  /\ (e = ResetChat ->
      currentState (vars (handle st e)) = JStr (lit "greeting")
      /\ inputHint (dom (handle st e)) = inputHint (dom st)).
Proof.
  assert (Hsame : same_labels st (handle st e)).
  { destruct e as [|text| | | | | |id o|id]; try discriminate;
      cbn [handle]; unfold exec_task.
    - unfold bind, createStars, modify. cbn [fst snd].
      match goal with |- context [initChat ?s] =>
        apply (same_labels_trans st s); [repeat split|apply initChat_labels]
      end.
    - repeat split.
    - rewrite sendMessage_effect. cbn [snd].
      destruct (_ || _)%bool; repeat split.
    - repeat split.
    - repeat split.
    - apply resetChat_labels.
    - repeat split. }
  split; [exact Hsame|].
  intros ->. cbn [handle]. unfold exec_task.
  destruct (resetChat_effect st) as (_ & Hs & _).
  split; [exact Hs|]. apply Hsame.
Qed.

Lemma labels_wait_for_the_response_witness :
  let st := run (initial example_page)
              [Load;
               Settle 0 (json_response
                           (JObj [(lit "response", JStr (lit "Hello"));
                                  (lit "state", JStr (lit "ask_name"));
                                  (lit "hints",
                                   JObj [(lit "ask_name",
                                          JStr (lit "Your name"))])]))] in
  is_action ResetChat = true
  /\ inputHint (dom st) = HintText (lit "Your name")
  /\ currentState (vars (handle st ResetChat)) = JStr (lit "greeting")
  /\ inputHint (dom (handle st ResetChat)) = HintText (lit "Your name").
Proof.
  intros st.
  destruct (labels_wait_for_the_response st ResetChat eq_refl)
    as (_ & Hreset).
  destruct (Hreset eq_refl) as (Hs & Hh).
  split; [reflexivity|]. split; [reflexivity|].
  split; [exact Hs|]. rewrite Hh. reflexivity.
Defined.
